(** * sync.py: two-way synchronisation with a Drive folder, and periodic backups

    A shallow embedding of [src/sync.py].  The script is sequential Python
    that talks to three things: the local file system, the Drive service and
    the clock.  It is embedded in a state-and-exception monad [Prog] over a
    [World]; what the outside answers (the service, the clock, the disk when
    a file is written) is an oracle [Env] that sees the whole history of the
    run, so that every statement below holds for every behaviour of the
    outside. *)

From Stdlib Require Import ZArith Ascii String List Lia.
From stdpp Require Import base option list gmap strings.

Local Open Scope string_scope.
Local Open Scope list_scope.
Local Open Scope Z_scope.

(** ** Data *)

(** [str(e)] of a Python exception: the only thing the script does with an
    exception is to format it into a log line and raise it again. *)
Definition exn := string.

Inductive Outcome (A : Type) : Type :=
| Ok (a : A)
| Raised (e : exn).
Arguments Ok {A} a.
Arguments Raised {A} e.

(** One entry of [files(id, name, modifiedTime)] as the service lists it.
    The three keys are always there, so such a dict is truthy. *)
Record DriveFile : Type := {
  fileId : string;
  name : string;
  modifiedTime : string
}.

(** What [os.stat] knows of a local path.  A POSIX float time [st_mtime]
    is kept as an integer, in a unit fine enough for every finite float and
    for the microsecond, so that comparing floats is comparing integers. *)
Inductive Kind : Type := RegularFile | Directory.

Record Stat : Type := {
  st_kind : Kind;
  st_mtime : Z
}.

(** [file_mappings] is a JSON object: a dict, iterated in insertion order. *)
Definition Mapping : Type := list (string * string).

(** The file at [CONFIG_FILE]: it cannot be opened, it is not JSON, it is
    a JSON object in which either key may be missing, or it is another JSON
    value (a list, a string, a number, [true], [false], [null]), of which
    the script can only meet the [TypeError] of subscripting it.  The
    values of the two keys are taken as the script expects them: a string
    and an object of strings. *)
Inductive ConfigFile : Type :=
| NoConfig (e : exn)
| BadJson (e : exn)
| Json (folder_id : option string) (file_mappings : option Mapping)
| NotObject (e : exn).

(** A JSON object as [json.load] returns it. *)
Record Config : Type := {
  cfg_folder_id : option string;
  cfg_file_mappings : option Mapping
}.

(** What [json.load] returns: an object, or a value that is not one. *)
Inductive Loaded : Type :=
| Object (config : Config)
| NotSubscriptable (e : exn).

Inductive Level : Type := INFO | WARNING | ERROR.

(** Everything the script does to the outside, in the order it does it.
    The four transfer operations are those of the remote store:
    [Create] is [MediaFileUpload] + [files().create(...).execute()],
    [Update] is [MediaFileUpload] + [files().update(...).execute()],
    [Download] is [get_media], [open(path, 'wb')] and the chunk loop.
    [ZipOpen] is [zipfile.ZipFile(path, 'w')]; [ZipWrite] is the writing of
    the members and the closing of the archive. *)
Inductive Event : Type :=
| Log (lvl : Level) (msg : string)
| OpenConfig
| Now
| ListFiles (folder_id : string)
| Create (file_name folder_id file_path : string)
| Update (file_id file_path : string)
| Download (file_id local_file_path : string)
| ZipOpen (path : string)
| ZipWrite (path : string) (members : list (string * string))
| Remove (path : string)
| Sleep (seconds : Z).

(** How writing a local file ends: written and closed, never opened, or
    opened (so the file is there, with a fresh [st_mtime]) and then failed. *)
Inductive Written : Type :=
| Closed (mtime : Z)
| NotOpened (e : exn)
| Broken (mtime : Z) (e : exn).

(** The outside world, as a strategy: each answer may depend on all that
    happened before.  [reads_as] tells what [load_config] would find in
    the file that is being written at the given path: it matters when that
    path is [CONFIG_FILE]. *)
Record Env : Type := {
  clock : list Event → Z;
  listing : list Event → string → Outcome (list DriveFile);
  create_reply : list Event → string → string → string → option exn;
  update_reply : list Event → string → string → option exn;
  download_reply : list Event → string → string → Written;
  zip_open_reply : list Event → string → Outcome Z;
  zip_write_reply : list Event → string → list (string * string) → Z * option exn;
  reads_as : list Event → string → ConfigFile;
  idle_edits : list Event → gmap string Stat * ConfigFile → gmap string Stat * ConfigFile
}.

(** The state of a run: the local disk, what the file at [CONFIG_FILE]
    reads as, and the events so far (oldest first).  The content of the
    configuration file is kept beside its [Stat]: a write to that path or
    its removal changes both.  Paths are the keys of the disk: a file has
    one path. *)
Record World : Type := {
  disk : gmap string Stat;
  config_file : ConfigFile;
  trace : list Event
}.

(** ** The monad *)

Definition Prog (A : Type) : Type := World → Outcome A * World.

Definition ret {A} (a : A) : Prog A := λ w, (Ok a, w).

Definition bind {A B} (m : Prog A) (k : A → Prog B) : Prog B :=
  λ w, match m w with
       | (Ok a, w') => k a w'
       | (Raised e, w') => (Raised e, w')
       end.

Definition raise {A} (e : exn) : Prog A := λ w, (Raised e, w).

(** [try: m  except Exception as e: h e] *)
Definition try_except {A} (m : Prog A) (h : exn → Prog A) : Prog A :=
  λ w, match m w with
       | (Ok a, w') => (Ok a, w')
       | (Raised e, w') => h e w'
       end.

Definition lift {A} (r : Outcome A) : Prog A := λ w, (r, w).

Declare Scope prog_scope.
Delimit Scope prog_scope with prog.
Notation "x <- m ;; k" := (bind m (λ x, k))
  (at level 100, m at next level, k at level 200, right associativity) : prog_scope.
Notation "m ;; k" := (bind m (λ _, k))
  (at level 100, k at level 200, right associativity) : prog_scope.
Local Open Scope prog_scope.

Definition record (e : Event) (w : World) : World :=
  {| disk := disk w; config_file := config_file w; trace := trace w ++ [e] |}.

Definition emit (e : Event) : Prog unit := λ w, (Ok tt, record e w).

Definition logging (lvl : Level) (msg : string) : Prog unit := emit (Log lvl msg).

(** The events a program adds to the trace of [w]. *)
Definition emitted {A} (m : Prog A) (w : World) : list Event :=
  drop (length (trace w)) (trace (snd (m w))).

Definition result {A} (m : Prog A) (w : World) : Outcome A := fst (m w).

(** ** [os.path] *)

(** [posixpath.basename]: what follows the last slash. *)
Fixpoint basename (p : string) : string :=
  match p with
  | EmptyString => EmptyString
  | String c rest =>
      if Ascii.eqb c "/"%char then basename rest
      else if existsb (Ascii.eqb "/"%char) (list_ascii_of_string rest) then basename rest
      else p
  end.

Definition CONFIG_FILE : string := "./config.json".

(** A file written at [p]: a regular file with a new time, which reads as
    [c] if it is the configuration file. *)
Definition write_stat (p : string) (mtime : Z) (c : ConfigFile) (w : World) : World :=
  {| disk := <[p := {| st_kind := RegularFile; st_mtime := mtime |}]> (disk w);
     config_file := if String.eqb p CONFIG_FILE then c else config_file w;
     trace := trace w |}.

Definition os_path_exists (p : string) : Prog bool :=
  λ w, (Ok (bool_decide (is_Some (disk w !! p))), w).

Definition os_path_isfile (p : string) : Prog bool :=
  λ w, (Ok (match disk w !! p with
            | Some st => match st_kind st with RegularFile => true | Directory => false end
            | None => false
            end), w).

Definition os_path_getmtime (p : string) : Prog Z :=
  λ w, match disk w !! p with
       | Some st => (Ok (st_mtime st), w)
       | None => (Raised ("[Errno 2] No such file or directory: '" +:+ p +:+ "'"), w)
       end.

Definition unlink (p : string) (w : World) : World :=
  {| disk := delete p (disk w);
     config_file := if String.eqb p CONFIG_FILE
                    then NoConfig ("[Errno 2] No such file or directory: '" +:+ p +:+ "'")
                    else config_file w;
     trace := trace w |}.

(** [os.remove]: only a regular file can be removed. *)
Definition os_remove (p : string) : Prog unit :=
  λ w, let w1 := record (Remove p) w in
       match disk w !! p with
       | Some st =>
           match st_kind st with
           | RegularFile => (Ok tt, unlink p w1)
           | Directory => (Raised ("[Errno 21] Is a directory: '" +:+ p +:+ "'"), w1)
           end
       | None => (Raised ("[Errno 2] No such file or directory: '" +:+ p +:+ "'"), w1)
       end.

(** ** Counting calls in a trace *)

Fixpoint calls (p : Event → bool) (l : list Event) : nat :=
  match l with
  | [] => O
  | e :: rest => if p e then S (calls p rest) else calls p rest
  end.

Definition is_create (e : Event) : bool :=
  match e with Create _ _ _ => true | _ => false end.

Definition is_update (e : Event) : bool :=
  match e with Update _ _ => true | _ => false end.

Definition is_download (e : Event) : bool :=
  match e with Download _ _ => true | _ => false end.

Definition is_upload (e : Event) : bool := is_create e || is_update e.

Definition is_transfer (e : Event) : bool := is_upload e || is_download e.

Definition is_warning (e : Event) : bool :=
  match e with Log WARNING _ => true | _ => false end.

Definition is_open_config (e : Event) : bool :=
  match e with OpenConfig => true | _ => false end.

Definition is_archive (e : Event) : bool :=
  match e with ZipOpen _ | ZipWrite _ _ => true | _ => false end.

Definition is_remove (e : Event) : bool :=
  match e with Remove _ => true | _ => false end.

Definition is_sleep (e : Event) : bool :=
  match e with Sleep _ => true | _ => false end.

Definition is_list (e : Event) : bool :=
  match e with ListFiles _ => true | _ => false end.

Definition is_error (e : Event) : bool :=
  match e with Log ERROR _ => true | _ => false end.

(** [os.path.exists] and [os.path.isfile] on a disk. *)
Definition present_on (d : gmap string Stat) (p : string) : bool :=
  bool_decide (is_Some (d !! p)).

Definition regular_on (d : gmap string Stat) (p : string) : bool :=
  match d !! p with
  | Some st => match st_kind st with RegularFile => true | Directory => false end
  | None => false
  end.

(** The paths of [files] that exist on [d], each with its basename. *)
Definition members_on (d : gmap string Stat) (files : list string) : list (string * string) :=
  map (λ p, (p, basename p)) (List.filter (present_on d) files).

(** An upload of the local file [p]. *)
Definition uploads (p : string) (e : Event) : bool :=
  match e with
  | Create _ _ q | Update _ q => String.eqb q p
  | _ => false
  end.

(** A string without a slash. *)
Definition slashless (s : string) : bool :=
  negb (existsb (Ascii.eqb "/"%char) (list_ascii_of_string s)).

(** The events of a pass of [sync]: log lines, reads of the configuration,
    listings and transfers. *)
Definition is_sync_event (e : Event) : bool :=
  match e with
  | Log _ _ | OpenConfig | ListFiles _ | Create _ _ _ | Update _ _ | Download _ _ => true
  | _ => false
  end.

(** ** Invariants of programs

    [keeps I P m]: run from a world in [I], the program [m] ends in [I]
    (whether it returns or raises), it only adds events to the trace, and
    each event it adds is in [P]. *)
Definition keeps (I : World → Prop) (P : Event → Prop) {A} (m : Prog A) : Prop :=
  ∀ w, I w → I (snd (m w)) ∧ ∃ l, trace (snd (m w)) = trace w ++ l ∧ Forall P l.

Definition any_world : World → Prop := λ _, True.
Definition any_event : Event → Prop := λ _, True.

(** [extends m]: the program only adds to the trace. *)
Definition extends {A} (m : Prog A) : Prop := keeps any_world any_event m.

(** What the upload phase adds to the trace when nothing is listed and
    every call is accepted: one create call, and its log line, for each
    path that is a regular file. *)
Definition creations (folder_id : string) (d : gmap string Stat) (paths : list string)
    : list Event :=
  flat_map (λ p, if regular_on d p
                 then [Create (basename p) folder_id p;
                       Log INFO ("Uploaded new file: " +:+ basename p +:+ " to Google Drive.")]
                 else []) paths.

(** What the download phase adds to the trace for records that the mapping
    does not name: for each, a read of the configuration and a warning. *)
Definition warnings (files : list DriveFile) : list Event :=
  flat_map (λ r, [OpenConfig; Log INFO "Configuration file loaded successfully.";
                  Log WARNING ("File " +:+ name r +:+ " is not mapped for local sync.")])
    files.

(** [splits P Q m]: what [m] adds to the trace is a run of events in [P]
    followed by a run of events in [Q]. *)
Definition splits (P Q : Event → Prop) {A} (m : Prog A) : Prop :=
  ∀ w, ∃ l1 l2, trace (snd (m w)) = trace w ++ l1 ++ l2 ∧ Forall P l1 ∧ Forall Q l2.

(** ** An instance of the outside world

    The statements of this file hold for every [strptime], [timestamp],
    [strftime] and [Env].  The instance below is used to run the script on
    concrete inputs: timestamps in the fixed-width form the service emits
    ([2024-01-05T10:20:30.123Z]), a host whose local time is UTC, and POSIX
    times counted in microseconds. *)
Module Sample.

Definition digit (c : ascii) : option Z :=
  let n := Z.of_nat (nat_of_ascii c) in
  if (48 <=? n) && (n <=? 57) then Some (n - 48) else None.

Fixpoint number (acc : Z) (l : list ascii) : option Z :=
  match l with
  | [] => Some acc
  | c :: rest =>
      match digit c with
      | Some d => number (10 * acc + d) rest
      | None => None
      end
  end.

(** Days between 1970-01-01 and the given day of the proleptic Gregorian
    calendar. *)
Definition days_from_civil (y m d : Z) : Z :=
  let y := if m <=? 2 then y - 1 else y in
  let era := y / 400 in
  let yoe := y - era * 400 in
  let doy := (153 * (if 2 <? m then m - 3 else m + 9) + 2) / 5 + d - 1 in
  let doe := yoe * 365 + yoe / 4 - yoe / 100 + doy in
  era * 146097 + doe - 719468.

Definition civil_from_days (z : Z) : Z * Z * Z :=
  let z := z + 719468 in
  let era := z / 146097 in
  let doe := z - era * 146097 in
  let yoe := (doe - doe / 1460 + doe / 36524 - doe / 146096) / 365 in
  let doy := doe - (365 * yoe + yoe / 4 - yoe / 100) in
  let mp := (5 * doy + 2) / 153 in
  let d := doy - (153 * mp + 2) / 5 + 1 in
  let m := if mp <? 10 then mp + 3 else mp - 9 in
  (yoe + era * 400 + (if m <=? 2 then 1 else 0), m, d).

Definition days_in_month (y m : Z) : Z :=
  if m =? 2 then
    if ((y mod 4 =? 0) && negb (y mod 100 =? 0)) || (y mod 400 =? 0) then 29 else 28
  else if (m =? 4) || (m =? 6) || (m =? 9) || (m =? 11) then 30 else 31.

Definition microseconds (y mo d h mi s us : Z) : Z :=
  (((days_from_civil y mo d * 24 + h) * 60 + mi) * 60 + s) * 1000000 + us.

(** The fraction [%f]: one to six digits, read as microseconds. *)
Definition fraction (l : list ascii) : option Z :=
  match l with
  | [] => None
  | _ =>
      if (length l <=? 6)%nat then
        n ← number 0 l; Some (n * 10 ^ Z.of_nat (6 - length l))
      else None
  end.

Definition bad_time (s : string) : exn :=
  "time data '" +:+ s +:+ "' does not match format '%Y-%m-%dT%H:%M:%S.%fZ'".

Definition strptime (s : string) : Outcome Z :=
  let parsed :=
    match list_ascii_of_string s with
    | y1 :: y2 :: y3 :: y4 :: "-"%char :: m1 :: m2 :: "-"%char :: d1 :: d2 :: "T"%char
        :: h1 :: h2 :: ":"%char :: i1 :: i2 :: ":"%char :: s1 :: s2 :: "."%char :: rest =>
        match reverse rest with
        | "Z"%char :: digits =>
            y ← number 0 [y1; y2; y3; y4];
            mo ← number 0 [m1; m2];
            d ← number 0 [d1; d2];
            h ← number 0 [h1; h2];
            mi ← number 0 [i1; i2];
            sec ← number 0 [s1; s2];
            us ← fraction (reverse digits);
            if (1 <=? y) && (1 <=? mo) && (mo <=? 12) && (1 <=? d) && (d <=? days_in_month y mo)
               && (h <=? 23) && (mi <=? 59) && (sec <=? 59)
            then Some (microseconds y mo d h mi sec us)
            else None
        | _ => None
        end
    | _ => None
    end in
  match parsed with
  | Some t => Ok t
  | None => Raised (bad_time s)
  end.

(** [datetime.timestamp()] on a host whose local time is UTC: the count
    itself, in microseconds; the first day of year 1 cannot be converted
    (the conversion looks one day back). *)
Definition timestamp (t : Z) : Outcome Z :=
  if t <? microseconds 1 1 2 0 0 0 0 then Raised "year 0 is out of range" else Ok t.

(** The same on a host whose local time is one hour ahead of UTC. *)
Definition hour : Z := 3600 * 1000000.

Definition timestamp_east (t : Z) : Outcome Z :=
  if t <? microseconds 1 1 2 0 0 0 0 then Raised "year 0 is out of range" else Ok (t - hour).

(** POSIX times are counted in microseconds. *)
Definition utc (t : Z) : Z := t.

(** What a file that is no configuration reads as. *)
Definition no_json : ConfigFile := BadJson "Expecting value: line 1 column 1 (char 0)".

Definition digit_char (n : Z) : ascii := ascii_of_nat (Z.to_nat (48 + n mod 10)).

Definition pad2 (n : Z) : string :=
  String (digit_char (n / 10)) (String (digit_char n) "").

Definition pad4 (n : Z) : string := pad2 (n / 100) +:+ pad2 (n mod 100).

Definition pad6 (n : Z) : string := pad2 (n / 10000) +:+ pad4 (n mod 10000).

(** [%Y%m%d_%H%M%S] *)
Definition strftime (t : Z) : string :=
  let secs := t / 1000000 in
  let '(y, mo, d) := civil_from_days (secs / 86400) in
  let r := secs mod 86400 in
  pad4 y +:+ pad2 mo +:+ pad2 d +:+ "_" +:+ pad2 (r / 3600) +:+ pad2 (r mod 3600 / 60)
    +:+ pad2 (r mod 60).

(** [str(datetime)] *)
Definition datetime_str (t : Z) : string :=
  let secs := t / 1000000 in
  let '(y, mo, d) := civil_from_days (secs / 86400) in
  let r := secs mod 86400 in
  let us := t mod 1000000 in
  pad4 y +:+ "-" +:+ pad2 mo +:+ "-" +:+ pad2 d +:+ " " +:+ pad2 (r / 3600) +:+ ":"
    +:+ pad2 (r mod 3600 / 60) +:+ ":" +:+ pad2 (r mod 60)
    +:+ (if us =? 0 then "" else "." +:+ pad6 us).

Definition day : Z := 86400 * 1000000.

(** A service that holds [remote] and accepts every call, a disk on which
    every write succeeds, and a clock that starts at [start] and advances
    by one second with every event. *)
Definition tick (start : Z) (history : list Event) : Z :=
  start + 1000000 * Z.of_nat (length history).

Definition quiet (start : Z) (remote : string → list DriveFile) : Env := {|
  clock := tick start;
  listing := λ _ folder_id, Ok (remote folder_id);
  create_reply := λ _ _ _ _, None;
  update_reply := λ _ _ _, None;
  download_reply := λ history _ _, Closed (tick start history);
  zip_open_reply := λ history _, Ok (tick start history);
  zip_write_reply := λ history _ _, (tick start history, None);
  reads_as := λ _ _, no_json;
  idle_edits := λ _ local, local
|}.

(** The same, but every upload is refused. *)
Definition refusing (start : Z) (remote : string → list DriveFile) : Env := {|
  clock := tick start;
  listing := λ _ folder_id, Ok (remote folder_id);
  create_reply := λ _ _ _ _, Some "HttpError 403";
  update_reply := λ _ _ _, Some "HttpError 403";
  download_reply := λ history _ _, Closed (tick start history);
  zip_open_reply := λ history _, Ok (tick start history);
  zip_write_reply := λ history _ _, (tick start history, None);
  reads_as := λ _ _, no_json;
  idle_edits := λ _ local, local
|}.

Definition regular (mtime : Z) : Stat := {| st_kind := RegularFile; st_mtime := mtime |}.

Definition world (files : list (string * Stat)) (c : ConfigFile) : World :=
  {| disk := list_to_map files; config_file := c; trace := [] |}.

(** The scenario of the specification: [a.txt] is mapped to
    [/local/a.txt], last modified on day 5. *)
Definition mapping_a : Mapping := [("a.txt", "/local/a.txt")].

Definition world_a : World :=
  world [("/local/a.txt", regular (5 * day))] (Json (Some "folder") (Some mapping_a)).

(** Remote copies of [a.txt] of day 3, day 5 and day 7, and a remote file
    that no key of the mapping names. *)
Definition a_day3 : DriveFile :=
  {| fileId := "id-a"; name := "a.txt"; modifiedTime := "1970-01-04T00:00:00.000Z" |}.

Definition a_day5 : DriveFile :=
  {| fileId := "id-a"; name := "a.txt"; modifiedTime := "1970-01-06T00:00:00.000Z" |}.

Definition a_day7 : DriveFile :=
  {| fileId := "id-a"; name := "a.txt"; modifiedTime := "1970-01-08T00:00:00.000Z" |}.

Definition b_day3 : DriveFile :=
  {| fileId := "id-b"; name := "b.txt"; modifiedTime := "1970-01-04T00:00:00.000Z" |}.

(** A key mapped to the empty path. *)
Definition world_empty_path : World :=
  world [] (Json (Some "folder") (Some [("a.txt", "")])).

(** A file kept under the key [k], whose basename [b] is the key of another
    entry. *)
Definition mapping_kb : Mapping := [("k", "/x/b"); ("b", "/y/c")].

Definition world_kb : World :=
  world [("/x/b", regular (5 * day))] (Json (Some "folder") (Some mapping_kb)).

Definition b_remote : DriveFile :=
  {| fileId := "id-b"; name := "b"; modifiedTime := "1970-01-06T00:00:00.000Z" |}.

(** The same file, with no entry under its basename. *)
Definition mapping_k : Mapping := [("k", "/x/b")].

Definition world_k : World :=
  world [("/x/b", regular (5 * day))] (Json (Some "folder") (Some mapping_k)).

(** No configuration file. *)
Definition world_no_config : World :=
  world [] (NoConfig "[Errno 2] No such file or directory: './config.json'").

(** A service like [quiet], over a disk on which every download breaks
    after the local file was opened. *)
Definition breaking (start : Z) (remote : string → list DriveFile) : Env := {|
  clock := tick start;
  listing := λ _ folder_id, Ok (remote folder_id);
  create_reply := λ _ _ _ _, None;
  update_reply := λ _ _ _, None;
  download_reply := λ history _ _, Broken (tick start history) "Connection reset by peer";
  zip_open_reply := λ history _, Ok (tick start history);
  zip_write_reply := λ history _ _, (tick start history, None);
  reads_as := λ _ _, no_json;
  idle_edits := λ _ local, local
|}.

(** A listed record of the first day of year 1. *)
Definition a_year1 : DriveFile :=
  {| fileId := "id-a"; name := "a.txt"; modifiedTime := "0001-01-01T00:00:00.000Z" |}.

(** A listed record whose time is not in the format of the service. *)
Definition no_time : DriveFile :=
  {| fileId := "id-n"; name := "notes.zip"; modifiedTime := "yesterday" |}.

(** Two mapped paths, of which only the first exists. *)
Definition mapping_ab : Mapping := [("a.txt", "/local/a.txt"); ("b.txt", "/local/b.txt")].

Definition world_ab : World :=
  world [("/local/a.txt", regular (5 * day))] (Json (Some "folder") (Some mapping_ab)).

(** A mapping that names the configuration file itself, and a remote copy
    of it. *)
Definition mapping_config : Mapping := [("config.json", "./config.json")].

Definition world_config : World :=
  world [("./config.json", regular (5 * day))] (Json (Some "folder") (Some mapping_config)).

Definition config_day7 : DriveFile :=
  {| fileId := "id-c"; name := "config.json"; modifiedTime := "1970-01-08T00:00:00.000Z" |}.

End Sample.

Section Sync.

(** [datetime.strptime(s, '%Y-%m-%dT%H:%M:%S.%fZ')]: a naive datetime, as its
    count of microseconds since 1970-01-01T00:00:00, or the [ValueError].
    [datetime.timestamp()] takes a naive datetime, read in the local time
    zone of the host, to a POSIX float, or raises ([ValueError],
    [OverflowError]) when the host cannot convert it.
    [datetime.strftime('%Y%m%d_%H%M%S')] and [str] print one. *)
Variable strptime : string → Outcome Z.
Variable timestamp : Z → Outcome Z.
Variable strftime : Z → string.
Variable datetime_str : Z → string.
Variable env : Env.

(** What the times mean, which the script never asks.  A [modifiedTime] of
    the service is a UTC time: [utc t] is the POSIX time, in the unit of
    [st_mtime], of the datetime [t] read as UTC, that is the time at which
    the remote copy was modified.  [utcoffset] is what the local time of
    the host is ahead of UTC, in microseconds: [datetime.now()] is the UTC
    time plus [utcoffset]. *)
Variable utc : Z → Z.
Variable utcoffset : Z.

Definition SERVICE_ACCOUNT_FILE : string := "./service-account.json".
Definition BACKUP_FOLDER_ID : string := "1WYgGglbHxds7Ajy2Omdpk8WvyN1u69xY".
Definition BACKUP_INTERVAL_DAYS : Z := 10.

(** [timedelta(days=d)] in microseconds. *)
Definition timedelta_days (d : Z) : Z := d * 86400 * 1000000.

(** *** Calls to the outside *)

Definition datetime_now : Prog Z :=
  λ w, (Ok (clock env (trace w)), record Now w).

Definition files_list (folder_id : string) : Prog (list DriveFile) :=
  λ w, (listing env (trace w) folder_id, record (ListFiles folder_id) w).

Definition reply (r : option exn) : Outcome unit :=
  match r with
  | None => Ok tt
  | Some e => Raised e
  end.

Definition files_create (file_name folder_id file_path : string) : Prog unit :=
  λ w, (reply (create_reply env (trace w) file_name folder_id file_path),
        record (Create file_name folder_id file_path) w).

Definition files_update (file_id file_path : string) : Prog unit :=
  λ w, (reply (update_reply env (trace w) file_id file_path),
        record (Update file_id file_path) w).

Definition written (p : string) (r : Written) (c : ConfigFile) (w : World)
    : Outcome unit * World :=
  match r with
  | Closed mtime => (Ok tt, write_stat p mtime c w)
  | NotOpened e => (Raised e, w)
  | Broken mtime e => (Raised e, write_stat p mtime c w)
  end.

Definition files_download (file_id local_file_path : string) : Prog unit :=
  λ w, written local_file_path (download_reply env (trace w) file_id local_file_path)
         (reads_as env (trace w) local_file_path)
         (record (Download file_id local_file_path) w).

Definition zip_open (path : string) : Prog unit :=
  λ w, let w1 := record (ZipOpen path) w in
       match zip_open_reply env (trace w) path with
       | Ok mtime => (Ok tt, write_stat path mtime (reads_as env (trace w) path) w1)
       | Raised e => (Raised e, w1)
       end.

Definition zip_write (path : string) (members : list (string * string)) : Prog unit :=
  λ w, let '(mtime, r) := zip_write_reply env (trace w) path members in
       (reply r, write_stat path mtime (reads_as env (trace w) path)
                   (record (ZipWrite path members) w)).

Definition time_sleep (seconds : Z) : Prog unit :=
  λ w, let '(d, c) := idle_edits env (trace w) (disk w, config_file w) in
       (Ok tt, {| disk := d; config_file := c; trace := trace w ++ [Sleep seconds] |}).

(** *** [load_config] *)

Definition load_config : Prog Loaded :=
  try_except
    (λ w, let w1 := record OpenConfig w in
          match config_file w with
          | NoConfig e => (Raised e, w1)
          | BadJson e =>
              (Raised e, record (Log INFO "Configuration file loaded successfully.") w1)
          | Json f m =>
              (Ok (Object {| cfg_folder_id := f; cfg_file_mappings := m |}),
               record (Log INFO "Configuration file loaded successfully.") w1)
          | NotObject e =>
              (Ok (NotSubscriptable e),
               record (Log INFO "Configuration file loaded successfully.") w1)
          end)
    (λ e, logging ERROR ("Failed to load configuration file: " +:+ e) ;; raise e).

(** The first thing the script does with what [load_config] returned is to
    subscript it with a key, [config['folder_id']] or
    [config['file_mappings']]: a value that is not an object raises its
    [TypeError] there, and an object is looked up by [getitem]. *)
Definition subscriptable (loaded : Loaded) : Prog Config :=
  match loaded with
  | Object config => ret config
  | NotSubscriptable e => raise e
  end.

(** [config[key]] on the loaded object. *)
Definition getitem {A} (key : string) (field : option A) : Prog A :=
  match field with
  | Some a => ret a
  | None => raise ("'" +:+ key +:+ "'")
  end.

(** *** [list_files_in_drive] *)

Definition list_files_in_drive (folder_id : string) : Prog (list DriveFile) :=
  try_except
    (files <- files_list folder_id ;;
     logging INFO ("Listed files in Google Drive folder ID " +:+ folder_id +:+ ".") ;;
     ret files)
    (λ e, logging ERROR ("Failed to list files in Drive: " +:+ e) ;; raise e).

(** *** [upload_file] *)

(** [datetime.strptime(...).timestamp()] *)
Definition drive_timestamp (drive_file : DriveFile) : Prog Z :=
  t <- lift (strptime (modifiedTime drive_file)) ;;
  lift (timestamp t).

(** [next((f for f in drive_files if f['name'] == file_name), None)] *)
Definition first_named (file_name : string) (drive_files : list DriveFile) : option DriveFile :=
  find (λ f, String.eqb (name f) file_name) drive_files.

Definition upload_file (file_path : string) (drive_files : list DriveFile)
    (folder_id : string) : Prog unit :=
  let file_name := basename file_path in
  local_modified_time <- os_path_getmtime file_path ;;
  try_except
    (match first_named file_name drive_files with
     | Some drive_file =>
         drive_modified_time <- drive_timestamp drive_file ;;
         if local_modified_time <=? drive_modified_time then
           logging INFO ("No upload needed for " +:+ file_name +:+ ", Drive version is up-to-date.")
         else
           files_update (fileId drive_file) file_path ;;
           logging INFO ("Updated file: " +:+ file_name +:+ " in Google Drive.")
     | None =>
         files_create file_name folder_id file_path ;;
         logging INFO ("Uploaded new file: " +:+ file_name +:+ " to Google Drive.")
     end)
    (λ e, logging ERROR ("Failed to upload file " +:+ file_name +:+ ": " +:+ e) ;; raise e).

(** *** [download_file] *)

(** [file_mapping.get(key)] *)
Definition dict_get (file_mapping : Mapping) (key : string) : option string :=
  snd <$> find (λ kv, String.eqb (fst kv) key) file_mapping.

(** [file_mapping.values()] *)
Definition dict_values (file_mapping : Mapping) : list string := map snd file_mapping.

(** Python's [not s] on [file_mapping.get(...)]: [None] and [""] are falsy. *)
Definition falsy (o : option string) : bool :=
  match o with
  | None => true
  | Some p => String.eqb p ""
  end.

(** The decision of [download_file], once [file_mapping] is at hand. *)
Definition download_mapped (file_mapping : Mapping) (file_name : string)
    (drive_file : DriveFile) : Prog unit :=
  let local_file_path := dict_get file_mapping file_name in
  if falsy local_file_path then
    logging WARNING ("File " +:+ file_name +:+ " is not mapped for local sync.")
  else
    let local_file_path := default "" local_file_path in
    let transfer :=
      files_download (fileId drive_file) local_file_path ;;
      logging INFO ("Downloaded file: " +:+ file_name +:+ " from Google Drive.") in
    try_except
      (drive_modified_time <- drive_timestamp drive_file ;;
       present <- os_path_exists local_file_path ;;
       if present then
         local_modified_time <- os_path_getmtime local_file_path ;;
         if drive_modified_time <=? local_modified_time then
           logging INFO ("No download needed for " +:+ file_name +:+ ", local version is up-to-date.")
         else transfer
       else transfer)
      (λ e, logging ERROR ("Failed to download file " +:+ file_name +:+ ": " +:+ e) ;; raise e).

Definition download_file (file_name : string) (drive_file : DriveFile) : Prog unit :=
  loaded <- load_config ;;
  config <- subscriptable loaded ;;
  file_mapping <- getitem "file_mappings" (cfg_file_mappings config) ;;
  download_mapped file_mapping file_name drive_file.

(** *** [create_backup] *)

(** The loop that looks for the most recent backup: [recent_backup] is
    replaced when it is [None] or strictly older than [file]. *)
Fixpoint most_recent (recent_backup : option DriveFile) (files : list DriveFile)
    : Outcome (option DriveFile) :=
  match files with
  | [] => Ok recent_backup
  | file :: rest =>
      match strptime (modifiedTime file) with
      | Raised e => Raised e
      | Ok modified_time =>
          match recent_backup with
          | None => most_recent (Some file) rest
          | Some recent =>
              match strptime (modifiedTime recent) with
              | Raised e => Raised e
              | Ok recent_time =>
                  if recent_time <? modified_time then most_recent (Some file) rest
                  else most_recent recent_backup rest
              end
          end
      end
  end.

Fixpoint for_each {A} (l : list A) (body : A → Prog unit) : Prog unit :=
  match l with
  | [] => ret tt
  | x :: rest => body x ;; for_each rest body
  end.

(** The members of the archive: every mapped path that exists, under its
    basename, in the order of the mapping. *)
Fixpoint zip_members (files_to_backup : list string) : Prog (list (string * string)) :=
  match files_to_backup with
  | [] => ret []
  | file_path :: rest =>
      present <- os_path_exists file_path ;;
      members <- zip_members rest ;;
      ret (if present then (file_path, basename file_path) :: members else members)
  end.

Definition backup_path (now : Z) : string :=
  "/tmp" +:+ "/" +:+ ("backup_" +:+ strftime now +:+ ".zip").

(** The first half of the [try] block of [create_backup]: read the mapping
    and write the archive. *)
Definition build_archive (local_backup_path : string) : Prog unit :=
  loaded <- load_config ;;
  config <- subscriptable loaded ;;
  file_mappings <- getitem "file_mappings" (cfg_file_mappings config) ;;
  let files_to_backup := dict_values file_mappings in
  zip_open local_backup_path ;;
  members <- zip_members files_to_backup ;;
  zip_write local_backup_path members ;;
  logging INFO ("Backup created locally: " +:+ local_backup_path).

(** The [try] block of [create_backup]: build the archive, upload it,
    remove it. *)
Definition backup_archive (now : Z) (backup_files_in_drive : list DriveFile) : Prog unit :=
  let local_backup_path := backup_path now in
  try_except
    (build_archive local_backup_path ;;
     upload_file local_backup_path backup_files_in_drive BACKUP_FOLDER_ID ;;
     os_remove local_backup_path ;;
     logging INFO "Local backup file deleted after upload.")
    (λ e, logging ERROR ("Failed to create or upload backup: " +:+ e) ;; raise e).

Definition create_backup : Prog unit :=
  now <- datetime_now ;;
  backup_files_in_drive <- list_files_in_drive BACKUP_FOLDER_ID ;;
  recent_backup <- lift (most_recent None backup_files_in_drive) ;;
  match recent_backup with
  | Some recent =>
      recent_backup_time <- lift (strptime (modifiedTime recent)) ;;
      if now - recent_backup_time <? timedelta_days BACKUP_INTERVAL_DAYS then
        logging INFO ("Skipping backup: Last backup " +:+ datetime_str recent_backup_time
                      +:+ " is within the interval.")
      else backup_archive now backup_files_in_drive
  | None => backup_archive now backup_files_in_drive
  end.

(** *** [sync] *)

Definition upload_phase (config : Config) (drive_files : list DriveFile)
    (file_mappings : Mapping) : Prog unit :=
  for_each (dict_values file_mappings) (λ file_path,
    is_file <- os_path_isfile file_path ;;
    if is_file then
      folder_id <- getitem "folder_id" (cfg_folder_id config) ;;
      upload_file file_path drive_files folder_id
    else ret tt).

Definition download_phase (drive_files : list DriveFile) : Prog unit :=
  for_each drive_files (λ drive_file, download_file (name drive_file) drive_file).

Definition sync : Prog unit :=
  try_except
    (loaded <- load_config ;;
     config <- subscriptable loaded ;;
     folder_id <- getitem "folder_id" (cfg_folder_id config) ;;
     drive_files <- list_files_in_drive folder_id ;;
     file_mappings <- getitem "file_mappings" (cfg_file_mappings config) ;;
     upload_phase config drive_files file_mappings ;;
     download_phase drive_files ;;
     logging INFO "Sync operation completed.")
    (λ e, logging ERROR ("Failed during sync operation: " +:+ e) ;; raise e).

(** *** The main loop *)

(** One turn of [while True] is the [Syncing] state followed by the [Idle]
    state; [syncing] returns the new [last_backup_time]. *)
Definition syncing (last_backup_time : Z) : Prog Z :=
  logging INFO "Starting sync operation..." ;;
  sync ;;
  now <- datetime_now ;;
  if timedelta_days BACKUP_INTERVAL_DAYS <=? now - last_backup_time then
    logging INFO "Creating backup..." ;;
    create_backup ;;
    datetime_now
  else ret last_backup_time.

Definition idle : Prog unit :=
  logging INFO "Sync complete. Waiting 5 minutes before next sync." ;;
  time_sleep 300.

Definition iteration (last_backup_time : Z) : Prog Z :=
  last_backup_time <- syncing last_backup_time ;;
  idle ;;
  ret last_backup_time.

(** [n] turns of the loop: [Raised] is the death of the process. *)
Fixpoint loop (n : nat) (last_backup_time : Z) : Prog Z :=
  match n with
  | O => ret last_backup_time
  | S n => last_backup_time <- iteration last_backup_time ;; loop n last_backup_time
  end.

Definition main (n : nat) : Prog Z :=
  now <- datetime_now ;;
  loop n (now - timedelta_days BACKUP_INTERVAL_DAYS).

(** *** Statements about the script *)

(** The world once [load_config] has returned. *)
Definition loaded (w : World) : World :=
  record (Log INFO "Configuration file loaded successfully.") (record OpenConfig w).

(** The world once [list_files_in_drive] has returned. *)
Definition listed (folder_id : string) (w : World) : World :=
  record (Log INFO ("Listed files in Google Drive folder ID " +:+ folder_id +:+ "."))
    (record (ListFiles folder_id) w).

(** What [sync] does once it holds the configuration and the listing. *)
Definition sync_phases (config : Config) (drive_files : list DriveFile)
    (file_mappings : Mapping) : Prog unit :=
  try_except
    (upload_phase config drive_files file_mappings ;;
     download_phase drive_files ;;
     logging INFO "Sync operation completed.")
    (λ e, logging ERROR ("Failed during sync operation: " +:+ e) ;; raise e).

(** "The remote copy is strictly newer than the file at [p], or there is
    nothing at [p]." *)
Definition newer_or_absent (w : World) (p : string) (drive_time : Z) : Prop :=
  match disk w !! p with
  | None => True
  | Some st => st_mtime st < drive_time
  end.

(** The script can use the time of a record: its [modifiedTime] parses
    and the host converts it, to [ts]; or it cannot, and meets [e]. *)
Definition converts (r : DriveFile) (ts : Z) : Prop :=
  ∃ t, strptime (modifiedTime r) = Ok t ∧ timestamp t = Ok ts.

Definition unconvertible (r : DriveFile) (e : exn) : Prop :=
  strptime (modifiedTime r) = Raised e
  ∨ ∃ t, strptime (modifiedTime r) = Ok t ∧ timestamp t = Raised e.

(** The upload policy on a listed record, as the specification has it: one
    update call whenever the local copy was modified later than the remote
    one. *)
Definition updates_when_local_is_later : Prop :=
  ∀ w p files f st r t,
    disk w !! p = Some st → st_kind st = RegularFile →
    first_named (basename p) files = Some r →
    strptime (modifiedTime r) = Ok t → utc t < st_mtime st →
    calls is_update (emitted (upload_file p files f) w) = 1%nat.

(** The download policy, read for every key of the mapping: one download
    call exactly when the remote copy is newer or the local file absent. *)
Definition downloads_under_every_key : Prop :=
  ∀ w f m r p t,
    config_file w = Json f (Some m) → dict_get m (name r) = Some p →
    strptime (modifiedTime r) = Ok t →
    calls is_download (emitted (download_file (name r) r) w) = 1%nat
    ↔ newer_or_absent w p (utc t).

(** One pass, read as loading the configuration once and leaving it alone. *)
Definition loads_config_once : Prop :=
  ∀ w, calls is_open_config (emitted sync w) = 1%nat
       ∧ config_file (snd (sync w)) = config_file w.

(** "A file kept under a key that is not its basename is warning-skipped
    by the download phase once uploaded", read for every such entry. *)
Definition skipped_once_uploaded : Prop :=
  ∀ w f m k p r,
    config_file w = Json f (Some m) → dict_get m k = Some p → k ≠ basename p →
    name r = basename p →
    calls is_download (emitted (download_file (name r) r) w) = 0%nat
    ∧ calls is_warning (emitted (download_file (name r) r) w) = 1%nat.

(** The test of [create_backup] on a listed backup: the reading [now] of
    the local clock, less the time of the record as it is written, is below
    the interval. *)
Definition within_interval (now : Z) (r : DriveFile) : Prop :=
  ∃ t, strptime (modifiedTime r) = Ok t ∧ now - t < timedelta_days BACKUP_INTERVAL_DAYS.

(** A listed backup that is less than the interval old: its age is the UTC
    time at the reading [now] of the local clock, less its own time. *)
Definition recent_backup (now : Z) (r : DriveFile) : Prop :=
  ∃ t, strptime (modifiedTime r) = Ok t
       ∧ (now - utcoffset) - t < timedelta_days BACKUP_INTERVAL_DAYS.

(** [create_backup] returns without having written or uploaded an archive. *)
Definition skips_backup (w : World) : Prop :=
  result create_backup w = Ok tt
  ∧ calls is_archive (emitted create_backup w) = 0%nat
  ∧ calls is_upload (emitted create_backup w) = 0%nat.

Definition parses (r : DriveFile) : Prop := ∃ t, strptime (modifiedTime r) = Ok t.

(** The backup decision, as the specification has it: skipped exactly when
    a listed backup is less than the interval old. *)
Definition skipped_iff_recent : Prop :=
  ∀ w files,
    listing env (trace (record Now w)) BACKUP_FOLDER_ID = Ok files →
    skips_backup w ↔ Exists (recent_backup (clock env (trace w))) files.

(** The first turn of the loop, read as always calling [create_backup]. *)
Definition first_cycle_always_backs_up : Prop :=
  ∀ w, In (Log INFO "Creating backup...") (emitted (main 1) w).

(** One turn of the loop, read as always reaching the sleep. *)
Definition always_idles : Prop :=
  ∀ last_backup_time w,
    calls is_sleep (emitted (iteration last_backup_time) w) = 1%nat.

(** ** Facts *)

Arguments String.append : simpl never.
Arguments basename : simpl never.
Arguments backup_path : simpl never.

(** *** The monad *)

Lemma bind_ok {A B} (m : Prog A) (k : A → Prog B) w a w' :
  m w = (Ok a, w') → bind m k w = k a w'.
Proof. intros H. unfold bind. now rewrite H. Qed.

Lemma bind_raised {A B} (m : Prog A) (k : A → Prog B) w e w' :
  m w = (Raised e, w') → bind m k w = (Raised e, w').
Proof. intros H. unfold bind. now rewrite H. Qed.

Lemma try_ok {A} (m : Prog A) h w a w' :
  m w = (Ok a, w') → try_except m h w = (Ok a, w').
Proof. intros H. unfold try_except. now rewrite H. Qed.

Lemma try_raised {A} (m : Prog A) h w e w' :
  m w = (Raised e, w') → try_except m h w = h e w'.
Proof. intros H. unfold try_except. now rewrite H. Qed.

(** *** Counting *)

Lemma calls_app p l1 l2 : calls p (l1 ++ l2) = (calls p l1 + calls p l2)%nat.
Proof. induction l1 as [|e l1 IH]; simpl; [done|]. destruct (p e); simpl; lia. Qed.

Lemma calls_none p l : Forall (λ e, p e = false) l → calls p l = O.
Proof. induction 1 as [|e l He _ IH]; simpl; [done|]. now rewrite He. Qed.

Lemma calls_none_inv p l : calls p l = O → Forall (λ e, p e = false) l.
Proof.
  induction l as [|e l IH]; simpl; [constructor|].
  destruct (p e) eqn:He; [discriminate|]. intros H. constructor; auto.
Qed.

(** *** Invariants *)

Section Keeps.

Context (I : World → Prop) (P : Event → Prop).

Lemma keeps_ret {A} (a : A) : keeps I P (ret a).
Proof. intros w Hw. split; [done|]. exists []. now rewrite app_nil_r. Qed.

Lemma keeps_raise {A} e : keeps I P (@raise A e).
Proof. intros w Hw. split; [done|]. exists []. now rewrite app_nil_r. Qed.

Lemma keeps_lift {A} (r : Outcome A) : keeps I P (lift r).
Proof. intros w Hw. split; [done|]. exists []. now rewrite app_nil_r. Qed.

Lemma keeps_bind {A B} (m : Prog A) (k : A → Prog B) :
  keeps I P m → (∀ a, keeps I P (k a)) → keeps I P (bind m k).
Proof.
  intros Hm Hk w Hw. unfold bind.
  destruct (Hm w Hw) as (Hi & l & Hl & HP).
  destruct (m w) as [[a|e] w1]; simpl in *.
  - destruct (Hk a w1 Hi) as (Hi2 & l2 & Hl2 & HP2). split; [done|].
    exists (l ++ l2). rewrite Hl2, Hl, app_assoc. split; [done|]. now apply Forall_app.
  - split; [done|]. now exists l.
Qed.

Lemma keeps_try_except {A} (m : Prog A) (h : exn → Prog A) :
  keeps I P m → (∀ e, keeps I P (h e)) → keeps I P (try_except m h).
Proof.
  intros Hm Hh w Hw. unfold try_except.
  destruct (Hm w Hw) as (Hi & l & Hl & HP).
  destruct (m w) as [[a|e] w1]; simpl in *.
  - split; [done|]. now exists l.
  - destruct (Hh e w1 Hi) as (Hi2 & l2 & Hl2 & HP2). split; [done|].
    exists (l ++ l2). rewrite Hl2, Hl, app_assoc. split; [done|]. now apply Forall_app.
Qed.

Lemma keeps_for_each {A} (l : list A) (body : A → Prog unit) :
  (∀ x, In x l → keeps I P (body x)) → keeps I P (for_each l body).
Proof.
  induction l as [|x l IH]; intros Hb; simpl.
  - apply keeps_ret.
  - apply keeps_bind; [apply Hb; now left|]. intros _. apply IH.
    intros y Hy. apply Hb. now right.
Qed.

Lemma keeps_if {A} (b : bool) (m1 m2 : Prog A) :
  keeps I P m1 → keeps I P m2 → keeps I P (if b then m1 else m2).
Proof. now destruct b. Qed.

(** A program that only reads. *)
Lemma keeps_read {A} (f : World → Outcome A) : keeps I P (λ w, (f w, w)).
Proof. intros w Hw. split; [done|]. exists []. now rewrite app_nil_r. Qed.

Hypothesis I_record : ∀ e w, I w → I (record e w).

Lemma keeps_emit e : P e → keeps I P (emit e).
Proof.
  intros He w Hw. split; [now apply I_record|]. exists [e]. split; [done|]. now constructor.
Qed.

Lemma keeps_logging lvl msg : P (Log lvl msg) → keeps I P (logging lvl msg).
Proof. apply keeps_emit. Qed.

Lemma keeps_os_path_exists p : keeps I P (os_path_exists p).
Proof. apply (keeps_read (λ w, Ok (bool_decide (is_Some (disk w !! p))))). Qed.

Lemma keeps_os_path_isfile p : keeps I P (os_path_isfile p).
Proof. intros w Hw. split; [done|]. exists []. now rewrite app_nil_r. Qed.

Lemma keeps_os_path_getmtime p : keeps I P (os_path_getmtime p).
Proof.
  intros w Hw. unfold os_path_getmtime.
  destruct (disk w !! p); (split; [done|]); exists []; now rewrite app_nil_r.
Qed.

Lemma keeps_getitem {A} key (field : option A) : keeps I P (getitem key field).
Proof. destruct field; [apply keeps_ret|apply keeps_raise]. Qed.

Lemma keeps_datetime_now : P Now → keeps I P datetime_now.
Proof.
  intros He w Hw. split; [now apply I_record|]. exists [Now]. split; [done|]. now constructor.
Qed.

Lemma keeps_files_list f : P (ListFiles f) → keeps I P (files_list f).
Proof.
  intros He w Hw. split; [now apply I_record|]. exists [ListFiles f].
  split; [done|]. now constructor.
Qed.

Lemma keeps_files_create n f p : P (Create n f p) → keeps I P (files_create n f p).
Proof.
  intros He w Hw. split; [now apply I_record|]. exists [Create n f p].
  split; [done|]. now constructor.
Qed.

Lemma keeps_files_update i p : P (Update i p) → keeps I P (files_update i p).
Proof.
  intros He w Hw. split; [now apply I_record|]. exists [Update i p].
  split; [done|]. now constructor.
Qed.

Lemma keeps_written p (r : World → Written) (c : World → ConfigFile) e :
  P e → (∀ mtime c w, I w → I (write_stat p mtime c w)) →
  keeps I P (λ w, written p (r w) (c w) (record e w)).
Proof.
  intros He Hwr w Hw. simpl.
  destruct (r w); simpl; (split; [auto|]); exists [e]; (split; [done|]); now constructor.
Qed.

Lemma keeps_files_download i p :
  P (Download i p) → (∀ mtime c w, I w → I (write_stat p mtime c w)) →
  keeps I P (files_download i p).
Proof.
  intros. now apply (keeps_written p (λ w, download_reply env (trace w) i p)
                       (λ w, reads_as env (trace w) p)).
Qed.

Lemma keeps_zip_open p :
  P (ZipOpen p) → (∀ mtime c w, I w → I (write_stat p mtime c w)) → keeps I P (zip_open p).
Proof.
  intros He Hwr w Hw. unfold zip_open.
  destruct (zip_open_reply env (trace w) p); simpl; (split; [auto|]);
    exists [ZipOpen p]; (split; [done|]); now constructor.
Qed.

Lemma keeps_zip_write p ms :
  P (ZipWrite p ms) → (∀ mtime c w, I w → I (write_stat p mtime c w)) → keeps I P (zip_write p ms).
Proof.
  intros He Hwr w Hw. unfold zip_write.
  destruct (zip_write_reply env (trace w) p ms) as [mtime r]; simpl. split; [auto|].
  exists [ZipWrite p ms]. split; [done|]. now constructor.
Qed.

Lemma keeps_os_remove p :
  P (Remove p) → (∀ w, I w → I (unlink p w)) → keeps I P (os_remove p).
Proof.
  intros He Hrm w Hw. unfold os_remove.
  destruct (disk w !! p) as [[[] mt]|]; simpl; (split; [auto|]);
    exists [Remove p]; (split; [done|]); now constructor.
Qed.

Lemma keeps_load_config :
  P OpenConfig → (∀ lvl msg, P (Log lvl msg)) → keeps I P load_config.
Proof.
  intros Ho Hl. apply keeps_try_except.
  - intros w Hw.
    destruct (config_file w); simpl; (split; [auto|]);
      [ exists [OpenConfig]
      | exists [OpenConfig; Log INFO "Configuration file loaded successfully."]
      | exists [OpenConfig; Log INFO "Configuration file loaded successfully."]
      | exists [OpenConfig; Log INFO "Configuration file loaded successfully."] ];
      rewrite <- ?app_assoc; (split; [done|]); repeat constructor; auto.
  - intros e. apply keeps_bind; [now apply keeps_logging|]. intros _. apply keeps_raise.
Qed.

Lemma keeps_list_files_in_drive f :
  P (ListFiles f) → (∀ lvl msg, P (Log lvl msg)) → keeps I P (list_files_in_drive f).
Proof.
  intros Hf Hl. apply keeps_try_except.
  - apply keeps_bind; [now apply keeps_files_list|]. intros files.
    apply keeps_bind; [now apply keeps_logging|]. intros _. apply keeps_ret.
  - intros e. apply keeps_bind; [now apply keeps_logging|]. intros _. apply keeps_raise.
Qed.

Lemma keeps_subscriptable loaded : keeps I P (subscriptable loaded).
Proof. destruct loaded; [apply keeps_ret|apply keeps_raise]. Qed.

Lemma keeps_drive_timestamp r : keeps I P (drive_timestamp r).
Proof. apply keeps_bind; [apply keeps_lift|]. intros t. apply keeps_lift. Qed.

Lemma keeps_upload_file p files f :
  (∀ lvl msg, P (Log lvl msg)) → P (Create (basename p) f p) → (∀ i, P (Update i p)) →
  keeps I P (upload_file p files f).
Proof.
  intros Hl Hc Hu. unfold upload_file.
  apply keeps_bind; [apply keeps_os_path_getmtime|]. intros local_modified_time.
  apply keeps_try_except.
  - destruct (first_named (basename p) files) as [r|].
    + apply keeps_bind; [apply keeps_drive_timestamp|]. intros t.
      apply keeps_if; [now apply keeps_logging|].
      apply keeps_bind; [now apply keeps_files_update|]. intros _. now apply keeps_logging.
    + apply keeps_bind; [now apply keeps_files_create|]. intros _. now apply keeps_logging.
  - intros e. apply keeps_bind; [now apply keeps_logging|]. intros _. apply keeps_raise.
Qed.

(** [download_mapped] keeps what its one download call keeps. *)
Lemma keeps_download_mapped_by m n r :
  (∀ lvl msg, P (Log lvl msg)) →
  keeps I P (files_download (fileId r) (default "" (dict_get m n))) →
  keeps I P (download_mapped m n r).
Proof.
  intros Hl Hd. unfold download_mapped.
  apply keeps_if; [now apply keeps_logging|].
  apply keeps_try_except.
  - apply keeps_bind; [apply keeps_drive_timestamp|]. intros t.
    apply keeps_bind; [apply keeps_os_path_exists|]. intros present.
    assert (Htr : keeps I P
              (files_download (fileId r) (default "" (dict_get m n)) ;;
               logging INFO ("Downloaded file: " +:+ n +:+ " from Google Drive."))).
    { apply keeps_bind; [done|]. intros _. now apply keeps_logging. }
    apply keeps_if; [|done].
    apply keeps_bind; [apply keeps_os_path_getmtime|]. intros local_modified_time.
    apply keeps_if; [now apply keeps_logging|done].
  - intros e. apply keeps_bind; [now apply keeps_logging|]. intros _. apply keeps_raise.
Qed.

Lemma keeps_download_mapped m n r :
  (∀ lvl msg, P (Log lvl msg)) →
  P (Download (fileId r) (default "" (dict_get m n))) →
  (∀ mtime c w, I w → I (write_stat (default "" (dict_get m n)) mtime c w)) →
  keeps I P (download_mapped m n r).
Proof.
  intros Hl Hd Hw. apply keeps_download_mapped_by; [done|].
  now apply keeps_files_download.
Qed.

End Keeps.


(** *** The events of a run *)

Lemma emitted_eq {A} (m : Prog A) w l : trace (snd (m w)) = trace w ++ l → emitted m w = l.
Proof. unfold emitted. intros ->. apply drop_app_length. Qed.

Lemma emitted_keeps I P {A} (m : Prog A) w :
  keeps I P m → I w → trace (snd (m w)) = trace w ++ emitted m w ∧ Forall P (emitted m w).
Proof.
  intros Hm Hw. destruct (Hm w Hw) as (_ & l & Hl & HP).
  now rewrite (emitted_eq m w l Hl).
Qed.

Lemma emitted_bind {A B} (m : Prog A) (k : A → Prog B) w :
  extends m → (∀ a, extends (k a)) →
  emitted (bind m k) w =
    emitted m w ++ match m w with
                   | (Ok a, w') => emitted (k a) w'
                   | (Raised _, _) => []
                   end.
Proof.
  intros Hm Hk. apply emitted_eq.
  destruct (emitted_keeps _ _ m w Hm Logic.I) as [Hl _]. unfold bind.
  destruct (m w) as [[a|e] w1]; simpl in *.
  - destruct (emitted_keeps _ _ (k a) w1 (Hk a) Logic.I) as [Hl2 _].
    now rewrite Hl2, Hl, app_assoc.
  - now rewrite app_nil_r.
Qed.

(** *** Runs of [upload_file] *)

Lemma first_named_None n files :
  first_named n files = None ↔ ∀ r, In r files → name r ≠ n.
Proof.
  unfold first_named. split.
  - intros H r Hr Hn. apply (find_none _ _ H) in Hr. simpl in Hr.
    apply String.eqb_neq in Hr. contradiction.
  - intros H. induction files as [|r files IH]; simpl; [done|].
    destruct (String.eqb_spec (name r) n) as [Hn|Hn].
    + exfalso. apply (H r); [now left|done].
    + apply IH. intros r' Hr'. apply H. now right.
Qed.

Lemma first_named_Some n files r :
  first_named n files = Some r → In r files ∧ name r = n.
Proof.
  unfold first_named. intros H. apply find_some in H as [Hin Hn].
  split; [done|]. now apply String.eqb_eq.
Qed.

Ltac run_upload :=
  unfold upload_file, drive_timestamp;
  unfold os_path_getmtime, files_create, files_update, logging;
  unfold emit, lift, ret, raise, try_except, bind.

Lemma upload_file_creates w p files f st :
  disk w !! p = Some st → first_named (basename p) files = None →
  upload_file p files f w =
    let w1 := record (Create (basename p) f p) w in
    match create_reply env (trace w) (basename p) f p with
    | None =>
        (Ok tt, record (Log INFO ("Uploaded new file: " +:+ basename p
                                  +:+ " to Google Drive.")) w1)
    | Some e =>
        (Raised e, record (Log ERROR ("Failed to upload file " +:+ basename p
                                      +:+ ": " +:+ e)) w1)
    end.
Proof.
  intros Hd Hn. run_upload. rewrite Hd, Hn.
  destruct (create_reply env (trace w) (basename p) f p); reflexivity.
Qed.

Lemma upload_file_updates w p files f st r t ts :
  disk w !! p = Some st → first_named (basename p) files = Some r →
  strptime (modifiedTime r) = Ok t → timestamp t = Ok ts → ts < st_mtime st →
  upload_file p files f w =
    let w1 := record (Update (fileId r) p) w in
    match update_reply env (trace w) (fileId r) p with
    | None =>
        (Ok tt, record (Log INFO ("Updated file: " +:+ basename p
                                  +:+ " in Google Drive.")) w1)
    | Some e =>
        (Raised e, record (Log ERROR ("Failed to upload file " +:+ basename p
                                      +:+ ": " +:+ e)) w1)
    end.
Proof.
  intros Hd Hn Ht Hts Hlt. run_upload. rewrite Hd, Hn, Ht, Hts.
  destruct (Z.leb_spec (st_mtime st) ts) as [Hle|_]; [lia|].
  destruct (update_reply env (trace w) (fileId r) p); reflexivity.
Qed.

Lemma upload_file_up_to_date w p files f st r t ts :
  disk w !! p = Some st → first_named (basename p) files = Some r →
  strptime (modifiedTime r) = Ok t → timestamp t = Ok ts → st_mtime st ≤ ts →
  upload_file p files f w =
    (Ok tt, record (Log INFO ("No upload needed for " +:+ basename p
                              +:+ ", Drive version is up-to-date.")) w).
Proof.
  intros Hd Hn Ht Hts Hle. run_upload. rewrite Hd, Hn, Ht, Hts.
  destruct (Z.leb_spec (st_mtime st) ts) as [_|Hlt]; [done|lia].
Qed.

Lemma upload_file_bad_time w p files f st r e :
  disk w !! p = Some st → first_named (basename p) files = Some r →
  strptime (modifiedTime r) = Raised e →
  upload_file p files f w =
    (Raised e, record (Log ERROR ("Failed to upload file " +:+ basename p +:+ ": " +:+ e)) w).
Proof. intros Hd Hn Ht. run_upload. now rewrite Hd, Hn, Ht. Qed.

Lemma upload_file_unconvertible w p files f st r e :
  disk w !! p = Some st → first_named (basename p) files = Some r →
  unconvertible r e →
  upload_file p files f w =
    (Raised e, record (Log ERROR ("Failed to upload file " +:+ basename p +:+ ": " +:+ e)) w).
Proof.
  intros Hd Hn [Ht|(t & Ht & Hts)]; run_upload; rewrite Hd, Hn, Ht; [done|].
  now rewrite Hts.
Qed.

(** The time of a record converts, or it does not. *)
Lemma converts_or_not r : (∃ ts, converts r ts) ∨ (∃ e, unconvertible r e).
Proof.
  unfold converts, unconvertible.
  destruct (strptime (modifiedTime r)) as [t|e] eqn:Ht; [|right; eauto].
  destruct (timestamp t) as [ts|e] eqn:Hts; [left; eauto|right; eauto].
Qed.

(** *** Runs of [download_file] *)

Lemma load_config_json w f m :
  config_file w = Json f m →
  load_config w = (Ok (Object {| cfg_folder_id := f; cfg_file_mappings := m |}), loaded w).
Proof. intros H. unfold load_config, try_except. now rewrite H. Qed.

Lemma dict_get_None m key : dict_get m key = None ↔ ¬ In key (map fst m).
Proof.
  unfold dict_get. induction m as [|[k v] m IH]; simpl.
  - split; [intros _ []|done].
  - destruct (String.eqb_spec k key) as [->|Hne]; simpl.
    + split; [discriminate|]. intros H. exfalso. apply H. now left.
    + rewrite IH. split.
      * intros H [Hk|Hin]; [now apply Hne|now apply H].
      * intros H Hin. apply H. now right.
Qed.

Lemma dict_get_Some m key p : dict_get m key = Some p → In (key, p) m.
Proof.
  unfold dict_get. induction m as [|[k v] m IH]; simpl; [discriminate|].
  destruct (String.eqb_spec k key) as [->|Hne]; simpl.
  - intros [= ->]. now left.
  - intros H. right. now apply IH.
Qed.

Ltac run_download :=
  unfold download_mapped, drive_timestamp;
  unfold os_path_getmtime, os_path_exists, files_download, getitem, logging;
  unfold emit, lift, ret, raise, try_except, bind.

Lemma download_mapped_unmapped w m n r :
  falsy (dict_get m n) = true →
  download_mapped m n r w =
    (Ok tt, record (Log WARNING ("File " +:+ n +:+ " is not mapped for local sync.")) w).
Proof. intros Hf. unfold download_mapped. now rewrite Hf. Qed.

Lemma download_mapped_up_to_date w m n r p t ts st :
  dict_get m n = Some p → p ≠ "" →
  strptime (modifiedTime r) = Ok t → timestamp t = Ok ts →
  disk w !! p = Some st → ts ≤ st_mtime st →
  download_mapped m n r w =
    (Ok tt, record (Log INFO ("No download needed for " +:+ n
                              +:+ ", local version is up-to-date.")) w).
Proof.
  intros Hg Hp Ht Hts Hd Hle.
  unfold download_mapped. rewrite Hg. simpl. apply String.eqb_neq in Hp. rewrite Hp.
  run_download. simpl. rewrite Ht, Hts.
  rewrite bool_decide_eq_true_2 by eauto. rewrite Hd.
  destruct (Z.leb_spec ts (st_mtime st)); [done|lia].
Qed.

Lemma download_mapped_transfers w m n r p t ts :
  dict_get m n = Some p → p ≠ "" →
  strptime (modifiedTime r) = Ok t → timestamp t = Ok ts → newer_or_absent w p ts →
  download_mapped m n r w =
    let w1 := record (Download (fileId r) p) w in
    let c := reads_as env (trace w) p in
    match download_reply env (trace w) (fileId r) p with
    | Closed mtime =>
        (Ok tt, record (Log INFO ("Downloaded file: " +:+ n +:+ " from Google Drive."))
                  (write_stat p mtime c w1))
    | NotOpened e =>
        (Raised e, record (Log ERROR ("Failed to download file " +:+ n +:+ ": " +:+ e)) w1)
    | Broken mtime e =>
        (Raised e, record (Log ERROR ("Failed to download file " +:+ n +:+ ": " +:+ e))
                     (write_stat p mtime c w1))
    end.
Proof.
  intros Hg Hp Ht Hts Hd.
  unfold download_mapped. rewrite Hg. simpl. apply String.eqb_neq in Hp. rewrite Hp.
  run_download. simpl. rewrite Ht, Hts. unfold newer_or_absent in Hd.
  destruct (disk w !! p) as [st|] eqn:Hl.
  - rewrite bool_decide_eq_true_2 by eauto. cbv beta. rewrite Hl.
    destruct (Z.leb_spec ts (st_mtime st)); [lia|].
    destruct (download_reply _ _ _ _); reflexivity.
  - rewrite bool_decide_eq_false_2 by (intros [? ?]; discriminate).
    destruct (download_reply _ _ _ _); reflexivity.
Qed.

Lemma download_mapped_bad_time w m n r p e :
  dict_get m n = Some p → p ≠ "" → unconvertible r e →
  download_mapped m n r w =
    (Raised e, record (Log ERROR ("Failed to download file " +:+ n +:+ ": " +:+ e)) w).
Proof.
  intros Hg Hp Hbad.
  unfold download_mapped. rewrite Hg. simpl. apply String.eqb_neq in Hp. rewrite Hp.
  run_download. simpl. destruct Hbad as [Ht|(t & Ht & Hts)]; rewrite Ht; [done|].
  now rewrite Hts.
Qed.

Lemma download_file_json w f m n r :
  config_file w = Json f (Some m) → download_file n r w = download_mapped m n r (loaded w).
Proof.
  intros Hc. unfold download_file.
  now rewrite (bind_ok _ _ _ _ _ (load_config_json w f (Some m) Hc)).
Qed.

Lemma download_file_bad_time w f m n r p e :
  config_file w = Json f (Some m) → dict_get m n = Some p → p ≠ "" → unconvertible r e →
  download_file n r w =
    (Raised e, record (Log ERROR ("Failed to download file " +:+ n +:+ ": " +:+ e))
                 (loaded w)).
Proof.
  intros Hc Hg Hp Hbad. rewrite (download_file_json w f m n r Hc).
  now apply download_mapped_bad_time with (p := p).
Qed.

Lemma download_file_unmapped w f m n r :
  config_file w = Json f (Some m) → falsy (dict_get m n) = true →
  download_file n r w =
    (Ok tt, record (Log WARNING ("File " +:+ n +:+ " is not mapped for local sync."))
              (loaded w)).
Proof.
  intros Hc Hf. rewrite (download_file_json w f m n r Hc).
  now apply download_mapped_unmapped.
Qed.

Lemma download_file_up_to_date w f m n r p t ts st :
  config_file w = Json f (Some m) → dict_get m n = Some p → p ≠ "" →
  strptime (modifiedTime r) = Ok t → timestamp t = Ok ts →
  disk w !! p = Some st → ts ≤ st_mtime st →
  download_file n r w =
    (Ok tt, record (Log INFO ("No download needed for " +:+ n
                              +:+ ", local version is up-to-date.")) (loaded w)).
Proof.
  intros Hc Hg Hp Ht Hts Hd Hle. rewrite (download_file_json w f m n r Hc).
  now apply (download_mapped_up_to_date (loaded w) m n r p t ts st).
Qed.

Lemma download_file_transfers w f m n r p t ts :
  config_file w = Json f (Some m) → dict_get m n = Some p → p ≠ "" →
  strptime (modifiedTime r) = Ok t → timestamp t = Ok ts → newer_or_absent w p ts →
  download_file n r w =
    let w1 := record (Download (fileId r) p) (loaded w) in
    let c := reads_as env (trace (loaded w)) p in
    match download_reply env (trace (loaded w)) (fileId r) p with
    | Closed mtime =>
        (Ok tt, record (Log INFO ("Downloaded file: " +:+ n +:+ " from Google Drive."))
                  (write_stat p mtime c w1))
    | NotOpened e =>
        (Raised e, record (Log ERROR ("Failed to download file " +:+ n +:+ ": " +:+ e)) w1)
    | Broken mtime e =>
        (Raised e, record (Log ERROR ("Failed to download file " +:+ n +:+ ": " +:+ e))
                     (write_stat p mtime c w1))
    end.
Proof.
  intros Hc Hg Hp Ht Hts Hd. rewrite (download_file_json w f m n r Hc).
  now apply (download_mapped_transfers (loaded w) m n r p t ts).
Qed.

(** The events of a run whose final world is known. *)
Ltac emitted_run H :=
  unfold emitted, result; rewrite H;
  repeat match goal with
         | |- context [match ?x with _ => _ end] => destruct x
         end;
  simpl; rewrite <- ?app_assoc; simpl; rewrite ?drop_app_length.

(** C1, amended.  For a mapped path that is a regular file, [upload_file]
    issues one create call, named after the basename of the path, when no
    listed record has that name.  When a listed record has it, take the
    first: if its [modifiedTime] parses and the host converts it to the
    time of the remote copy, [upload_file] issues one update call on the
    identifier of that record when the local copy was modified strictly
    later, and no upload call otherwise; if its [modifiedTime] does not
    parse or cannot be converted, [upload_file] raises that error without
    any upload call.  It never issues a download call, and neither does the
    whole upload phase of a pass. *)
Theorem upload_file_policy (w : World) (file_path folder_id : string)
    (drive_files : list DriveFile) (st : Stat) :
  disk w !! file_path = Some st → st_kind st = RegularFile →
  let new := emitted (upload_file file_path drive_files folder_id) w in
  ((∀ r, In r drive_files → name r ≠ basename file_path) →
     calls is_create new = 1%nat ∧ calls is_update new = 0%nat ∧
     In (Create (basename file_path) folder_id file_path) new) ∧
  (∀ r t, first_named (basename file_path) drive_files = Some r →
     strptime (modifiedTime r) = Ok t → timestamp t = Ok (utc t) →
     (utc t < st_mtime st →
        calls is_update new = 1%nat ∧ calls is_create new = 0%nat ∧
        In (Update (fileId r) file_path) new) ∧
     (st_mtime st ≤ utc t → calls is_upload new = 0%nat)) ∧
  (∀ r e, first_named (basename file_path) drive_files = Some r → unconvertible r e →
     calls is_upload new = 0%nat
     ∧ result (upload_file file_path drive_files folder_id) w = Raised e) ∧
  calls is_download new = 0%nat ∧
  (∀ config file_mappings w',
     calls is_download (emitted (upload_phase config drive_files file_mappings) w') = 0%nat).
Proof.
  intros Hd Hk new. subst new. split; [|split; [|split; [|split]]].
  - intros Hnone. apply first_named_None in Hnone.
    emitted_run (upload_file_creates w file_path drive_files folder_id st Hd Hnone);
      simpl; auto.
  - intros r t Hn Ht Hts. split.
    + intros Hlt.
      emitted_run (upload_file_updates w file_path drive_files folder_id st r t (utc t)
                     Hd Hn Ht Hts Hlt); simpl; auto.
    + intros Hle.
      emitted_run (upload_file_up_to_date w file_path drive_files folder_id st r t (utc t)
                     Hd Hn Ht Hts Hle).
      reflexivity.
  - intros r e Hn Hbad.
    pose proof (upload_file_unconvertible w file_path drive_files folder_id st r e
                  Hd Hn Hbad) as Hrun.
    split; [|unfold result; now rewrite Hrun].
    emitted_run Hrun. reflexivity.
  - apply calls_none.
    refine (proj2 (emitted_keeps any_world (λ e, is_download e = false) _ w _ Logic.I)).
    now apply keeps_upload_file.
  - intros config file_mappings w'. apply calls_none.
    refine (proj2 (emitted_keeps any_world (λ e, is_download e = false) _ w' _ Logic.I)).
    apply keeps_for_each. intros p _.
    apply keeps_bind; [now apply keeps_os_path_isfile|]. intros [|]; [|apply keeps_ret].
    apply keeps_bind; [apply keeps_getitem|]. intros f. now apply keeps_upload_file.
Qed.

Lemma keeps_weaken (I : World → Prop) (P Q : Event → Prop) {A} (m : Prog A) :
  (∀ e, P e → Q e) → keeps I P m → keeps I Q m.
Proof.
  intros HPQ Hm w Hw. destruct (Hm w Hw) as (Hi & l & Hl & HP). split; [done|].
  exists l. split; [done|]. eapply Forall_impl; eauto.
Qed.

(** Invariants that do not look at the disk: they hold through a whole pass. *)
Section KeepsOffDisk.

Context (I : World → Prop) (P : Event → Prop).
Hypothesis I_record : ∀ e w, I w → I (record e w).
Hypothesis I_write : ∀ p mtime c w, I w → I (write_stat p mtime c w).
Hypothesis P_sync : ∀ e, is_sync_event e = true → P e.

Lemma keeps_download_file n r : keeps I P (download_file n r).
Proof.
  unfold download_file.
  apply keeps_bind; [apply keeps_load_config; auto|]. intros loaded.
  apply keeps_bind; [apply keeps_subscriptable|]. intros config.
  apply keeps_bind; [apply keeps_getitem|]. intros m.
  apply keeps_download_mapped; auto.
Qed.

Lemma keeps_download_phase files : keeps I P (download_phase files).
Proof. apply keeps_for_each. intros r _. apply keeps_download_file. Qed.

Lemma keeps_upload_phase config files m : keeps I P (upload_phase config files m).
Proof.
  apply keeps_for_each. intros p _.
  apply keeps_bind; [apply keeps_os_path_isfile|]. intros [|]; [|apply keeps_ret].
  apply keeps_bind; [apply keeps_getitem|]. intros f. apply keeps_upload_file; auto.
Qed.

Lemma keeps_sync_phases config files m : keeps I P (sync_phases config files m).
Proof.
  apply keeps_try_except.
  - apply keeps_bind; [apply keeps_upload_phase|]. intros _.
    apply keeps_bind; [apply keeps_download_phase|]. intros _. apply keeps_logging; auto.
  - intros e. apply keeps_bind; [apply keeps_logging; auto|]. intros _. apply keeps_raise.
Qed.

Lemma keeps_sync : keeps I P sync.
Proof.
  apply keeps_try_except.
  - apply keeps_bind; [apply keeps_load_config; auto|]. intros loaded.
    apply keeps_bind; [apply keeps_subscriptable|]. intros config.
    apply keeps_bind; [apply keeps_getitem|]. intros f.
    apply keeps_bind; [apply keeps_list_files_in_drive; auto|]. intros files.
    apply keeps_bind; [apply keeps_getitem|]. intros m.
    apply keeps_bind; [apply keeps_upload_phase|]. intros _.
    apply keeps_bind; [apply keeps_download_phase|]. intros _. apply keeps_logging; auto.
  - intros e. apply keeps_bind; [apply keeps_logging; auto|]. intros _. apply keeps_raise.
Qed.

End KeepsOffDisk.

(** Invariants that every download call keeps: they hold through a whole
    pass. *)
Section KeepsDownloads.

Context (I : World → Prop) (P : Event → Prop).
Hypothesis I_record : ∀ e w, I w → I (record e w).
Hypothesis I_download : ∀ i p, keeps I P (files_download i p).
Hypothesis P_other : ∀ e, is_sync_event e = true → is_download e = false → P e.

Lemma keeps_download_file_by n r : keeps I P (download_file n r).
Proof.
  unfold download_file.
  apply keeps_bind; [apply keeps_load_config; auto|]. intros loaded.
  apply keeps_bind; [apply keeps_subscriptable|]. intros config.
  apply keeps_bind; [apply keeps_getitem|]. intros m.
  apply keeps_download_mapped_by; auto.
Qed.

Lemma keeps_download_phase_by files : keeps I P (download_phase files).
Proof. apply keeps_for_each. intros r _. apply keeps_download_file_by. Qed.

Lemma keeps_upload_phase_by config files m : keeps I P (upload_phase config files m).
Proof.
  apply keeps_for_each. intros p _.
  apply keeps_bind; [apply keeps_os_path_isfile|]. intros [|]; [|apply keeps_ret].
  apply keeps_bind; [apply keeps_getitem|]. intros f. apply keeps_upload_file; auto.
Qed.

Lemma keeps_sync_by : keeps I P sync.
Proof.
  apply keeps_try_except.
  - apply keeps_bind; [apply keeps_load_config; auto|]. intros loaded.
    apply keeps_bind; [apply keeps_subscriptable|]. intros config.
    apply keeps_bind; [apply keeps_getitem|]. intros f.
    apply keeps_bind; [apply keeps_list_files_in_drive; auto|]. intros files.
    apply keeps_bind; [apply keeps_getitem|]. intros m.
    apply keeps_bind; [apply keeps_upload_phase_by|]. intros _.
    apply keeps_bind; [apply keeps_download_phase_by|]. intros _. apply keeps_logging; auto.
  - intros e. apply keeps_bind; [apply keeps_logging; auto|]. intros _. apply keeps_raise.
Qed.

End KeepsDownloads.

(** What a pass of [sync] writes, it writes by a download call: a path into
    which none was issued is as it was, and so is the configuration when
    that path is [CONFIG_FILE]. *)
Lemma sync_writes_by_download w q :
  (∀ i, ¬ In (Download i q) (emitted sync w)) →
  disk (snd (sync w)) !! q = disk w !! q
  ∧ (q = CONFIG_FILE → config_file (snd (sync w)) = config_file w).
Proof.
  intros Hno.
  set (I := λ w' : World,
         (length (trace w) ≤ length (trace w'))%nat
         ∧ ((disk w' !! q = disk w !! q
             ∧ (q = CONFIG_FILE → config_file w' = config_file w))
            ∨ ∃ i, In (Download i q) (drop (length (trace w)) (trace w')))).
  assert (Hrec : ∀ e w', I w' → I (record e w')).
  { intros e w' [Hlen [Hsame|[i Hin]]]; (split; [simpl; rewrite length_app; lia|]).
    - now left.
    - right. exists i. simpl. rewrite drop_app. apply in_or_app. now left. }
  assert (Hdl : ∀ i p, keeps I any_event (files_download i p)).
  { intros i p w' HI.
    split; [|exact (proj2 (keeps_files_download any_world any_event ltac:(done) i p
                             ltac:(done) ltac:(done) w' Logic.I))].
    assert (Hr : I (record (Download i p) w')) by now apply Hrec.
    destruct (decide (p = q)) as [->|Hp].
    - assert (Hyes : ∀ w2, trace w2 = trace w' ++ [Download i q] → I w2).
      { intros w2 Ht. destruct HI as [Hlen _]. split; [rewrite Ht, length_app; simpl; lia|].
        right. exists i. rewrite Ht, drop_app. apply in_or_app. right.
        replace (length (trace w) - length (trace w'))%nat with 0%nat by lia. now left. }
      unfold files_download, written.
      destruct (download_reply _ _ _ _); simpl; now apply Hyes.
    - unfold files_download, written.
      destruct (download_reply _ _ _ _); simpl; [|done|].
      all: destruct Hr as [Hlen [[Hd Hc]|Hin]]; (split; [done|]); [left|now right].
      all: simpl; rewrite lookup_insert_ne by done; split; [done|].
      all: intros ->; apply String.eqb_neq in Hp; rewrite Hp; now apply Hc. }
  destruct (keeps_sync_by I any_event Hrec Hdl ltac:(done) w) as ([_ [Hsame|[i Hin]]] & _).
  - split; [lia|]. now left.
  - done.
  - now destruct (Hno i).
Qed.

Lemma newer_or_absent_dec w p t : {newer_or_absent w p t} + {¬ newer_or_absent w p t}.
Proof.
  unfold newer_or_absent. destruct (disk w !! p) as [st|]; [|now left].
  destruct (Z_lt_dec (st_mtime st) t); [now left|now right].
Qed.

(** C2, amended.  Take a listed record whose name is a key of the mapping
    with a non-empty path.  If its [modifiedTime] parses and the host
    converts it to the time of the remote copy, [download_file] issues
    exactly one download call, into that path, if and only if there is
    nothing at the path or the remote copy was modified strictly later than
    the local one; otherwise it issues none.  A download that completes
    leaves a regular file at the path.  If the [modifiedTime] does not
    parse or cannot be converted, [download_file] raises that error without
    any download call, also when there is nothing at the path. *)
Theorem download_file_policy (w : World) (f : option string) (m : Mapping)
    (r : DriveFile) (p : string) :
  config_file w = Json f (Some m) → dict_get m (name r) = Some p → p ≠ "" →
  let new := emitted (download_file (name r) r) w in
  (∀ t, strptime (modifiedTime r) = Ok t → timestamp t = Ok (utc t) →
     (calls is_download new = 1%nat ↔ newer_or_absent w p (utc t)) ∧
     (newer_or_absent w p (utc t) →
        In (Download (fileId r) p) new ∧
        ∀ mtime, download_reply env (trace (loaded w)) (fileId r) p = Closed mtime →
          disk (snd (download_file (name r) r w)) !! p
          = Some {| st_kind := RegularFile; st_mtime := mtime |}) ∧
     (¬ newer_or_absent w p (utc t) → calls is_download new = 0%nat)) ∧
  (∀ e, unconvertible r e →
     calls is_download new = 0%nat
     ∧ result (download_file (name r) r) w = Raised e).
Proof.
  intros Hc Hg Hp new. subst new. split.
  - intros t Ht Hts.
    assert (Hyes : newer_or_absent w p (utc t) →
                   calls is_download (emitted (download_file (name r) r) w) = 1%nat).
    { intros Hn.
      emitted_run (download_file_transfers w f m (name r) r p t (utc t) Hc Hg Hp Ht Hts Hn).
      all: reflexivity. }
    assert (Hno : ¬ newer_or_absent w p (utc t) →
                  calls is_download (emitted (download_file (name r) r) w) = 0%nat).
    { intros Hn. unfold newer_or_absent in Hn.
      destruct (disk w !! p) as [st|] eqn:Hd; [|now destruct Hn].
      assert (Hle : utc t ≤ st_mtime st) by lia.
      emitted_run (download_file_up_to_date w f m (name r) r p t (utc t) st
                     Hc Hg Hp Ht Hts Hd Hle).
      reflexivity. }
    split; [|split; [|done]].
    + split; [|done].
      intros H1. destruct (newer_or_absent_dec w p (utc t)) as [|Hn]; [done|].
      rewrite (Hno Hn) in H1. discriminate.
    + intros Hn. split.
      * emitted_run (download_file_transfers w f m (name r) r p t (utc t)
                       Hc Hg Hp Ht Hts Hn).
        all: simpl; auto.
      * intros mtime Hr.
        rewrite (download_file_transfers w f m (name r) r p t (utc t) Hc Hg Hp Ht Hts Hn).
        cbv zeta. rewrite Hr. simpl. apply lookup_insert_eq.
  - intros e Hbad.
    pose proof (download_file_bad_time w f m (name r) r p e Hc Hg Hp Hbad) as Hrun.
    split; [|unfold result; now rewrite Hrun].
    emitted_run Hrun. reflexivity.
Qed.

(** C7.  For a listed record whose name is not a key of the mapping,
    [download_file] returns normally after one warning and no transfer
    call, so that the download phase goes on with the records that follow,
    on an unchanged disk. *)
Theorem download_file_skips_unmapped (w : World) (f : option string) (m : Mapping)
    (r : DriveFile) (rest : list DriveFile) :
  config_file w = Json f (Some m) → ¬ In (name r) (map fst m) →
  let new := emitted (download_file (name r) r) w in
  result (download_file (name r) r) w = Ok tt ∧
  calls is_transfer new = 0%nat ∧
  calls is_warning new = 1%nat ∧
  disk (snd (download_file (name r) r w)) = disk w ∧
  download_phase (r :: rest) w = download_phase rest (snd (download_file (name r) r w)).
Proof.
  intros Hc Hk new. subst new.
  assert (Hf : falsy (dict_get m (name r)) = true).
  { apply dict_get_None in Hk. now rewrite Hk. }
  pose proof (download_file_unmapped w f m (name r) r Hc Hf) as Hrun.
  repeat split.
  - unfold result. now rewrite Hrun.
  - emitted_run Hrun. reflexivity.
  - emitted_run Hrun. reflexivity.
  - now rewrite Hrun.
  - unfold download_phase at 1. simpl. now rewrite (bind_ok _ _ _ _ _ Hrun), Hrun.
Qed.

(** *** Runs of [sync] *)

Lemma emitted_try_except {A} (m : Prog A) (h : exn → Prog A) w :
  extends m → (∀ e, extends (h e)) →
  emitted (try_except m h) w =
    emitted m w ++ match m w with
                   | (Ok _, _) => []
                   | (Raised e, w') => emitted (h e) w'
                   end.
Proof.
  intros Hm Hh. apply emitted_eq.
  destruct (emitted_keeps _ _ m w Hm Logic.I) as [Hl _]. unfold try_except.
  destruct (m w) as [[a|e] w1]; simpl in *.
  - now rewrite app_nil_r.
  - destruct (emitted_keeps _ _ (h e) w1 (Hh e) Logic.I) as [Hl2 _].
    now rewrite Hl2, Hl, app_assoc.
Qed.

Lemma extends_off_disk {A} (m : Prog A) :
  (∀ I P, (∀ e w, I w → I (record e w)) → (∀ p mtime c w, I w → I (write_stat p mtime c w)) →
          (∀ e, is_sync_event e = true → P e) → keeps I P m) →
  extends m.
Proof. intros H. now apply H. Qed.

Lemma list_files_in_drive_ok w folder_id files :
  listing env (trace w) folder_id = Ok files →
  list_files_in_drive folder_id w = (Ok files, listed folder_id w).
Proof.
  intros H. unfold list_files_in_drive, files_list, logging, emit, try_except, bind, ret.
  now rewrite H.
Qed.

Lemma sync_run w folder_id m files :
  config_file w = Json (Some folder_id) (Some m) →
  listing env (trace (loaded w)) folder_id = Ok files →
  sync w =
    sync_phases {| cfg_folder_id := Some folder_id; cfg_file_mappings := Some m |} files m
      (listed folder_id (loaded w)).
Proof.
  intros Hc Hl. unfold sync, sync_phases, try_except.
  rewrite (bind_ok _ _ _ _ _ (load_config_json w _ _ Hc)). simpl.
  unfold bind at 1. unfold ret at 1. simpl.
  unfold bind at 1. unfold ret at 1.
  rewrite (bind_ok _ _ _ _ _ (list_files_in_drive_ok _ _ _ Hl)).
  reflexivity.
Qed.

Lemma emitted_sync w folder_id m files :
  config_file w = Json (Some folder_id) (Some m) →
  listing env (trace (loaded w)) folder_id = Ok files →
  emitted sync w =
    [OpenConfig; Log INFO "Configuration file loaded successfully."; ListFiles folder_id;
     Log INFO ("Listed files in Google Drive folder ID " +:+ folder_id +:+ ".")]
    ++ emitted (sync_phases {| cfg_folder_id := Some folder_id; cfg_file_mappings := Some m |}
                  files m) (listed folder_id (loaded w)).
Proof.
  intros Hc Hl. apply emitted_eq. rewrite (sync_run w folder_id m files Hc Hl).
  match goal with |- trace (snd (?m ?w1)) = _ =>
    destruct (emitted_keeps any_world any_event m w1) as [-> _]; [|done|]
  end.
  - apply extends_off_disk. intros. now apply keeps_sync_phases.
  - simpl. now rewrite <- !app_assoc.
Qed.

(** *** Reads of the configuration *)

Lemma load_config_once w : calls is_open_config (emitted load_config w) = 1%nat.
Proof.
  unfold emitted, load_config, try_except, bind, logging, emit, raise.
  destruct (config_file w); simpl; rewrite <- ?app_assoc, drop_app_length; reflexivity.
Qed.

Lemma extends_load_config : extends load_config.
Proof. now apply keeps_load_config. Qed.

Lemma download_file_loads_once n r w :
  calls is_open_config (emitted (download_file n r) w) = 1%nat.
Proof.
  assert (Hk : ∀ P : Event → Prop,
            (∀ lvl msg, P (Log lvl msg)) → (∀ p, P (Download (fileId r) p)) →
            ∀ loaded, keeps any_world P
              (config <- subscriptable loaded ;;
               file_mapping <- getitem "file_mappings" (cfg_file_mappings config) ;;
               download_mapped file_mapping n r)).
  { intros P Hl Hd loaded. apply keeps_bind; [apply keeps_subscriptable|]. intros config.
    apply keeps_bind; [apply keeps_getitem|]. intros m.
    now apply keeps_download_mapped. }
  unfold download_file. rewrite emitted_bind.
  - rewrite calls_app, load_config_once.
    destruct (load_config w) as [[config|e] w1]; [|reflexivity].
    rewrite calls_none; [reflexivity|].
    refine (proj2 (emitted_keeps any_world (λ e, is_open_config e = false) _ w1 _ Logic.I)).
    now apply Hk.
  - apply extends_load_config.
  - now apply Hk.
Qed.

Lemma extends_download_file n r : extends (download_file n r).
Proof. apply extends_off_disk. intros. now apply keeps_download_file. Qed.

Lemma extends_download_phase files : extends (download_phase files).
Proof. apply extends_off_disk. intros. now apply keeps_download_phase. Qed.

Lemma extends_upload_phase config files m : extends (upload_phase config files m).
Proof. apply extends_off_disk. intros. now apply keeps_upload_phase. Qed.

Lemma download_phase_loads files w :
  result (download_phase files) w = Ok tt →
  calls is_open_config (emitted (download_phase files) w) = length files.
Proof.
  revert w. induction files as [|r files IH]; intros w Hok.
  - unfold emitted. simpl. now rewrite drop_all.
  - unfold download_phase in *. simpl in *. rewrite emitted_bind.
    + rewrite calls_app, download_file_loads_once.
      unfold result, bind in Hok.
      destruct (download_file (name r) r w) as [[[]|e] w1]; [|discriminate].
      now rewrite (IH w1 Hok).
    + apply extends_download_file.
    + intros _. apply extends_download_phase.
Qed.

Lemma upload_phase_no_load config files m w :
  calls is_open_config (emitted (upload_phase config files m) w) = 0%nat.
Proof.
  apply calls_none.
  refine (proj2 (emitted_keeps any_world (λ e, is_open_config e = false) _ w _ Logic.I)).
  apply keeps_for_each. intros p _.
  apply keeps_bind; [now apply keeps_os_path_isfile|]. intros [|]; [|apply keeps_ret].
  apply keeps_bind; [apply keeps_getitem|]. intros f. now apply keeps_upload_file.
Qed.

(** C6, amended.  A pass of [sync] writes the configuration file only by a
    download call into [CONFIG_FILE] itself: after a pass that issued none,
    however it ends, the configuration is what it was.  Every call of
    [download_file] reads the configuration once more; and a pass that
    completes has read it once for itself and once for each listed
    record. *)
Theorem sync_reads_config (w : World) :
  ((∀ i, ¬ In (Download i CONFIG_FILE) (emitted sync w)) →
     config_file (snd (sync w)) = config_file w) ∧
  (∀ n r w', calls is_open_config (emitted (download_file n r) w') = 1%nat) ∧
  (∀ folder_id m files,
     config_file w = Json (Some folder_id) (Some m) →
     listing env (trace (loaded w)) folder_id = Ok files →
     result sync w = Ok tt →
     calls is_open_config (emitted sync w) = S (length files)).
Proof.
  split; [|split].
  - intros Hno. now apply (sync_writes_by_download w CONFIG_FILE Hno).
  - intros n r w'. apply download_file_loads_once.
  - intros folder_id m files Hc Hl Hok.
    rewrite (emitted_sync w folder_id m files Hc Hl).
    unfold result in Hok. rewrite (sync_run w folder_id m files Hc Hl) in Hok.
    set (w2 := listed folder_id (loaded w)) in *.
    set (config := {| cfg_folder_id := Some folder_id; cfg_file_mappings := Some m |}) in *.
    rewrite calls_app. simpl calls at 1. f_equal.
    unfold sync_phases in *. rewrite emitted_try_except.
    + unfold try_except in Hok.
      destruct (bind (upload_phase config files m) _ w2) as [[[]|e] w3] eqn:Hb.
      2:{ unfold bind, logging, emit, raise in Hok. simpl in Hok. discriminate. }
      rewrite app_nil_r. rewrite emitted_bind.
      * rewrite calls_app, upload_phase_no_load. simpl.
        unfold bind in Hb.
        destruct (upload_phase config files m w2) as [[[]|e] w4]; [|discriminate].
        rewrite emitted_bind.
        -- rewrite calls_app.
           destruct (download_phase files w4) as [[[]|e] w5] eqn:Hd; [|discriminate].
           rewrite download_phase_loads by (unfold result; now rewrite Hd).
           unfold emitted, logging, emit. simpl.
           rewrite drop_app_length. simpl. lia.
        -- apply extends_download_phase.
        -- intros _. now apply keeps_logging.
      * apply extends_upload_phase.
      * intros _. apply keeps_bind; [apply extends_download_phase|].
        intros _. now apply keeps_logging.
    + apply keeps_bind; [apply extends_upload_phase|]. intros _.
      apply keeps_bind; [apply extends_download_phase|]. intros _. now apply keeps_logging.
    + intros e. apply keeps_bind; [now apply keeps_logging|]. intros _. apply keeps_raise.
Qed.

(** *** What [download_file] does once the mapping is read *)

Lemma emitted_download_file_json w f m n r :
  config_file w = Json f (Some m) →
  emitted (download_file n r) w
  = [OpenConfig; Log INFO "Configuration file loaded successfully."]
    ++ emitted (download_mapped m n r) (loaded w).
Proof.
  intros Hc. apply emitted_eq. rewrite (download_file_json w f m n r Hc).
  destruct (emitted_keeps any_world any_event (download_mapped m n r) (loaded w))
    as [-> _]; [|done|].
  - now apply keeps_download_mapped.
  - simpl. now rewrite <- !app_assoc.
Qed.

Lemma falsy_false o : falsy o = false → ∃ p, o = Some p ∧ p ≠ "".
Proof.
  destruct o as [p|]; simpl; [|discriminate]. intros H. exists p. split; [done|].
  now apply String.eqb_neq.
Qed.

(** C9, amended.  For a mapping entry whose key is not the basename of its
    path: [upload_file] names what it creates after the basename, and
    creates it whenever no listed record has that name (a record named after
    the key does not count); [download_file] only ever downloads into the
    path found under the record's name among the keys; so, when the
    basename is not itself a key of the mapping, a record of that name is
    warning-skipped by [download_file] in every later world with that
    mapping, and never downloaded. *)
Theorem uploaded_by_basename_looked_up_by_key (f : option string) (m : Mapping)
    (k p : string) :
  dict_get m k = Some p → k ≠ basename p →
  (∀ w files folder_id,
     Forall (λ e, ∀ n f' q, e = Create n f' q → n = basename p)
       (emitted (upload_file p files folder_id) w)) ∧
  (∀ w files folder_id st,
     disk w !! p = Some st → (∀ r, In r files → name r ≠ basename p) →
     In (Create (basename p) folder_id p) (emitted (upload_file p files folder_id) w)) ∧
  (∀ w r, config_file w = Json f (Some m) →
     Forall (λ e, ∀ i q, e = Download i q → dict_get m (name r) = Some q)
       (emitted (download_file (name r) r) w)) ∧
  (¬ In (basename p) (map fst m) →
   ∀ w r, config_file w = Json f (Some m) → name r = basename p →
     result (download_file (name r) r) w = Ok tt
     ∧ calls is_download (emitted (download_file (name r) r) w) = 0%nat
     ∧ calls is_warning (emitted (download_file (name r) r) w) = 1%nat).
Proof.
  intros Hg Hk. repeat split.
  - intros w files folder_id.
    refine (proj2 (emitted_keeps any_world _ _ w _ Logic.I)).
    apply keeps_upload_file; [done|discriminate|congruence|discriminate].
  - intros w files folder_id st Hd Hn. apply first_named_None in Hn.
    emitted_run (upload_file_creates w p files folder_id st Hd Hn); now left.
  - intros w r Hc. rewrite (emitted_download_file_json w f m (name r) r Hc).
    apply Forall_app. split; [repeat constructor; discriminate|].
    refine (proj2 (emitted_keeps any_world _ _ (loaded w) _ Logic.I)).
    destruct (falsy (dict_get m (name r))) eqn:Hf.
    + intros w' Hw'. rewrite (download_mapped_unmapped w' m (name r) r Hf).
      split; [done|]. eexists [_]. split; [done|]. repeat constructor. discriminate.
    + destruct (falsy_false _ Hf) as (q & Hq & Hne).
      apply keeps_download_mapped; [done|discriminate| |done]. rewrite Hq. simpl. congruence.
  - unfold result. rewrite H1 in *. apply dict_get_None in H.
    rewrite (download_file_unmapped w f m (basename p) r H0); [done|now rewrite H].
  - rewrite H1 in *. apply dict_get_None in H.
    emitted_run (download_file_unmapped w f m (basename p) r H0 ltac:(now rewrite H)).
    reflexivity.
  - rewrite H1 in *. apply dict_get_None in H.
    emitted_run (download_file_unmapped w f m (basename p) r H0 ltac:(now rewrite H)).
    reflexivity.
Qed.

(** *** The backup *)

Lemma most_recent_latest files :
  ∀ acc, (∀ r, acc = Some r → parses r) → Forall parses files →
  ∃ res, most_recent acc files = Ok res
         ∧ (res = None → acc = None ∧ files = [])
         ∧ (∀ r, res = Some r →
              (In r files ∨ acc = Some r)
              ∧ ∃ t, strptime (modifiedTime r) = Ok t
                     ∧ ∀ r' t', In r' files ∨ acc = Some r' →
                                strptime (modifiedTime r') = Ok t' → t' ≤ t).
Proof.
  induction files as [|file rest IH]; intros acc Hacc Hall; simpl.
  - exists acc. split; [done|]. split; [done|]. intros r ->. split; [now right|].
    destruct (Hacc r eq_refl) as [t Ht]. exists t. split; [done|].
    intros r' t' [[]|[= <-]] Ht'. rewrite Ht in Ht'. injection Ht' as <-. lia.
  - apply Forall_cons in Hall as [[tf Hf] Hrest]. rewrite Hf.
    assert (Hsome : ∀ r, Some file = Some r → parses r) by (intros r [= <-]; now exists tf).
    destruct acc as [recent|].
    + destruct (Hacc recent eq_refl) as [tr Hr]. rewrite Hr.
      destruct (Z.ltb_spec tr tf) as [Hlt|Hge].
      * destruct (IH (Some file) Hsome Hrest) as (res & -> & Hnone & Hmax).
        exists res. split; [done|]. split; [intros Hn; now destruct (Hnone Hn)|].
        intros r Hres. destruct (Hmax r Hres) as ([Hin|[= <-]] & t & Ht & Hle).
        -- split; [left; now right|]. exists t. split; [done|].
           intros r' t' [[<-|Hin']|[= <-]] Ht'; [apply (Hle file)|apply (Hle r')|]. all: auto.
           rewrite Hr in Ht'. injection Ht' as <-.
           assert (tf ≤ t) by (apply (Hle file); auto). lia.
        -- split; [left; now left|]. exists t. split; [done|].
           intros r' t' [[<-|Hin']|[= <-]] Ht'; [apply (Hle file)|apply (Hle r')|]; auto.
           rewrite Hr in Ht'. injection Ht' as <-.
           assert (tf ≤ t) by (apply (Hle file); auto). lia.
      * destruct (IH (Some recent) Hacc Hrest) as (res & -> & Hnone & Hmax).
        exists res. split; [done|]. split; [intros Hn; now destruct (Hnone Hn)|].
        intros r Hres. destruct (Hmax r Hres) as (Hor & t & Ht & Hle).
        split; [destruct Hor as [Hin|Heq]; [left; now right|now right]|].
        exists t. split; [done|].
        intros r' t' [[<-|Hin']|Heq] Ht'; [|apply (Hle r'); auto..].
        rewrite Hf in Ht'. injection Ht' as <-.
        assert (tr ≤ t) by (apply (Hle recent); auto). lia.
    + destruct (IH (Some file) Hsome Hrest) as (res & -> & Hnone & Hmax).
      exists res. split; [done|]. split; [intros Hn; now destruct (Hnone Hn)|].
      intros r Hres. destruct (Hmax r Hres) as (Hor & t & Ht & Hle).
      split; [left; destruct Hor as [Hin|[= <-]]; [now right|now left]|].
      exists t. split; [done|].
      intros r' t' [[<-|Hin']|[=]] Ht'; [apply (Hle file)|apply (Hle r')]; auto.
Qed.

Lemma create_backup_run w files :
  listing env (trace (record Now w)) BACKUP_FOLDER_ID = Ok files →
  Forall parses files →
  let now := clock env (trace w) in
  let w2 := listed BACKUP_FOLDER_ID (record Now w) in
  (Exists (within_interval now) files ∧
   ∃ msg, create_backup w = (Ok tt, record (Log INFO msg) w2))
  ∨ (¬ Exists (within_interval now) files ∧
     create_backup w = backup_archive now files w2).
Proof.
  intros Hl Hall now w2.
  assert (Hrun : create_backup w =
            match most_recent None files with
            | Ok (Some recent) =>
                match strptime (modifiedTime recent) with
                | Ok t =>
                    if now - t <? timedelta_days BACKUP_INTERVAL_DAYS then
                      (Ok tt, record (Log INFO ("Skipping backup: Last backup "
                                +:+ datetime_str t +:+ " is within the interval.")) w2)
                    else backup_archive now files w2
                | Raised e => (Raised e, w2)
                end
            | Ok None => backup_archive now files w2
            | Raised e => (Raised e, w2)
            end).
  { unfold create_backup, datetime_now, lift, bind.
    rewrite (list_files_in_drive_ok _ _ _ Hl). fold now. fold w2.
    destruct (most_recent None files) as [[recent|]|e]; try reflexivity.
    destruct (strptime (modifiedTime recent)); try reflexivity.
    now destruct (_ <? _). }
  rewrite Hrun. clear Hrun.
  destruct (most_recent_latest files None ltac:(discriminate) Hall)
    as (res & -> & Hnone & Hmax).
  destruct res as [recent|].
  - destruct (Hmax recent eq_refl) as ([Hin|Hacc] & t & Ht & Hle); [|discriminate].
    rewrite Ht.
    destruct (Z.ltb_spec (now - t) (timedelta_days BACKUP_INTERVAL_DAYS)) as [Hlt|Hge].
    + left. split; [|eexists; reflexivity].
      apply List.Exists_exists. exists recent. split; [done|]. now exists t.
    + right. split; [|reflexivity].
      intros Hex. apply List.Exists_exists in Hex as (r' & Hr' & t' & Ht' & Hlt).
      assert (t' ≤ t) by (apply (Hle r'); auto). lia.
  - right. destruct (Hnone eq_refl) as [_ ->]. split; [|reflexivity].
    intros Hex. now apply Exists_nil in Hex.
Qed.

Lemma zip_members_reads files w : ∃ members, zip_members files w = (Ok members, w).
Proof.
  induction files as [|file_path rest [members IH]]; simpl; [now eexists|].
  unfold bind, os_path_exists, ret. rewrite IH. now eexists.
Qed.

Lemma bind_ok_inv {A B} (m : Prog A) (k : A → Prog B) w b w2 :
  bind m k w = (Ok b, w2) → ∃ a w1, m w = (Ok a, w1) ∧ k a w1 = (Ok b, w2).
Proof.
  unfold bind. destruct (m w) as [[a|e] w1]; [|discriminate]. intros H. now exists a, w1.
Qed.

Lemma load_config_ok_inv w l config w1 w2 :
  load_config w = (Ok l, w1) → subscriptable l w1 = (Ok config, w2) →
  config_file w = Json (cfg_folder_id config) (cfg_file_mappings config) ∧ w2 = loaded w.
Proof.
  unfold load_config, try_except, bind, logging, emit, raise.
  destruct (config_file w) as [e|e|f m|e]; try discriminate.
  - intros [= <- <-] [= <- <-]. done.
  - intros [= <- <-]. discriminate.
Qed.

Lemma getitem_ok_inv {A} key (field : option A) w a w1 :
  getitem key field w = (Ok a, w1) → field = Some a ∧ w1 = w.
Proof. destruct field; [|discriminate]. now intros [= <- <-]. Qed.

Lemma zip_open_ok_inv path w w1 :
  zip_open path w = (Ok tt, w1) →
  ∃ mtime c, w1 = write_stat path mtime c (record (ZipOpen path) w).
Proof.
  unfold zip_open. destruct (zip_open_reply env (trace w) path) as [mtime|e]; [|discriminate].
  intros [= <-]. now eexists mtime, _.
Qed.

Lemma zip_write_ok_inv path members w w1 :
  zip_write path members w = (Ok tt, w1) →
  ∃ mtime c, w1 = write_stat path mtime c (record (ZipWrite path members) w).
Proof.
  unfold zip_write. destruct (zip_write_reply env (trace w) path members) as [mtime r].
  destruct r; [discriminate|]. intros [= <-]. now eexists mtime, _.
Qed.

Lemma build_archive_ok path w w2 :
  build_archive path w = (Ok tt, w2) →
  ∃ members mtime,
    trace w2 = trace w ++ [OpenConfig; Log INFO "Configuration file loaded successfully.";
                           ZipOpen path; ZipWrite path members;
                           Log INFO ("Backup created locally: " +:+ path)]
    ∧ disk w2 !! path = Some {| st_kind := RegularFile; st_mtime := mtime |}
    ∧ (path ≠ CONFIG_FILE → config_file w2 = config_file w).
Proof.
  unfold build_archive. intros H.
  apply bind_ok_inv in H as (l & w0 & Hload & H).
  apply bind_ok_inv in H as (config & w1 & Hsub & H).
  destruct (load_config_ok_inv _ _ _ _ _ Hload Hsub) as [Hc ->].
  apply bind_ok_inv in H as (m & w1 & Hm & H).
  apply getitem_ok_inv in Hm as [Hm ->].
  apply bind_ok_inv in H as ([] & w1 & Hopen & H).
  apply zip_open_ok_inv in Hopen as (mt1 & c1 & ->).
  apply bind_ok_inv in H as (members & w1 & Hmem & H).
  destruct (zip_members_reads (dict_values m)
              (write_stat path mt1 c1 (record (ZipOpen path) (loaded w))))
    as [members' Hmem'].
  rewrite Hmem' in Hmem. injection Hmem as <- <-.
  apply bind_ok_inv in H as ([] & w1 & Hwrite & H).
  apply zip_write_ok_inv in Hwrite as (mt2 & c2 & ->).
  injection H as <-. exists members', mt2. simpl. rewrite <- !app_assoc. simpl.
  split; [done|]. split; [apply lookup_insert_eq|].
  intros Hp. apply String.eqb_neq in Hp. now rewrite Hp.
Qed.

(** Invariants that hold through everything but the sleep. *)
Section KeepsAwake.

Context (I : World → Prop) (P : Event → Prop).
Hypothesis I_record : ∀ e w, I w → I (record e w).
Hypothesis I_write : ∀ p mtime c w, I w → I (write_stat p mtime c w).
Hypothesis I_unlink : ∀ p w, I w → I (unlink p w).
Hypothesis P_awake : ∀ e, is_sleep e = false → P e.

Lemma keeps_zip_members files : keeps I P (zip_members files).
Proof.
  induction files as [|file_path rest IH]; simpl; [apply keeps_ret|].
  apply keeps_bind; [apply keeps_os_path_exists|]. intros present.
  apply keeps_bind; [done|]. intros members. apply keeps_ret.
Qed.

Lemma keeps_build_archive path : keeps I P (build_archive path).
Proof.
  unfold build_archive.
  apply keeps_bind; [apply keeps_load_config; auto|]. intros loaded.
  apply keeps_bind; [apply keeps_subscriptable|]. intros config.
  apply keeps_bind; [apply keeps_getitem|]. intros m.
  apply keeps_bind; [apply keeps_zip_open; auto|]. intros _.
  apply keeps_bind; [apply keeps_zip_members|]. intros members.
  apply keeps_bind; [apply keeps_zip_write; auto|]. intros _.
  apply keeps_logging; auto.
Qed.

Lemma keeps_backup_archive now files : keeps I P (backup_archive now files).
Proof.
  apply keeps_try_except.
  - apply keeps_bind; [apply keeps_build_archive|]. intros _.
    apply keeps_bind; [apply keeps_upload_file; auto|]. intros _.
    apply keeps_bind; [apply keeps_os_remove; auto|]. intros _.
    apply keeps_logging; auto.
  - intros e. apply keeps_bind; [apply keeps_logging; auto|]. intros _. apply keeps_raise.
Qed.

Lemma keeps_create_backup : keeps I P create_backup.
Proof.
  unfold create_backup.
  apply keeps_bind; [apply keeps_datetime_now; auto|]. intros now.
  apply keeps_bind; [apply keeps_list_files_in_drive; auto|]. intros files.
  apply keeps_bind; [apply keeps_lift|]. intros [recent|]; [|apply keeps_backup_archive].
  apply keeps_bind; [apply keeps_lift|]. intros t.
  apply keeps_if; [apply keeps_logging; auto|apply keeps_backup_archive].
Qed.

Lemma keeps_syncing last : keeps I P (syncing last).
Proof.
  unfold syncing.
  apply keeps_bind; [apply keeps_logging; auto|]. intros _.
  apply keeps_bind.
  { apply keeps_sync; auto. intros e He. apply P_awake. now destruct e. }
  intros _. apply keeps_bind; [apply keeps_datetime_now; auto|]. intros now.
  apply keeps_if; [|apply keeps_ret].
  apply keeps_bind; [apply keeps_logging; auto|]. intros _.
  apply keeps_bind; [apply keeps_create_backup|]. intros _.
  apply keeps_datetime_now; auto.
Qed.

End KeepsAwake.

Lemma extends_awake {A} (m : Prog A) :
  (∀ I P, (∀ e w, I w → I (record e w)) → (∀ p mtime c w, I w → I (write_stat p mtime c w)) →
          (∀ p w, I w → I (unlink p w)) → (∀ e, is_sleep e = false → P e) → keeps I P m) →
  extends m.
Proof. intros H. now apply H. Qed.

Lemma upload_file_frame p files f w :
  ∃ l, trace (snd (upload_file p files f w)) = trace w ++ l
       ∧ disk (snd (upload_file p files f w)) = disk w
       ∧ Forall (λ e, is_archive e = false ∧ is_remove e = false) l.
Proof.
  destruct (keeps_upload_file (λ w', disk w' = disk w)
              (λ e, is_archive e = false ∧ is_remove e = false)
              ltac:(done) p files f ltac:(done) ltac:(done) ltac:(done) w eq_refl)
    as (Hd & l & Hl & HP).
  now exists l.
Qed.

(** What [backup_archive] does once the archive is written. *)
Lemma backup_archive_after_build now files w w2 :
  build_archive (backup_path now) w = (Ok tt, w2) →
  backup_archive now files w =
    match upload_file (backup_path now) files BACKUP_FOLDER_ID w2 with
    | (Ok _, w3) =>
        (Ok tt, record (Log INFO "Local backup file deleted after upload.")
                  (unlink (backup_path now) (record (Remove (backup_path now)) w3)))
    | (Raised e, w3) =>
        (Raised e, record (Log ERROR ("Failed to create or upload backup: " +:+ e)) w3)
    end.
Proof.
  intros Hb. unfold backup_archive, try_except.
  rewrite (bind_ok _ _ _ _ _ Hb).
  destruct (build_archive_ok _ _ _ Hb) as (members & mtime & _ & Hd & _).
  destruct (upload_file_frame (backup_path now) files BACKUP_FOLDER_ID w2)
    as (l & _ & Hdisk & _).
  unfold bind at 1.
  destruct (upload_file (backup_path now) files BACKUP_FOLDER_ID w2) as [[[]|e] w3];
    [|reflexivity].
  simpl in Hdisk. unfold bind, os_remove, logging, emit.
  now rewrite Hdisk, Hd.
Qed.

(** C8.  Once the archive is written: if [upload_file] returns, the local
    archive is removed (one call of [os.remove], after which nothing is left
    at its path) and [create_backup]'s [try] block returns; if [upload_file]
    raises, the same exception leaves the block, [os.remove] is never
    called and the archive is still on the disk. *)
Theorem archive_removed_only_after_upload (now : Z) (files : list DriveFile)
    (w w2 : World) :
  build_archive (backup_path now) w = (Ok tt, w2) →
  let path := backup_path now in
  let new := emitted (backup_archive now files) w in
  (result (upload_file path files BACKUP_FOLDER_ID) w2 = Ok tt →
     result (backup_archive now files) w = Ok tt
     ∧ calls is_remove new = 1%nat ∧ In (Remove path) new
     ∧ disk (snd (backup_archive now files w)) !! path = None) ∧
  (∀ e, result (upload_file path files BACKUP_FOLDER_ID) w2 = Raised e →
     result (backup_archive now files) w = Raised e
     ∧ calls is_remove new = 0%nat
     ∧ is_Some (disk (snd (backup_archive now files w)) !! path)).
Proof.
  intros Hb path new. subst new.
  pose proof (backup_archive_after_build now files w w2 Hb) as Hrun.
  destruct (build_archive_ok _ _ _ Hb) as (members & mtime & Ht & Hd & _).
  destruct (upload_file_frame path files BACKUP_FOLDER_ID w2) as (l & Hl & Hdisk & HP).
  assert (Hnr : calls is_remove l = 0%nat).
  { apply calls_none. eapply Forall_impl; [exact HP|]. now intros e [_ ?]. }
  unfold result. fold path in Hrun, Ht, Hd.
  destruct (upload_file path files BACKUP_FOLDER_ID w2) as [[[]|e] w3]; simpl in *.
  - split; [|discriminate]. intros _. unfold emitted. rewrite Hrun. simpl.
    rewrite Hl, Ht, <- !app_assoc, drop_app_length. simpl.
    rewrite !calls_app, Hnr. simpl. repeat split.
    + do 5 right. apply in_or_app. right. now left.
    + apply lookup_delete_eq.
  - split; [discriminate|]. intros e' [= <-]. unfold emitted. rewrite Hrun. simpl.
    rewrite Hl, Ht, <- !app_assoc, drop_app_length. simpl.
    rewrite !calls_app, Hnr. simpl. repeat split.
    rewrite Hdisk, Hd. eauto.
Qed.

Lemma backup_archive_built now files w wf :
  backup_archive now files w = (Ok tt, wf) →
  (2 ≤ calls is_archive (emitted (backup_archive now files) w))%nat.
Proof.
  intros Hrun. unfold backup_archive, try_except in Hrun.
  destruct (bind (build_archive (backup_path now)) _ w) as [[[]|e] w1] eqn:Hbody.
  2:{ unfold bind, logging, emit, raise in Hrun. discriminate. }
  apply bind_ok_inv in Hbody as ([] & w2 & Hb & _).
  destruct (build_archive_ok _ _ _ Hb) as (members & mtime & Ht & _).
  destruct (upload_file_frame (backup_path now) files BACKUP_FOLDER_ID w2) as (l & Hl & _).
  unfold emitted. rewrite (backup_archive_after_build now files w w2 Hb).
  destruct (upload_file _ _ _ w2) as [[[]|e] w3]; simpl in *;
    rewrite Hl, Ht, <- !app_assoc, drop_app_length; simpl; lia.
Qed.

Lemma create_backup_skips_iff w files :
  listing env (trace (record Now w)) BACKUP_FOLDER_ID = Ok files →
  Forall parses files →
  skips_backup w ↔ Exists (within_interval (clock env (trace w))) files.
Proof.
  intros Hl Hall. unfold skips_backup, result, emitted.
  destruct (create_backup_run w files Hl Hall) as [[Hex [msg Hrun]]|[Hno Hrun]].
  - split; [done|]. intros _. rewrite Hrun. simpl.
    rewrite <- !app_assoc, drop_app_length. done.
  - split; [|done]. intros (Hok & Harch & _). exfalso.
    rewrite Hrun in Hok, Harch.
    destruct (backup_archive _ files _) as [[[]|e] wf] eqn:Hb; [|discriminate].
    pose proof (backup_archive_built _ _ _ _ Hb) as H2.
    set (w2 := listed BACKUP_FOLDER_ID (record Now w)) in *.
    set (E := emitted (backup_archive (clock env (trace w)) files) w2) in *.
    assert (Ht : trace wf = trace w
                 ++ [Now; ListFiles BACKUP_FOLDER_ID;
                     Log INFO ("Listed files in Google Drive folder ID "
                               +:+ BACKUP_FOLDER_ID +:+ ".")] ++ E).
    { destruct (emitted_keeps any_world any_event
                  (backup_archive (clock env (trace w)) files) w2) as [Ht _]; [|done|].
      { apply extends_awake. intros. now apply keeps_backup_archive. }
      rewrite Hb in Ht. simpl in Ht. fold E in Ht. rewrite Ht. simpl.
      now rewrite <- !app_assoc. }
    simpl in Harch. rewrite Ht, drop_app_length, calls_app in Harch. simpl in Harch. lia.
Qed.

Lemma recent_backup_utc now files :
  utcoffset = 0 →
  Exists (recent_backup now) files ↔ Exists (within_interval now) files.
Proof.
  intros Hz. unfold recent_backup, within_interval. rewrite Hz.
  split; intros H; (eapply Exists_impl; [exact H|]); intros r (t & Ht & Hlt);
    exists t; (split; [done|]); lia.
Qed.

(** C3, amended.  When the backup folder is listed, every listed time
    parses and the local time of the host is UTC, [create_backup] returns
    without having written or uploaded an archive if and only if some
    listed record is less than the interval old; otherwise it goes on with
    its [try] block.  With an empty listing it never skips, whatever the
    host, and the archive it builds is then uploaded by one create call. *)
Theorem backup_skipped_iff_recent (w : World) (files : list DriveFile) :
  listing env (trace (record Now w)) BACKUP_FOLDER_ID = Ok files →
  let now := clock env (trace w) in
  let w2 := listed BACKUP_FOLDER_ID (record Now w) in
  (Forall parses files → utcoffset = 0 →
     (skips_backup w ↔ Exists (recent_backup now) files) ∧
     (¬ Exists (recent_backup now) files →
        create_backup w = backup_archive now files w2)) ∧
  (files = [] →
     ¬ skips_backup w ∧ create_backup w = backup_archive now [] w2 ∧
     ∀ w3, build_archive (backup_path now) w2 = (Ok tt, w3) →
       calls is_archive (emitted create_backup w) = 2%nat
       ∧ calls is_create (emitted create_backup w) = 1%nat
       ∧ In (Create (basename (backup_path now)) BACKUP_FOLDER_ID (backup_path now))
            (emitted create_backup w)).
Proof.
  intros Hl now w2. split.
  - intros Hall Hz.
    pose proof (create_backup_skips_iff w files Hl Hall) as Hiff.
    fold now in Hiff. rewrite <- (recent_backup_utc now files Hz) in Hiff.
    split; [exact Hiff|]. intros Hno.
    destruct (create_backup_run w files Hl Hall) as [[Hex _]|[_ Hrun]]; [|exact Hrun].
    fold now in Hex. apply (recent_backup_utc now files Hz) in Hex. done.
  - intros ->.
    assert (Hall : Forall parses []) by constructor.
    pose proof (create_backup_skips_iff w [] Hl Hall) as Hiff.
    assert (Hno : ¬ Exists (within_interval now) []) by (intros H; now apply Exists_nil in H).
    assert (Hgo : create_backup w = backup_archive now [] w2).
    { now destruct (create_backup_run w [] Hl Hall) as [[Hex _]|[_ Hrun]]. }
    split; [now rewrite Hiff|]. split; [exact Hgo|]. intros w3 Hb.
    destruct (build_archive_ok _ _ _ Hb) as (members & mtime & Ht & Hd & _).
    unfold emitted. rewrite Hgo, (backup_archive_after_build now [] w2 w3 Hb).
    rewrite (upload_file_creates w3 (backup_path now) [] BACKUP_FOLDER_ID _ Hd eq_refl).
    cbv zeta. destruct (create_reply _ _ _ _ _); simpl;
      rewrite Ht; simpl; rewrite <- !app_assoc, drop_app_length; simpl; repeat split; auto 20.
Qed.

(** *** The main loop *)

Lemma idle_run w :
  ∃ w', idle w = (Ok tt, w')
        ∧ trace w' = trace w ++ [Log INFO "Sync complete. Waiting 5 minutes before next sync.";
                                 Sleep 300].
Proof.
  unfold idle, bind, logging, emit, time_sleep. simpl.
  destruct (idle_edits env _ _) as [d c]. eexists. split; [reflexivity|].
  simpl. now rewrite <- app_assoc.
Qed.

Lemma extends_syncing last : extends (syncing last).
Proof. apply extends_awake. intros. now apply keeps_syncing. Qed.

Lemma syncing_awake last w : calls is_sleep (emitted (syncing last) w) = 0%nat.
Proof.
  apply calls_none.
  refine (proj2 (emitted_keeps any_world (λ e, is_sleep e = false) _ w _ Logic.I)).
  now apply keeps_syncing.
Qed.

Lemma syncing_raises_with_sync last w e :
  result sync (record (Log INFO "Starting sync operation...") w) = Raised e →
  result (syncing last) w = Raised e.
Proof.
  unfold result, syncing, bind, logging, emit. simpl.
  destruct (sync _) as [[[]|e'] w1]; simpl; [discriminate|]. now intros [= ->].
Qed.

(** C5, amended.  A turn of the loop whose [Syncing] part (the pass of
    [sync] and, when one is due, the backup) returns goes on to [Idle]: it
    logs, sleeps 300 seconds once and returns.  A turn whose [Syncing] part
    raises, as it does whenever [sync] raises, raises the same exception
    without sleeping, and the loop ends there. *)
Theorem idle_follows_syncing_that_returns (last_backup_time : Z) (w : World) :
  (∀ t, result (syncing last_backup_time) w = Ok t →
     result (iteration last_backup_time) w = Ok t
     ∧ emitted (iteration last_backup_time) w
       = emitted (syncing last_backup_time) w
         ++ [Log INFO "Sync complete. Waiting 5 minutes before next sync."; Sleep 300]
     ∧ calls is_sleep (emitted (iteration last_backup_time) w) = 1%nat) ∧
  (∀ e, result (syncing last_backup_time) w = Raised e →
     result (iteration last_backup_time) w = Raised e
     ∧ calls is_sleep (emitted (iteration last_backup_time) w) = 0%nat
     ∧ ∀ n, result (loop (S n) last_backup_time) w = Raised e) ∧
  (∀ e, result sync (record (Log INFO "Starting sync operation...") w) = Raised e →
     result (syncing last_backup_time) w = Raised e).
Proof.
  pose proof (syncing_awake last_backup_time w) as Hawake.
  destruct (emitted_keeps _ _ _ w (extends_syncing last_backup_time) Logic.I) as [Ht _].
  unfold result in *. split; [|split].
  - intros t Hok.
    destruct (syncing last_backup_time w) as [[t'|e] w1] eqn:Hs; [|discriminate].
    simpl in Hok. injection Hok as ->.
    destruct (idle_run w1) as (w2 & Hi & Ht2). simpl in Ht.
    assert (Hit : iteration last_backup_time w = (Ok t, w2)).
    { unfold iteration, bind, ret. now rewrite Hs, Hi. }
    assert (He : emitted (iteration last_backup_time) w
                 = emitted (syncing last_backup_time) w
                   ++ [Log INFO "Sync complete. Waiting 5 minutes before next sync.";
                       Sleep 300]).
    { apply emitted_eq. rewrite Hit. simpl. now rewrite Ht2, Ht, <- app_assoc. }
    split; [now rewrite Hit|]. split; [exact He|].
    rewrite He, calls_app, Hawake. reflexivity.
  - intros e Hr.
    destruct (syncing last_backup_time w) as [[t'|e'] w1] eqn:Hs; [discriminate|].
    simpl in Hr. injection Hr as ->.
    assert (Hit : iteration last_backup_time w = (Raised e, w1)).
    { unfold iteration, bind. now rewrite Hs. }
    split; [now rewrite Hit|]. split.
    + unfold emitted in *. rewrite Hit. now rewrite Hs in Hawake.
    + intros n. simpl. unfold bind. now rewrite Hit.
  - apply syncing_raises_with_sync.
Qed.

Lemma iteration_trace last w :
  ∃ l, trace (snd (iteration last w)) = trace w ++ l
       ∧ Forall (λ e, is_sleep e = true → e = Sleep 300) l
       ∧ calls is_sleep l = match fst (iteration last w) with
                            | Ok _ => 1%nat
                            | Raised _ => 0%nat
                            end.
Proof.
  destruct (keeps_syncing any_world (λ e, is_sleep e = false)
              ltac:(done) ltac:(done) ltac:(done) ltac:(done) last w Logic.I)
    as (_ & l1 & Hl1 & HP).
  assert (H0 : calls is_sleep l1 = 0%nat) by now apply calls_none.
  assert (HQ : Forall (λ e, is_sleep e = true → e = Sleep 300) l1).
  { eapply Forall_impl; [exact HP|]. intros e He. now rewrite He. }
  unfold iteration, bind.
  destruct (syncing last w) as [[t|e] w1]; simpl in *.
  - destruct (idle_run w1) as (w2 & -> & Ht). simpl. rewrite Ht, Hl1, <- app_assoc.
    eexists. split; [reflexivity|]. split.
    + apply Forall_app. split; [done|]. repeat constructor; done.
    + rewrite calls_app, H0. reflexivity.
  - now exists l1.
Qed.

Lemma loop_trace n :
  ∀ last w,
    ∃ l, trace (snd (loop n last w)) = trace w ++ l
         ∧ Forall (λ e, is_sleep e = true → e = Sleep 300) l
         ∧ match fst (loop n last w) with
           | Ok _ => calls is_sleep l = n
           | Raised _ => (calls is_sleep l < n)%nat
           end.
Proof.
  induction n as [|n IH]; intros last w.
  - exists []. simpl. rewrite app_nil_r. done.
  - destruct (iteration_trace last w) as (l1 & Hl1 & HQ1 & Hc1).
    simpl. unfold bind.
    destruct (iteration last w) as [[t|e] w1]; simpl in *.
    + destruct (IH t w1) as (l2 & Hl2 & HQ2 & Hc2).
      exists (l1 ++ l2). rewrite Hl2, Hl1, <- app_assoc. split; [done|].
      split; [now apply Forall_app|]. rewrite calls_app, Hc1.
      destruct (fst (loop n t w1)); simpl; lia.
    + exists l1. split; [done|]. split; [done|]. lia.
Qed.

Lemma main_trace n w :
  ∃ l, trace (snd (main n w)) = trace w ++ [Now] ++ l.
Proof.
  unfold main, bind, datetime_now.
  destruct (loop_trace n (clock env (trace w) - timedelta_days BACKUP_INTERVAL_DAYS)
              (record Now w)) as (l & Hl & _).
  exists l. destruct (loop n _ _) as [[t|e] w1]; simpl in *; now rewrite Hl, <- app_assoc.
Qed.

(** C10, amended.  On the first turn of the loop the timer has run out: if
    the first pass of [sync] returns and the clock has not gone back since
    the process started, the script goes on by logging "Creating backup..."
    and calling [create_backup], and only then sleeps and takes its other
    turns.  Whether that call skips is then decided by the listing of the
    backup folder (and the clock) alone. *)
Theorem first_turn_calls_create_backup (n : nat) (w w2 : World) :
  let started := clock env (trace w) in
  let w3 := record (Log INFO "Creating backup...") (record Now w2) in
  sync (record (Log INFO "Starting sync operation...") (record Now w)) = (Ok tt, w2) →
  started ≤ clock env (trace w2) →
  main (S n) w
  = (last_backup_time <- (create_backup ;; datetime_now) ;;
     idle ;; loop n last_backup_time) w3
  ∧ In (Log INFO "Creating backup...") (emitted (main (S n)) w)
  ∧ ∀ files,
      listing env (trace (record Now w3)) BACKUP_FOLDER_ID = Ok files → Forall parses files →
      (skips_backup w3 ↔ Exists (within_interval (clock env (trace w3))) files).
Proof.
  intros started w3 Hs Hclock.
  set (last_backup_time := started - timedelta_days BACKUP_INTERVAL_DAYS).
  assert (Hdue : (timedelta_days BACKUP_INTERVAL_DAYS
                  <=? clock env (trace w2) - last_backup_time) = true).
  { apply Z.leb_le. unfold last_backup_time. lia. }
  assert (Hsyncing : syncing last_backup_time (record Now w)
                     = (create_backup ;; datetime_now) w3).
  { unfold syncing, logging. unfold bind at 1. unfold emit at 1.
    unfold bind at 1. rewrite Hs.
    unfold bind at 1. unfold datetime_now at 1. rewrite Hdue.
    unfold bind at 1. unfold emit at 1. reflexivity. }
  assert (Hmain : main (S n) w
                  = (last_backup_time <- (create_backup ;; datetime_now) ;;
                     idle ;; loop n last_backup_time) w3).
  { unfold main. unfold bind at 1. unfold datetime_now at 1. fold started.
    fold last_backup_time. simpl loop. unfold iteration.
    unfold bind at 1. unfold bind at 1. rewrite Hsyncing. unfold bind at 3.
    destruct ((create_backup ;; datetime_now) w3) as [[t|e] w4]; [|reflexivity].
    unfold bind, ret.
    destruct (idle w4) as [[[]|e] w5]; reflexivity. }
  split; [exact Hmain|]. split.
  - destruct (main_trace (S n) w) as (l & Hl).
    assert (Hext : ∃ l', trace (snd (main (S n) w)) = trace w3 ++ l').
    { rewrite Hmain. clear Hsyncing Hmain. clearbody w3.
      destruct (emitted_keeps any_world any_event (create_backup ;; datetime_now) w3)
        as [Hcb _]; [|done|].
      { apply keeps_bind; [|intros _; now apply keeps_datetime_now].
        apply extends_awake. intros. now apply keeps_create_backup. }
      unfold bind at 1.
      destruct ((create_backup ;; datetime_now) w3) as [[t|e] w4]; simpl in Hcb;
        [|simpl; rewrite Hcb; now eexists].
      destruct (idle_run w4) as (w5 & Hi & Ht5). unfold bind. rewrite Hi.
      destruct (loop_trace n t w5) as (l2 & Hl2 & _). rewrite Hl2, Ht5, Hcb.
      rewrite <- !app_assoc. now eexists. }
    destruct Hext as [l' Hl']. unfold emitted. rewrite Hl'.
    destruct (emitted_keeps any_world any_event sync
                (record (Log INFO "Starting sync operation...") (record Now w)))
      as [Hts _]; [apply extends_off_disk; intros; now apply keeps_sync|done|].
    rewrite Hs in Hts. simpl in Hts. subst w3. simpl. rewrite Hts. simpl.
    rewrite <- !app_assoc, drop_app_length.
    rewrite !in_app_iff. simpl. auto 10.
  - intros files Hl Hall. now apply create_backup_skips_iff.
Qed.

(** ** Further facts *)

(** *** [load_config] and [list_files_in_drive] *)

(** X1.  [load_config] opens the configuration file once and changes
    nothing.  It returns exactly when the file holds JSON, and what the
    file holds: the object, or the value that is not one; it then logs no
    error.  When it raises, it raises the exception it met, after logging
    it in one ERROR line.  The line "loaded successfully" is logged as soon
    as the file could be opened, also when its content then fails to
    parse. *)
Theorem load_config_outcomes (w : World) :
  let new := emitted load_config w in
  disk (snd (load_config w)) = disk w
  ∧ config_file (snd (load_config w)) = config_file w
  ∧ calls is_open_config new = 1%nat
  ∧ (∀ config, result load_config w = Ok (Object config) ↔
       config_file w = Json (cfg_folder_id config) (cfg_file_mappings config))
  ∧ (∀ e, result load_config w = Ok (NotSubscriptable e) ↔ config_file w = NotObject e)
  ∧ (∀ loaded, result load_config w = Ok loaded → calls is_error new = 0%nat)
  ∧ (∀ e, result load_config w = Raised e →
       calls is_error new = 1%nat
       ∧ last new = Some (Log ERROR ("Failed to load configuration file: " +:+ e))
       ∧ (config_file w = NoConfig e ∨ config_file w = BadJson e))
  ∧ (In (Log INFO "Configuration file loaded successfully.") new
     ↔ ∀ e, config_file w ≠ NoConfig e).
Proof.
  unfold result, emitted, load_config, try_except, bind, logging, emit, raise.
  destruct (config_file w) as [e|e|f m|e] eqn:Hc; simpl;
    rewrite <- ?app_assoc, drop_app_length; simpl.
  all: split; [done|]; split; [done|]; split; [done|].
  all: split; [intros config; split; intros H; try discriminate|].
  3: { injection H as <-. reflexivity. }
  3: { injection H as -> ->. now destruct config. }
  all: split; [intros e'; split; intros H; try discriminate; congruence|].
  all: split; [intros l H; try discriminate; reflexivity|].
  all: split; [intros e' H; try discriminate; injection H as <-; auto|].
  all: split.
  - intros [H|[H|[]]]; discriminate.
  - intros H. now destruct (H e).
  - intros _ e'. discriminate.
  - intros _. auto.
  - intros _ e'. discriminate.
  - intros _. auto.
  - intros _ e'. discriminate.
  - intros _. auto.
Qed.

(** X2.  [list_files_in_drive] asks the service once, for the folder it was
    given, and changes nothing locally.  It returns the list the service
    gave, as it is; when the service raises, it raises the same exception
    after one ERROR line. *)
Theorem list_files_in_drive_outcomes (folder_id : string) (w : World) :
  let new := emitted (list_files_in_drive folder_id) w in
  result (list_files_in_drive folder_id) w = listing env (trace w) folder_id
  ∧ disk (snd (list_files_in_drive folder_id w)) = disk w
  ∧ config_file (snd (list_files_in_drive folder_id w)) = config_file w
  ∧ calls is_list new = 1%nat
  ∧ hd_error new = Some (ListFiles folder_id)
  ∧ (∀ files, listing env (trace w) folder_id = Ok files → calls is_error new = 0%nat)
  ∧ (∀ e, listing env (trace w) folder_id = Raised e →
       calls is_error new = 1%nat
       ∧ last new = Some (Log ERROR ("Failed to list files in Drive: " +:+ e))).
Proof.
  unfold result, emitted, list_files_in_drive, try_except, bind, files_list, logging, emit,
    raise, ret.
  destruct (listing env (trace w) folder_id) as [files|e]; simpl;
    rewrite <- ?app_assoc, drop_app_length; simpl;
    repeat split; intros; try done; try congruence.
Qed.

(** *** The two phases of [sync] *)

Lemma os_path_isfile_run p w : os_path_isfile p w = (Ok (regular_on (disk w) p), w).
Proof. reflexivity. Qed.

(** X3.  The upload phase uploads nothing but mapped paths that are regular
    files: a mapped path that is missing, or a directory, gets no call.  It
    issues no download call and leaves the disk as it is. *)
Theorem upload_phase_regular_files_only (config : Config) (files : list DriveFile)
    (m : Mapping) (w : World) :
  let new := emitted (upload_phase config files m) w in
  disk (snd (upload_phase config files m w)) = disk w
  ∧ Forall (λ e, ∀ p, uploads p e = true →
                      In p (dict_values m) ∧ regular_on (disk w) p = true) new
  ∧ (∀ p, regular_on (disk w) p = false → calls (uploads p) new = 0%nat)
  ∧ calls is_download new = 0%nat.
Proof.
  set (P := λ e : Event, (∀ p, uploads p e = true →
                             In p (dict_values m) ∧ regular_on (disk w) p = true)
                         ∧ is_download e = false).
  assert (Hk : keeps (λ w', disk w' = disk w) P (upload_phase config files m)).
  { apply keeps_for_each. intros q Hq w' Hw'.
    cbv beta.
    match goal with |- context [snd (?prog w')] =>
      replace (prog w')
        with ((if regular_on (disk w') q
               then folder_id <- getitem "folder_id" (cfg_folder_id config) ;;
                    upload_file q files folder_id
               else ret tt) w')
        by (unfold bind at 2; rewrite os_path_isfile_run; reflexivity)
    end.
    destruct (regular_on (disk w') q) eqn:Hreg;
      [|exact (keeps_ret (λ w', disk w' = disk w) P tt w' Hw')].
    rewrite Hw' in Hreg.
    refine (keeps_bind (λ w', disk w' = disk w) P _ _ _ _ w' Hw');
      [now apply keeps_getitem|]. intros f.
    apply keeps_upload_file; [done|done| |].
    - split; [|done]. intros p Hp. simpl in Hp. apply String.eqb_eq in Hp as <-. done.
    - intros i. split; [|done]. intros p Hp. simpl in Hp.
      apply String.eqb_eq in Hp as <-. done. }
  destruct (Hk w eq_refl) as (Hd & l & Hl & HP).
  rewrite (emitted_eq _ _ _ Hl). split; [exact Hd|]. split; [|split].
  - eapply Forall_impl; [exact HP|]. now intros e [? _].
  - intros p Hp. apply calls_none. eapply Forall_impl; [exact HP|].
    intros e [He _]. destruct (uploads p e) eqn:Hu; [|done].
    destruct (He p Hu) as [_ Hr]. congruence.
  - apply calls_none. eapply Forall_impl; [exact HP|]. now intros e [_ ?].
Qed.

Lemma splits_bind {A B} (P Q : Event → Prop) (m : Prog A) (k : A → Prog B) :
  keeps any_world P m → (∀ a, splits P Q (k a)) → splits P Q (bind m k).
Proof.
  intros Hm Hk w. unfold bind.
  destruct (Hm w Logic.I) as (_ & l & Hl & HP).
  destruct (m w) as [[a|e] w1]; simpl in *.
  - destruct (Hk a w1) as (l1 & l2 & Ht & H1 & H2).
    exists (l ++ l1), l2. rewrite Ht, Hl, <- !app_assoc. split; [done|].
    split; [now apply Forall_app|done].
  - exists l, []. rewrite app_nil_r. split; [done|]. split; [done|constructor].
Qed.

Lemma splits_tail {A} (P Q : Event → Prop) (m : Prog A) :
  keeps any_world Q m → splits P Q m.
Proof.
  intros Hm w. destruct (Hm w Logic.I) as (_ & l & Hl & HQ).
  exists [], l. split; [done|]. split; [constructor|done].
Qed.

Lemma splits_try_except {A} (P Q : Event → Prop) (m : Prog A) (h : exn → Prog A) :
  splits P Q m → (∀ e, keeps any_world Q (h e)) → splits P Q (try_except m h).
Proof.
  intros Hm Hh w. unfold try_except.
  destruct (Hm w) as (l1 & l2 & Ht & H1 & H2).
  destruct (m w) as [[a|e] w1]; simpl in *.
  - now exists l1, l2.
  - destruct (Hh e w1 Logic.I) as (_ & l & Hl & HQ).
    exists l1, (l2 ++ l). rewrite Hl, Ht, <- !app_assoc. split; [done|]. split; [done|].
    now apply Forall_app.
Qed.

(** X4.  In a pass of [sync] every upload call comes before every download
    call: what the pass adds to the trace is a run without download
    followed by a run without upload, whatever the configuration, the
    service and the disk do. *)
Theorem sync_uploads_then_downloads (w : World) :
  ∃ l1 l2, emitted sync w = l1 ++ l2
           ∧ calls is_download l1 = 0%nat ∧ calls is_upload l2 = 0%nat.
Proof.
  set (P := λ e, is_download e = false). set (Q := λ e, is_upload e = false).
  assert (Hs : splits P Q sync).
  { apply splits_try_except.
    - apply splits_bind; [now apply keeps_load_config|]. intros loaded.
      apply splits_bind; [apply keeps_subscriptable|]. intros config.
      apply splits_bind; [apply keeps_getitem|]. intros f.
      apply splits_bind; [now apply keeps_list_files_in_drive|]. intros files.
      apply splits_bind; [apply keeps_getitem|]. intros m.
      apply splits_bind.
      { apply keeps_for_each. intros p _.
        apply keeps_bind; [now apply keeps_os_path_isfile|]. intros [|]; [|apply keeps_ret].
        apply keeps_bind; [apply keeps_getitem|]. intros f'. now apply keeps_upload_file. }
      intros _. apply splits_tail.
      apply keeps_bind; [|intros _; now apply keeps_logging].
      apply keeps_for_each. intros r _. unfold download_file.
      apply keeps_bind; [now apply keeps_load_config|]. intros loaded'.
      apply keeps_bind; [apply keeps_subscriptable|]. intros config'.
      apply keeps_bind; [apply keeps_getitem|]. intros m'.
      now apply keeps_download_mapped.
    - intros e. apply keeps_bind; [now apply keeps_logging|]. intros _. apply keeps_raise. }
  destruct (Hs w) as (l1 & l2 & Ht & H1 & H2). exists l1, l2.
  split; [now apply emitted_eq|]. split; now apply calls_none.
Qed.

(** *** Passes of [sync] that fail early *)

Ltac run_sync :=
  unfold sync, load_config, list_files_in_drive, files_list, getitem, logging;
  unfold emit, ret, raise, try_except, bind.

Lemma sync_no_config w e :
  config_file w = NoConfig e →
  sync w = (Raised e,
            record (Log ERROR ("Failed during sync operation: " +:+ e))
              (record (Log ERROR ("Failed to load configuration file: " +:+ e))
                 (record OpenConfig w))).
Proof. intros Hc. run_sync. now rewrite Hc. Qed.

Lemma sync_bad_json w e :
  config_file w = BadJson e →
  sync w = (Raised e,
            record (Log ERROR ("Failed during sync operation: " +:+ e))
              (record (Log ERROR ("Failed to load configuration file: " +:+ e))
                 (loaded w))).
Proof. intros Hc. run_sync. now rewrite Hc. Qed.

Lemma sync_not_object w e :
  config_file w = NotObject e →
  sync w = (Raised e,
            record (Log ERROR ("Failed during sync operation: " +:+ e)) (loaded w)).
Proof. intros Hc. run_sync. now rewrite Hc. Qed.

Lemma sync_no_folder_id w m :
  config_file w = Json None m →
  sync w = (Raised "'folder_id'",
            record (Log ERROR "Failed during sync operation: 'folder_id'") (loaded w)).
Proof. intros Hc. run_sync. now rewrite Hc. Qed.

Lemma sync_listing_fails w f m e :
  config_file w = Json (Some f) m → listing env (trace (loaded w)) f = Raised e →
  sync w = (Raised e,
            record (Log ERROR ("Failed during sync operation: " +:+ e))
              (record (Log ERROR ("Failed to list files in Drive: " +:+ e))
                 (record (ListFiles f) (loaded w)))).
Proof.
  intros Hc Hl. run_sync. rewrite Hc. simpl.
  change (trace w ++ [OpenConfig] ++ [Log INFO "Configuration file loaded successfully."])
    with (trace (loaded w)).
  change ((trace w ++ [OpenConfig]) ++ [Log INFO "Configuration file loaded successfully."])
    with (trace (loaded w)).
  now rewrite Hl.
Qed.

Lemma sync_no_file_mappings w f files :
  config_file w = Json (Some f) None → listing env (trace (loaded w)) f = Ok files →
  sync w = (Raised "'file_mappings'",
            record (Log ERROR "Failed during sync operation: 'file_mappings'")
              (listed f (loaded w))).
Proof.
  intros Hc Hl. run_sync. rewrite Hc. simpl.
  change ((trace w ++ [OpenConfig]) ++ [Log INFO "Configuration file loaded successfully."])
    with (trace (loaded w)).
  now rewrite Hl.
Qed.

(** X5.  A configuration without the key [folder_id] ends the pass with the
    [KeyError] before the service is asked anything.  A configuration with
    [folder_id] but without [file_mappings] ends it with the [KeyError]
    after the folder has been listed, and before any transfer.  In both
    cases [sync] logs the error once and the disk is untouched. *)
Theorem sync_missing_keys (w : World) :
  (∀ m, config_file w = Json None m →
     result sync w = Raised "'folder_id'"
     ∧ emitted sync w = [OpenConfig; Log INFO "Configuration file loaded successfully.";
                         Log ERROR "Failed during sync operation: 'folder_id'"]
     ∧ disk (snd (sync w)) = disk w) ∧
  (∀ f files, config_file w = Json (Some f) None →
     listing env (trace (loaded w)) f = Ok files →
     result sync w = Raised "'file_mappings'"
     ∧ emitted sync w = [OpenConfig; Log INFO "Configuration file loaded successfully.";
                         ListFiles f;
                         Log INFO ("Listed files in Google Drive folder ID " +:+ f +:+ ".");
                         Log ERROR "Failed during sync operation: 'file_mappings'"]
     ∧ disk (snd (sync w)) = disk w).
Proof.
  split.
  - intros m Hc. unfold result, emitted. rewrite (sync_no_folder_id w m Hc). simpl.
    rewrite <- !app_assoc, drop_app_length. done.
  - intros f files Hc Hl. unfold result, emitted.
    rewrite (sync_no_file_mappings w f files Hc Hl). simpl.
    rewrite <- !app_assoc, drop_app_length. done.
Qed.

Lemma sync_phases_no_listing config files m w :
  calls is_list (emitted (sync_phases config files m) w) = 0%nat.
Proof.
  apply calls_none.
  refine (proj2 (emitted_keeps any_world (λ e, is_list e = false) _ w _ Logic.I)).
  apply keeps_try_except.
  - apply keeps_bind.
    { apply keeps_for_each. intros p _.
      apply keeps_bind; [now apply keeps_os_path_isfile|]. intros [|]; [|apply keeps_ret].
      apply keeps_bind; [apply keeps_getitem|]. intros f'. now apply keeps_upload_file. }
    intros _. apply keeps_bind; [|intros _; now apply keeps_logging].
    apply keeps_for_each. intros r _. unfold download_file.
    apply keeps_bind; [now apply keeps_load_config|]. intros loaded'.
    apply keeps_bind; [apply keeps_subscriptable|]. intros config'.
    apply keeps_bind; [apply keeps_getitem|]. intros m'.
    now apply keeps_download_mapped.
  - intros e. apply keeps_bind; [now apply keeps_logging|]. intros _. apply keeps_raise.
Qed.

(** X6.  A pass of [sync] asks the service for the listing at most once,
    and exactly once when the configuration could be read and has a
    [folder_id]: the download phase decides on the listing taken before the
    uploads. *)
Theorem sync_lists_once (w : World) :
  (calls is_list (emitted sync w) ≤ 1)%nat
  ∧ (calls is_list (emitted sync w) = 1%nat
     ↔ ∃ f m, config_file w = Json (Some f) m).
Proof.
  destruct (config_file w) as [e|e|[f|] m|e] eqn:Hc.
  5:{ unfold emitted. rewrite (sync_not_object w e Hc). simpl.
      rewrite <- !app_assoc, drop_app_length. simpl. split; [lia|].
      split; [discriminate|]. intros (f & m & [=]). }
  - unfold emitted. rewrite (sync_no_config w e Hc). simpl.
    rewrite <- !app_assoc, drop_app_length. simpl. split; [lia|].
    split; [discriminate|]. intros (f & m & [=]).
  - unfold emitted. rewrite (sync_bad_json w e Hc). simpl.
    rewrite <- !app_assoc, drop_app_length. simpl. split; [lia|].
    split; [discriminate|]. intros (f & m & [=]).
  - assert (Hone : calls is_list (emitted sync w) = 1%nat).
    { destruct (listing env (trace (loaded w)) f) as [files|e] eqn:Hl.
      - destruct m as [m|].
        + rewrite (emitted_sync w f m files Hc Hl), calls_app, sync_phases_no_listing.
          reflexivity.
        + unfold emitted. rewrite (sync_no_file_mappings w f files Hc Hl). simpl.
          rewrite <- !app_assoc, drop_app_length. reflexivity.
      - unfold emitted. rewrite (sync_listing_fails w f m e Hc Hl). simpl.
        rewrite <- !app_assoc, drop_app_length. reflexivity. }
    rewrite Hone. split; [lia|]. split; [eauto|done].
  - unfold emitted. rewrite (sync_no_folder_id w m Hc). simpl.
    rewrite <- !app_assoc, drop_app_length. simpl. split; [lia|].
    split; [discriminate|]. intros (f & m' & [=]).
Qed.

(** *** Failures in the middle of a pass *)

Lemma for_each_app {A} (l1 l2 : list A) (body : A → Prog unit) w :
  for_each (l1 ++ l2) body w =
    match for_each l1 body w with
    | (Ok _, w1) => for_each l2 body w1
    | (Raised e, w1) => (Raised e, w1)
    end.
Proof.
  revert w. induction l1 as [|x l1 IH]; intros w; simpl; [done|].
  unfold bind. destruct (body x w) as [[[]|e] w1]; [apply IH|done].
Qed.

Lemma upload_phase_quiet config files m w :
  Forall (λ e, is_download e = false ∧ is_open_config e = false)
    (emitted (upload_phase config files m) w).
Proof.
  refine (proj2 (emitted_keeps any_world _ _ w _ Logic.I)).
  apply keeps_for_each. intros p _.
  apply keeps_bind; [now apply keeps_os_path_isfile|]. intros [|]; [|apply keeps_ret].
  apply keeps_bind; [apply keeps_getitem|]. intros f'.
  now apply keeps_upload_file.
Qed.

(** X7.  The first transfer that fails ends the pass.  When the upload
    phase raises, [sync] logs the error and raises it again: no record is
    looked at for download.  When [download_file] raises on a listed
    record, [sync] does the same: the records listed after it get no
    event. *)
Theorem first_failure_ends_pass (w : World) (folder_id : string) (m : Mapping)
    (files : list DriveFile) :
  config_file w = Json (Some folder_id) (Some m) →
  listing env (trace (loaded w)) folder_id = Ok files →
  let config := {| cfg_folder_id := Some folder_id; cfg_file_mappings := Some m |} in
  let w2 := listed folder_id (loaded w) in
  (∀ e w3, upload_phase config files m w2 = (Raised e, w3) →
     sync w = (Raised e, record (Log ERROR ("Failed during sync operation: " +:+ e)) w3)
     ∧ calls is_download (emitted sync w) = 0%nat
     ∧ calls is_open_config (emitted sync w) = 1%nat) ∧
  (∀ before r after e w3 w4 w5,
     files = before ++ r :: after →
     upload_phase config files m w2 = (Ok tt, w3) →
     download_phase before w3 = (Ok tt, w4) →
     download_file (name r) r w4 = (Raised e, w5) →
     sync w = (Raised e, record (Log ERROR ("Failed during sync operation: " +:+ e)) w5)).
Proof.
  intros Hc Hl config w2. split.
  - intros e w3 Hu.
    assert (Hrun : sync w = (Raised e,
                     record (Log ERROR ("Failed during sync operation: " +:+ e)) w3)).
    { rewrite (sync_run w folder_id m files Hc Hl). fold config w2.
      unfold sync_phases, try_except. now rewrite (bind_raised _ _ _ _ _ Hu). }
    split; [exact Hrun|].
    pose proof (upload_phase_quiet config files m w2) as Hq.
    destruct (emitted_keeps _ _ _ w2 (extends_upload_phase config files m) Logic.I)
      as [Ht _].
    rewrite Hu in Ht. simpl in Ht.
    assert (He : emitted sync w
                 = [OpenConfig; Log INFO "Configuration file loaded successfully.";
                    ListFiles folder_id;
                    Log INFO ("Listed files in Google Drive folder ID " +:+ folder_id
                              +:+ ".")]
                   ++ emitted (upload_phase config files m) w2
                   ++ [Log ERROR ("Failed during sync operation: " +:+ e)]).
    { apply emitted_eq. rewrite Hrun. simpl. rewrite Ht. subst w2. simpl.
      now rewrite <- !app_assoc. }
    rewrite He, !calls_app. simpl.
    repeat split;
      (rewrite calls_none; [reflexivity|]; eapply Forall_impl; [exact Hq|]; now intros ? (?&?)).
  - intros before r after e w3 w4 w5 -> Hu Hd Hr.
    rewrite (sync_run w folder_id m _ Hc Hl). fold config w2.
    unfold sync_phases, try_except. rewrite (bind_ok _ _ _ _ _ Hu).
    assert (Hp : download_phase (before ++ r :: after) w3 = (Raised e, w5)).
    { unfold download_phase in *. rewrite for_each_app, Hd. simpl.
      now rewrite (bind_raised _ _ _ _ _ Hr). }
    now rewrite (bind_raised _ _ _ _ _ Hp).
Qed.

(** *** How a pass ends *)

Lemma extends_sync : extends sync.
Proof. apply extends_off_disk. intros. now apply keeps_sync. Qed.

Lemma sync_opens_config w : (1 ≤ calls is_open_config (emitted sync w))%nat.
Proof.
  unfold sync. rewrite emitted_try_except.
  - rewrite emitted_bind.
    + rewrite !calls_app, load_config_once. lia.
    + apply extends_load_config.
    + intros loaded. apply keeps_bind; [apply keeps_subscriptable|]. intros config.
      apply keeps_bind; [apply keeps_getitem|]. intros f.
      apply keeps_bind; [now apply keeps_list_files_in_drive|]. intros files.
      apply keeps_bind; [apply keeps_getitem|]. intros m.
      apply keeps_bind; [apply extends_upload_phase|]. intros _.
      apply keeps_bind; [apply extends_download_phase|]. intros _. now apply keeps_logging.
  - apply keeps_bind; [apply extends_load_config|].
    intros loaded. apply keeps_bind; [apply keeps_subscriptable|]. intros config.
    apply keeps_bind; [apply keeps_getitem|]. intros f.
    apply keeps_bind; [now apply keeps_list_files_in_drive|]. intros files.
    apply keeps_bind; [apply keeps_getitem|]. intros m.
    apply keeps_bind; [apply extends_upload_phase|]. intros _.
    apply keeps_bind; [apply extends_download_phase|]. intros _. now apply keeps_logging.
  - intros e. apply keeps_bind; [now apply keeps_logging|]. intros _. apply keeps_raise.
Qed.

Lemma last_emitted {A} (m : Prog A) w e :
  extends m → emitted m w ≠ [] → last (trace (snd (m w))) = Some e →
  last (emitted m w) = Some e.
Proof.
  intros Hm Hne Hlast. destruct (emitted_keeps _ _ m w Hm Logic.I) as [Ht _].
  rewrite Ht, last_app in Hlast.
  destruct (last (emitted m w)) as [e'|] eqn:He; [done|].
  apply last_None in He. contradiction.
Qed.

Lemma last_record e w : last (trace (record e w)) = Some e.
Proof. simpl. apply last_snoc. Qed.

(** X8.  The last thing a pass of [sync] adds to the trace tells how it
    ended: the line "Sync operation completed." exactly when it returns,
    and the ERROR line carrying the exception when it raises. *)
Theorem sync_last_line (w : World) :
  (result sync w = Ok tt
   ↔ last (emitted sync w) = Some (Log INFO "Sync operation completed.")) ∧
  (∀ e, result sync w = Raised e
        ↔ last (emitted sync w)
          = Some (Log ERROR ("Failed during sync operation: " +:+ e))).
Proof.
  assert (Hne : emitted sync w ≠ []).
  { intros H. pose proof (sync_opens_config w) as H1. rewrite H in H1. simpl in H1. lia. }
  assert (Hcases :
    (result sync w = Ok tt
     ∧ last (emitted sync w) = Some (Log INFO "Sync operation completed."))
    ∨ ∃ e, result sync w = Raised e
           ∧ last (emitted sync w)
             = Some (Log ERROR ("Failed during sync operation: " +:+ e))).
  { assert (Hlast : ∀ e, last (trace (snd (sync w))) = Some e → last (emitted sync w) = Some e)
      by (intros e; now apply last_emitted; [apply extends_sync|]).
    assert (Hrun : (∃ w1, sync w = (Ok tt, record (Log INFO "Sync operation completed.") w1))
                   ∨ (∃ e w1, sync w = (Raised e,
                        record (Log ERROR ("Failed during sync operation: " +:+ e)) w1))).
    { unfold sync, try_except.
      match goal with |- context [let (_, _) := ?b in _] =>
        destruct b as [[[]|e] w1] eqn:Hb
      end.
      - left.
        apply bind_ok_inv in Hb as (loaded & wa & _ & Hb).
        apply bind_ok_inv in Hb as (config & wa' & _ & Hb).
        apply bind_ok_inv in Hb as (f & wb & _ & Hb).
        apply bind_ok_inv in Hb as (files & wc & _ & Hb).
        apply bind_ok_inv in Hb as (m & wd & _ & Hb).
        apply bind_ok_inv in Hb as ([] & we & _ & Hb).
        apply bind_ok_inv in Hb as ([] & wf & _ & Hb).
        injection Hb as <-. now exists wf.
      - right. now exists e, w1. }
    unfold result.
    destruct Hrun as [[w1 Hrun]|(e & w1 & Hrun)].
    - left. split; [now rewrite Hrun|]. apply Hlast. rewrite Hrun. apply last_record.
    - right. exists e. split; [now rewrite Hrun|]. apply Hlast. rewrite Hrun.
      apply last_record. }
  split; [|intros e]; split.
  - intros Hok. destruct Hcases as [[_ H]|(e & He & _)]; [done|congruence].
  - intros Hl. destruct Hcases as [[H _]|(e & _ & He)]; [done|congruence].
  - intros Hr. destruct Hcases as [[H _]|(e' & He & Hl)]; [congruence|].
    rewrite Hr in He. now injection He as ->.
  - intros Hl. destruct Hcases as [[_ H]|(e' & He & Hl')]; [congruence|].
    rewrite Hl in Hl'. injection Hl' as Heq.
    change (e = e') in Heq. now subst.
Qed.

(** *** What a pass does to the disk *)

(** X9.  A pass of [sync] never removes a local file: whatever was on the
    disk before is still there after, however the pass ends, and no
    [os.remove] is issued.  It writes only where it downloads: a path into
    which the pass issued no download call is after the pass exactly as it
    was before. *)
Theorem sync_writes_only_download_targets (w : World) :
  (∀ q, is_Some (disk w !! q) → is_Some (disk (snd (sync w)) !! q))
  ∧ calls is_remove (emitted sync w) = 0%nat
  ∧ (∀ q, (∀ i, ¬ In (Download i q) (emitted sync w)) →
          disk (snd (sync w)) !! q = disk w !! q).
Proof.
  split; [|split].
  - intros q Hq.
    refine (proj1 (keeps_sync (λ w', is_Some (disk w' !! q)) any_event _ _ _ w Hq));
      [done| |done].
    intros p mtime c w' Hw'. simpl. destruct (decide (p = q)) as [->|Hne].
    + rewrite lookup_insert_eq. eauto.
    + now rewrite lookup_insert_ne.
  - apply calls_none.
    refine (proj2 (emitted_keeps any_world (λ e, is_remove e = false) _ w _ Logic.I)).
    apply keeps_sync; [done|done|]. now intros [].
  - intros q Hno. now apply (sync_writes_by_download w q Hno).
Qed.

(** *** One file, two directions *)

(** X10.  For a file that both directions match with the same listed record,
    the two decisions exclude each other: whatever the [modifiedTime] of
    the record, [upload_file] and [download_file] together issue at most
    one transfer call for it.  When the host converts the [modifiedTime] to
    the number [ts], [upload_file] issues its one update call exactly when
    the local time is above [ts], [download_file] its one download call
    exactly when it is below [ts], and neither exactly when the two are
    equal.  When the [modifiedTime] does not parse or cannot be converted,
    neither call is issued. *)
Theorem one_direction_at_most (w w' : World) (folder_id : string) (f : option string)
    (m : Mapping) (files : list DriveFile) (r : DriveFile) (p : string) (st : Stat) :
  disk w !! p = Some st → disk w' !! p = Some st →
  config_file w' = Json f (Some m) →
  first_named (basename p) files = Some r → dict_get m (name r) = Some p → p ≠ "" →
  let up := calls is_upload (emitted (upload_file p files folder_id) w) in
  let down := calls is_download (emitted (download_file (name r) r) w') in
  (up + down ≤ 1)%nat
  ∧ (∀ ts, converts r ts →
       (up = 1%nat ↔ ts < st_mtime st)
       ∧ (down = 1%nat ↔ st_mtime st < ts)
       ∧ ((up + down)%nat = 0%nat ↔ ts = st_mtime st))
  ∧ (∀ e, unconvertible r e → up = 0%nat ∧ down = 0%nat).
Proof.
  intros Hd Hd' Hc Hn Hg Hp up down.
  assert (Hconv : ∀ ts, converts r ts →
            ((ts < st_mtime st ∧ up = 1%nat) ∨ (st_mtime st ≤ ts ∧ up = 0%nat))
            ∧ ((st_mtime st < ts ∧ down = 1%nat) ∨ (ts ≤ st_mtime st ∧ down = 0%nat))).
  { intros ts (t & Ht & Hts). split.
    - subst up. destruct (Z_lt_le_dec ts (st_mtime st)) as [Hlt|Hle].
      + left. split; [done|].
        emitted_run (upload_file_updates w p files folder_id st r t ts Hd Hn Ht Hts Hlt);
          reflexivity.
      + right. split; [done|].
        emitted_run (upload_file_up_to_date w p files folder_id st r t ts Hd Hn Ht Hts Hle).
        reflexivity.
    - subst down. destruct (Z_lt_le_dec (st_mtime st) ts) as [Hlt|Hle].
      + left. split; [done|].
        assert (Hna : newer_or_absent w' p ts)
          by (unfold newer_or_absent; now rewrite Hd').
        emitted_run (download_file_transfers w' f m (name r) r p t ts Hc Hg Hp Ht Hts Hna);
          reflexivity.
      + right. split; [done|].
        emitted_run (download_file_up_to_date w' f m (name r) r p t ts st
                       Hc Hg Hp Ht Hts Hd' Hle).
        reflexivity. }
  assert (Hbad : ∀ e, unconvertible r e → up = 0%nat ∧ down = 0%nat).
  { intros e He. split.
    - subst up.
      emitted_run (upload_file_unconvertible w p files folder_id st r e Hd Hn He).
      reflexivity.
    - subst down.
      emitted_run (download_file_bad_time w' f m (name r) r p e Hc Hg Hp He).
      reflexivity. }
  split; [|split; [|exact Hbad]].
  - destruct (converts_or_not r) as [[ts Hts]|[e He]].
    + destruct (Hconv ts Hts) as [[[H1 ->]|[H1 ->]] [[H2 ->]|[H2 ->]]]; lia.
    + destruct (Hbad e He) as [-> ->]. lia.
  - intros ts Hts.
    destruct (Hconv ts Hts) as [[[H1 ->]|[H1 ->]] [[H2 ->]|[H2 ->]]];
      repeat split; intros; try lia; try discriminate.
Qed.

(** *** A pass over an empty folder, a pass with nothing mapped *)

Lemma regular_on_Some d p : regular_on d p = true → ∃ st, d !! p = Some st.
Proof. unfold regular_on. destruct (d !! p); [eauto|discriminate]. Qed.

Lemma upload_phase_empty_listing config folder_id paths :
  cfg_folder_id config = Some folder_id →
  ∀ w w1,
    for_each paths (λ file_path,
      is_file <- os_path_isfile file_path ;;
      if is_file then
        folder_id <- getitem "folder_id" (cfg_folder_id config) ;;
        upload_file file_path [] folder_id
      else ret tt) w = (Ok tt, w1) →
    disk w1 = disk w ∧ config_file w1 = config_file w
    ∧ trace w1 = trace w ++ creations folder_id (disk w) paths.
Proof.
  intros Hf. induction paths as [|p paths IH]; intros w w1 Hrun; simpl in *.
  - injection Hrun as <-. now rewrite app_nil_r.
  - apply bind_ok_inv in Hrun as ([] & w2 & Hp & Hrest).
    apply bind_ok_inv in Hp as (is_file & w3 & Hi & Hp).
    rewrite os_path_isfile_run in Hi. injection Hi as <- <-.
    destruct (regular_on (disk w) p) eqn:Hreg.
    + rewrite Hf in Hp. simpl in Hp. unfold bind, ret in Hp. simpl in Hp.
      destruct (regular_on_Some _ _ Hreg) as [st Hst].
      rewrite (upload_file_creates w p [] folder_id st Hst eq_refl) in Hp.
      cbv zeta in Hp. destruct (create_reply _ _ _ _ _); [discriminate|].
      injection Hp as <-.
      destruct (IH _ _ Hrest) as (Hd & Hc & Ht). simpl in *.
      split; [done|]. split; [done|]. rewrite Ht, <- !app_assoc. reflexivity.
    + injection Hp as <-. exact (IH _ _ Hrest).
Qed.

Lemma calls_creations folder_id d paths :
  calls is_create (creations folder_id d paths)
  = length (List.filter (regular_on d) paths)
  ∧ calls is_update (creations folder_id d paths) = 0%nat
  ∧ calls is_download (creations folder_id d paths) = 0%nat.
Proof.
  induction paths as [|p paths (IH1 & IH2 & IH3)]; simpl; [done|].
  destruct (regular_on d p); simpl; rewrite ?IH1; auto.
Qed.

(** X11.  A pass over an empty remote folder that returns has done exactly
    this: read the configuration, listed the folder, created one remote
    file for each mapped path that is a regular file, in the order of the
    mapping and under its basename, and logged its end.  It has updated and
    downloaded nothing and left the disk as it was. *)
Theorem empty_folder_pass (w : World) (folder_id : string) (m : Mapping) :
  config_file w = Json (Some folder_id) (Some m) →
  listing env (trace (loaded w)) folder_id = Ok [] →
  result sync w = Ok tt →
  emitted sync w
  = [OpenConfig; Log INFO "Configuration file loaded successfully."; ListFiles folder_id;
     Log INFO ("Listed files in Google Drive folder ID " +:+ folder_id +:+ ".")]
    ++ creations folder_id (disk w) (dict_values m)
    ++ [Log INFO "Sync operation completed."]
  ∧ calls is_create (emitted sync w)
    = length (List.filter (regular_on (disk w)) (dict_values m))
  ∧ calls is_update (emitted sync w) = 0%nat
  ∧ calls is_download (emitted sync w) = 0%nat
  ∧ disk (snd (sync w)) = disk w.
Proof.
  intros Hc Hl Hok. unfold result in Hok.
  pose proof (sync_run w folder_id m [] Hc Hl) as Hrun. rewrite Hrun in Hok.
  unfold sync_phases, try_except in Hok, Hrun.
  match type of Hok with context [let (_, _) := ?b in _] =>
    destruct b as [[[]|e] w1] eqn:Hb
  end.
  2:{ unfold bind, logging, emit, raise in Hok. discriminate. }
  apply bind_ok_inv in Hb as ([] & w3 & Hu & Hb).
  unfold download_phase in Hb. simpl in Hb. unfold bind, ret, logging, emit in Hb.
  injection Hb as <-.
  destruct (upload_phase_empty_listing
              {| cfg_folder_id := Some folder_id; cfg_file_mappings := Some m |}
              folder_id (dict_values m) eq_refl _ _ Hu) as (Hd & _ & Ht).
  assert (He : emitted sync w
    = [OpenConfig; Log INFO "Configuration file loaded successfully."; ListFiles folder_id;
       Log INFO ("Listed files in Google Drive folder ID " +:+ folder_id +:+ ".")]
      ++ creations folder_id (disk w) (dict_values m)
      ++ [Log INFO "Sync operation completed."]).
  { apply emitted_eq. rewrite Hrun. simpl. rewrite Ht. simpl.
    now rewrite <- !app_assoc. }
  destruct (calls_creations folder_id (disk w) (dict_values m)) as (H1 & H2 & H3).
  split; [exact He|]. rewrite He, !calls_app, H1, H2, H3. simpl.
  repeat split; try lia. now rewrite Hrun.
Qed.

Lemma download_phase_unnamed f m files :
  (∀ r, In r files → ¬ In (name r) (map fst m)) →
  ∀ w, config_file w = Json f (Some m) →
    ∃ w1, download_phase files w = (Ok tt, w1)
          ∧ disk w1 = disk w ∧ config_file w1 = config_file w
          ∧ trace w1 = trace w ++ warnings files.
Proof.
  unfold download_phase.
  induction files as [|r files IH]; intros Hk w Hc; simpl.
  - exists w. now rewrite app_nil_r.
  - assert (Hf : falsy (dict_get m (name r)) = true).
    { assert (Hn : dict_get m (name r) = None) by (apply dict_get_None, Hk; now left).
      now rewrite Hn. }
    rewrite (bind_ok _ _ _ _ _ (download_file_unmapped w f m (name r) r Hc Hf)).
    destruct (IH (λ r' Hr', Hk r' (or_intror Hr'))
                (record (Log WARNING ("File " +:+ name r +:+ " is not mapped for local sync."))
                   (loaded w)) Hc) as (w1 & -> & Hd & Hc1 & Ht).
    exists w1. split; [done|]. split; [done|]. split; [done|].
    rewrite Ht. simpl. now rewrite <- !app_assoc.
Qed.

Lemma calls_warnings files :
  calls is_warning (warnings files) = length files
  ∧ calls is_transfer (warnings files) = 0%nat.
Proof. induction files as [|r files [IH1 IH2]]; simpl; [done|]. now rewrite IH1. Qed.

(** X12.  Listed records whose names are not keys of the mapping cost one
    read of the configuration and one warning each, and nothing else: the
    download phase returns, has transferred nothing and has left the disk
    as it was.  So a pass with an empty mapping warns once for each listed
    record and returns. *)
Theorem unnamed_records_only_warn (w : World) (f : option string) (m : Mapping)
    (files : list DriveFile) :
  config_file w = Json f (Some m) →
  (∀ r, In r files → ¬ In (name r) (map fst m)) →
  result (download_phase files) w = Ok tt
  ∧ emitted (download_phase files) w = warnings files
  ∧ calls is_warning (emitted (download_phase files) w) = length files
  ∧ calls is_transfer (emitted (download_phase files) w) = 0%nat
  ∧ disk (snd (download_phase files w)) = disk w
  ∧ (∀ folder_id, f = Some folder_id → m = [] →
       listing env (trace (loaded w)) folder_id = Ok files →
       result sync w = Ok tt
       ∧ calls is_warning (emitted sync w) = length files
       ∧ calls is_transfer (emitted sync w) = 0%nat).
Proof.
  intros Hc Hk.
  destruct (download_phase_unnamed f m files Hk w Hc) as (w1 & Hrun & Hd & _ & Ht).
  destruct (calls_warnings files) as [Hw Hn].
  assert (He : emitted (download_phase files) w = warnings files)
    by (apply emitted_eq; now rewrite Hrun).
  unfold result. rewrite He, Hrun.
  split; [done|]. split; [done|]. split; [done|]. split; [done|]. split; [done|].
  - intros folder_id -> -> Hl. clear w1 Hrun Hd Ht He.
    pose proof (sync_run w folder_id [] files Hc Hl) as Hrun.
    set (w2 := listed folder_id (loaded w)) in *.
    destruct (download_phase_unnamed (Some folder_id) [] files Hk w2 Hc)
      as (w3 & Hdown & _ & _ & Ht).
    assert (Hsync : sync w = (Ok tt, record (Log INFO "Sync operation completed.") w3)).
    { rewrite Hrun. unfold sync_phases, try_except, upload_phase. simpl.
      unfold bind at 1. unfold ret at 1. now rewrite (bind_ok _ _ _ _ _ Hdown). }
    assert (He : emitted sync w
      = [OpenConfig; Log INFO "Configuration file loaded successfully.";
         ListFiles folder_id;
         Log INFO ("Listed files in Google Drive folder ID " +:+ folder_id +:+ ".")]
        ++ warnings files ++ [Log INFO "Sync operation completed."]).
    { apply emitted_eq. rewrite Hsync. simpl. rewrite Ht. subst w2. simpl.
      now rewrite <- !app_assoc. }
    rewrite He, Hsync, !calls_app, Hw, Hn. simpl. repeat split; lia.
Qed.

(** *** The latest backup *)

Lemma most_recent_from acc ta files :
  strptime (modifiedTime acc) = Ok ta → Forall parses files →
  (most_recent (Some acc) files = Ok (Some acc)
   ∧ ∀ r' t', In r' files → strptime (modifiedTime r') = Ok t' → t' ≤ ta)
  ∨ ∃ before r after t,
      files = before ++ r :: after
      ∧ most_recent (Some acc) files = Ok (Some r)
      ∧ strptime (modifiedTime r) = Ok t ∧ ta < t
      ∧ (∀ r' t', In r' before → strptime (modifiedTime r') = Ok t' → t' < t)
      ∧ (∀ r' t', In r' after → strptime (modifiedTime r') = Ok t' → t' ≤ t).
Proof.
  intros Ha Hall. revert acc ta Ha.
  induction files as [|file rest IH]; intros acc ta Ha; simpl.
  - left. split; [done|]. intros r' t' [].
  - apply Forall_cons in Hall as [[tf Hf] Hrest]. rewrite Hf, Ha.
    destruct (Z.ltb_spec ta tf) as [Hlt|Hge].
    + right. destruct (IH Hrest file tf Hf) as [[Hrun Hle]|(b & r & a & t & -> & Hrun & Ht & Hlt' & Hb & Hafter)].
      * exists [], file, rest, tf. repeat split; try done.
      * exists (file :: b), r, a, t. repeat split; try done; [lia|].
        intros r' t' [<-|Hin] Hp; [|now apply (Hb r')].
        rewrite Hf in Hp. injection Hp as <-. done.
    + destruct (IH Hrest acc ta Ha) as [[Hrun Hle]|(b & r & a & t & -> & Hrun & Ht & Hlt' & Hb & Hafter)].
      * left. split; [done|]. intros r' t' [<-|Hin] Hp; [|now apply (Hle r')].
        rewrite Hf in Hp. injection Hp as <-. done.
      * right. exists (file :: b), r, a, t. repeat split; try done.
        intros r' t' [<-|Hin] Hp; [|now apply (Hb r')].
        rewrite Hf in Hp. injection Hp as <-. lia.
Qed.

(** X13.  The loop of [create_backup] that looks for the most recent backup
    returns [None] on an empty listing, and otherwise the listed record
    with the latest time, the first of them when several share it: every
    record listed before it is strictly older, every record listed after it
    is not newer. *)
Theorem most_recent_is_first_latest (files : list DriveFile) :
  Forall parses files →
  (files = [] → most_recent None files = Ok None) ∧
  (files ≠ [] →
   ∃ before r after t,
     files = before ++ r :: after
     ∧ most_recent None files = Ok (Some r)
     ∧ strptime (modifiedTime r) = Ok t
     ∧ (∀ r' t', In r' before → strptime (modifiedTime r') = Ok t' → t' < t)
     ∧ (∀ r' t', In r' after → strptime (modifiedTime r') = Ok t' → t' ≤ t)).
Proof.
  intros Hall. split; [now intros ->|]. intros Hne.
  destruct files as [|file rest]; [done|]. clear Hne.
  apply Forall_cons in Hall as [[tf Hf] Hrest]. simpl. rewrite Hf.
  destruct (most_recent_from file tf rest Hf Hrest)
    as [[Hrun Hle]|(b & r & a & t & -> & Hrun & Ht & Hlt & Hb & Hafter)].
  - exists [], file, rest, tf. repeat split; try done.
  - exists (file :: b), r, a, t. repeat split; try done.
    intros r' t' [<-|Hin] Hp; [|now apply (Hb r')].
    rewrite Hf in Hp. injection Hp as <-. done.
Qed.

Lemma most_recent_unparsable before r after e :
  Forall parses before → strptime (modifiedTime r) = Raised e →
  ∀ acc, (∀ a, acc = Some a → parses a) →
         most_recent acc (before ++ r :: after) = Raised e.
Proof.
  intros Hall Hr. induction before as [|file rest IH]; intros acc Hacc; simpl.
  - now rewrite Hr.
  - apply Forall_cons in Hall as [[tf Hf] Hrest]. rewrite Hf.
    assert (Hsome : ∀ a, Some file = Some a → parses a) by (intros a [= <-]; now exists tf).
    destruct acc as [recent|]; [|now apply IH].
    destruct (Hacc recent eq_refl) as [tr ->].
    destruct (tr <? tf); now apply IH.
Qed.

(** X14.  One listed backup whose time does not parse is enough to make
    [create_backup] raise, wherever it stands in the listing and however
    recent the others are: the [ValueError] of the first such record leaves
    [create_backup] unlogged, nothing is archived and nothing uploaded. *)
Theorem unparsable_backup_time_raises (w : World) (before after : list DriveFile)
    (r : DriveFile) (e : exn) :
  listing env (trace (record Now w)) BACKUP_FOLDER_ID = Ok (before ++ r :: after) →
  Forall parses before → strptime (modifiedTime r) = Raised e →
  create_backup w = (Raised e, listed BACKUP_FOLDER_ID (record Now w))
  ∧ calls is_error (emitted create_backup w) = 0%nat
  ∧ calls is_archive (emitted create_backup w) = 0%nat
  ∧ calls is_upload (emitted create_backup w) = 0%nat.
Proof.
  intros Hl Hall Hr.
  assert (Hrun : create_backup w = (Raised e, listed BACKUP_FOLDER_ID (record Now w))).
  { unfold create_backup, datetime_now, lift, bind.
    rewrite (list_files_in_drive_ok _ _ _ Hl).
    now rewrite (most_recent_unparsable before r after e Hall Hr None). }
  split; [exact Hrun|]. unfold emitted. rewrite Hrun. simpl.
  rewrite <- !app_assoc, drop_app_length. done.
Qed.

(** *** The archive *)

Lemma zip_members_run files w :
  zip_members files w = (Ok (members_on (disk w) files), w).
Proof.
  induction files as [|file_path rest IH]; [reflexivity|].
  simpl. unfold bind, os_path_exists, ret. rewrite IH.
  unfold members_on, present_on. simpl.
  now destruct (bool_decide (is_Some (disk w !! file_path))).
Qed.

Lemma build_archive_run path w f m mtime :
  config_file w = Json f (Some m) →
  zip_open_reply env (trace (loaded w)) path = Ok mtime →
  let w1 := write_stat path mtime (reads_as env (trace (loaded w)) path)
              (record (ZipOpen path) (loaded w)) in
  let members := members_on (disk w1) (dict_values m) in
  let w2 := write_stat path (fst (zip_write_reply env (trace w1) path members))
              (reads_as env (trace w1) path) (record (ZipWrite path members) w1) in
  build_archive path w =
    match snd (zip_write_reply env (trace w1) path members) with
    | None => (Ok tt, record (Log INFO ("Backup created locally: " +:+ path)) w2)
    | Some e => (Raised e, w2)
    end.
Proof.
  intros Hc Hopen w1 members w2. unfold build_archive.
  rewrite (bind_ok _ _ _ _ _ (load_config_json w f (Some m) Hc)).
  unfold subscriptable, getitem, cfg_file_mappings, ret. unfold bind at 1. unfold bind at 1.
  assert (Ho : zip_open path (loaded w) = (Ok tt, w1)).
  { unfold zip_open. now rewrite Hopen. }
  rewrite (bind_ok _ _ _ _ _ Ho).
  rewrite (bind_ok _ _ _ _ _ (zip_members_run (dict_values m) w1)).
  fold members. unfold bind, zip_write, logging, emit. subst w2.
  destruct (zip_write_reply env (trace w1) path members) as [mt2 [e|]]; reflexivity.
Qed.

(** X15.  Once the configuration is read and the archive opened,
    [create_backup] writes into the archive every mapped path that exists,
    in the order of the mapping and under its basename, and nothing else: a
    mapped path that is missing is left out without a word (no log line, no
    error), so the events of [build_archive] are the same four whatever is
    missing, followed by the line that reports the archive when the write
    succeeds. *)
Theorem archive_holds_existing_paths (path : string) (w : World) (f : option string)
    (m : Mapping) (mtime : Z) :
  config_file w = Json f (Some m) →
  zip_open_reply env (trace (loaded w)) path = Ok mtime →
  let members := members_on (<[path := {| st_kind := RegularFile; st_mtime := mtime |}]> (disk w))
                   (dict_values m) in
  emitted (build_archive path) w
  = [OpenConfig; Log INFO "Configuration file loaded successfully.";
     ZipOpen path; ZipWrite path members]
    ++ match result (build_archive path) w with
       | Ok _ => [Log INFO ("Backup created locally: " +:+ path)]
       | Raised _ => []
       end
  ∧ (∀ p, p ≠ path →
       In (p, basename p) members ↔ In p (dict_values m) ∧ is_Some (disk w !! p))
  ∧ (∀ p n, In (p, n) members → In p (dict_values m) ∧ n = basename p)
  ∧ (length members ≤ length m)%nat.
Proof.
  intros Hc Hopen members.
  pose proof (build_archive_run path w f m mtime Hc Hopen) as Hrun.
  cbv zeta in Hrun. simpl disk in Hrun. fold members in Hrun.
  split; [|split; [|split]].
  - unfold emitted, result. rewrite Hrun.
    destruct (snd (zip_write_reply _ _ _ _)); simpl;
      rewrite <- !app_assoc; now rewrite drop_app_length.
  - intros p Hp. unfold members, members_on. rewrite in_map_iff. split.
    + intros (q & [= <- _] & Hin). apply List.filter_In in Hin as [Hin Hpr].
      split; [done|]. unfold present_on in Hpr. apply bool_decide_eq_true_1 in Hpr.
      now rewrite lookup_insert_ne in Hpr.
    + intros [Hin Hsome]. exists p. split; [done|]. apply List.filter_In. split; [done|].
      unfold present_on. apply bool_decide_eq_true_2. now rewrite lookup_insert_ne.
  - intros p n Hin. unfold members, members_on in Hin. apply in_map_iff in Hin as (q & [= <- <-] & Hin).
    apply List.filter_In in Hin as [Hin _]. done.
  - unfold members, members_on, dict_values. rewrite length_map.
    etransitivity; [apply List.filter_length_le|]. now rewrite length_map.
Qed.

Lemma build_archive_frame path w :
  (∀ p, p ≠ path → disk (snd (build_archive path w)) !! p = disk w !! p)
  ∧ (path ≠ CONFIG_FILE → config_file (snd (build_archive path w)) = config_file w).
Proof.
  destruct (config_file w) as [e|e|f [m|]|e] eqn:Hc.
  1,2,4,5: unfold build_archive, bind, load_config, try_except, subscriptable, getitem,
             logging, emit, raise;
           rewrite Hc; simpl; now rewrite ?Hc.
  destruct (zip_open_reply env (trace (loaded w)) path) as [mtime|e] eqn:Hopen.
  - rewrite (build_archive_run path w f m mtime Hc Hopen). cbv zeta. split.
    + intros p Hp.
      destruct (snd (zip_write_reply _ _ _ _)); simpl; now rewrite !lookup_insert_ne.
    + intros Hp. apply String.eqb_neq in Hp.
      destruct (snd (zip_write_reply _ _ _ _)); simpl; now rewrite Hp.
  - unfold build_archive.
    rewrite (bind_ok _ _ _ _ _ (load_config_json w f (Some m) Hc)).
    unfold subscriptable, getitem, cfg_file_mappings, ret, bind, zip_open.
    now rewrite Hopen.
Qed.

Lemma upload_file_config p files f w :
  config_file (snd (upload_file p files f w)) = config_file w.
Proof.
  now destruct (keeps_upload_file (λ w', config_file w' = config_file w) any_event
                  ltac:(done) p files f ltac:(done) ltac:(done) ltac:(done) w eq_refl).
Qed.

Lemma backup_path_not_config now : backup_path now ≠ CONFIG_FILE.
Proof. unfold backup_path, CONFIG_FILE. discriminate. Qed.

Lemma backup_archive_frame now files w :
  (∀ p, p ≠ backup_path now →
        disk (snd (backup_archive now files w)) !! p = disk w !! p)
  ∧ config_file (snd (backup_archive now files w)) = config_file w
  ∧ (result (backup_archive now files) w = Ok tt →
     disk (snd (backup_archive now files w)) !! backup_path now = None).
Proof.
  pose proof (backup_path_not_config now) as Hnc.
  destruct (build_archive_frame (backup_path now) w) as [Hf Hfc].
  specialize (Hfc Hnc). apply String.eqb_neq in Hnc.
  destruct (build_archive (backup_path now) w) as [[[]|e] w2] eqn:Hb.
  - rewrite (backup_archive_after_build now files w w2 Hb). unfold result.
    rewrite (backup_archive_after_build now files w w2 Hb).
    destruct (upload_file_frame (backup_path now) files BACKUP_FOLDER_ID w2)
      as (l & _ & Hdisk & _).
    pose proof (upload_file_config (backup_path now) files BACKUP_FOLDER_ID w2) as Hcfg.
    destruct (upload_file _ _ _ w2) as [[[]|e] w3]; simpl in *.
    + split; [|split; [now rewrite Hcfg|intros _; apply lookup_delete_eq]].
      intros p Hp. rewrite lookup_delete_ne by done. rewrite Hdisk. now apply Hf.
    + split; [|split; [now rewrite Hcfg|discriminate]].
      intros p Hp. rewrite Hdisk. now apply Hf.
  - unfold result, backup_archive, try_except, bind. rewrite Hb. simpl in *.
    split; [exact Hf|]. split; [exact Hfc|discriminate].
Qed.

Lemma create_backup_cases w :
  let now := clock env (trace w) in
  ∃ w2, disk w2 = disk w ∧ config_file w2 = config_file w
        ∧ ((∃ r, create_backup w = (r, w2))
           ∨ ∃ files, create_backup w = backup_archive now files w2).
Proof.
  intros now. unfold create_backup, datetime_now, bind at 1.
  unfold list_files_in_drive, files_list, try_except, bind, logging, emit, raise, ret, lift.
  simpl. fold now.
  destruct (listing env _ BACKUP_FOLDER_ID) as [files|e]; simpl.
  2:{ eexists. split; [|split; [|left; eexists; reflexivity]]; done. }
  destruct (most_recent None files) as [[recent|]|e]; simpl.
  - destruct (strptime (modifiedTime recent)) as [t|e]; simpl.
    + destruct (_ <? _).
      * eexists. split; [|split; [|left; eexists; reflexivity]]; done.
      * eexists. split; [|split; [|right; eexists; reflexivity]]; done.
    + eexists. split; [|split; [|left; eexists; reflexivity]]; done.
  - eexists. split; [|split; [|right; eexists; reflexivity]]; done.
  - eexists. split; [|split; [|left; eexists; reflexivity]]; done.
Qed.

(** X16.  [create_backup] changes nothing on the disk but its own archive
    [/tmp/backup_<stamp>.zip]: whether it returns or raises, every other
    path and the configuration are as they were; and when it returns, the
    archive is gone too, so that the disk is the one it started from, less
    whatever stood at the path of the archive when a backup was made. *)
Theorem create_backup_touches_only_its_archive (w : World) :
  let path := backup_path (clock env (trace w)) in
  let w' := snd (create_backup w) in
  config_file w' = config_file w
  ∧ (∀ p, p ≠ path → disk w' !! p = disk w !! p)
  ∧ (result create_backup w = Ok tt →
     disk w' = disk w ∨ disk w' = delete path (disk w)).
Proof.
  intros path w'. subst w'. unfold result.
  destruct (create_backup_cases w) as (w2 & Hd & Hc & [[r Hrun]|[files Hrun]]); rewrite Hrun.
  - simpl. split; [done|]. split; [intros; now rewrite Hd|]. intros _. now left.
  - destruct (backup_archive_frame (clock env (trace w)) files w2) as (Hoff & Hcfg & Hat).
    fold path in Hoff, Hat. split; [now rewrite Hcfg|]. split.
    + intros p Hp. rewrite <- Hd. now apply Hoff.
    + intros Hok. right. apply map_eq. intros p.
      destruct (decide (p = path)) as [->|Hp].
      * rewrite lookup_delete_eq. now apply Hat.
      * rewrite lookup_delete_ne by done. rewrite <- Hd. now apply Hoff.
Qed.

(** *** The name of the archive *)

Lemma list_ascii_of_string_app a b :
  list_ascii_of_string (a +:+ b) = list_ascii_of_string a ++ list_ascii_of_string b.
Proof.
  induction a as [|c a IH]; [reflexivity|].
  change (String c a +:+ b) with (String c (a +:+ b)). simpl. now rewrite IH.
Qed.

Lemma slashless_app a b : slashless (a +:+ b) = slashless a && slashless b.
Proof.
  unfold slashless. rewrite list_ascii_of_string_app, existsb_app.
  now destruct (existsb _ (list_ascii_of_string a)).
Qed.

Lemma basename_slashless s : slashless s = true → basename s = s.
Proof.
  unfold slashless. destruct s as [|c rest]; [reflexivity|].
  intros H. cbn [list_ascii_of_string existsb] in H.
  apply negb_true_iff, orb_false_iff in H as [Hc Hrest].
  unfold basename. fold basename.
  now rewrite Ascii.eqb_sym, Hc, Hrest.
Qed.

Lemma basename_tmp s : slashless s = true → basename ("/tmp" +:+ "/" +:+ s) = s.
Proof.
  intros Hs. change ("/tmp" +:+ "/" +:+ s) with (String "/" (String "t" (String "m"
    (String "p" (String "/" s))))).
  unfold basename. fold basename. simpl.
  now apply basename_slashless.
Qed.

Lemma basename_backup_path now :
  slashless (strftime now) = true →
  basename (backup_path now) = "backup_" +:+ strftime now +:+ ".zip".
Proof.
  intros Hs. unfold backup_path. apply basename_tmp.
  now rewrite !slashless_app, Hs.
Qed.

(** X17.  The archive of a backup made at [now] is uploaded under the name
    [backup_<stamp>.zip], the last component of the path
    [/tmp/backup_<stamp>.zip] it was written at, whenever the stamp printed
    by [strftime] holds no slash.  When no listed backup has that name, the
    upload is one create call in the backup folder; when one has, however
    old, no file is created: the archive is compared with that record as
    any synced file would be. *)
Theorem backup_uploaded_under_stamp (now : Z) (files : list DriveFile) (w w2 : World) :
  slashless (strftime now) = true →
  build_archive (backup_path now) w = (Ok tt, w2) →
  let file_name := "backup_" +:+ strftime now +:+ ".zip" in
  let new := emitted (backup_archive now files) w in
  basename (backup_path now) = file_name
  ∧ (first_named file_name files = None →
     calls is_create new = 1%nat ∧ calls is_update new = 0%nat
     ∧ In (Create file_name BACKUP_FOLDER_ID (backup_path now)) new)
  ∧ (is_Some (first_named file_name files) → calls is_create new = 0%nat).
Proof.
  intros Hs Hb file_name new. subst new.
  pose proof (basename_backup_path now Hs) as Hname. fold file_name in Hname.
  split; [exact Hname|].
  destruct (build_archive_ok _ _ _ Hb) as (members & mtime & Ht & Hd & _).
  pose proof (backup_archive_after_build now files w w2 Hb) as Hrun.
  split.
  - intros Hnone. rewrite <- Hname in Hnone.
    rewrite (upload_file_creates w2 (backup_path now) files BACKUP_FOLDER_ID _ Hd Hnone)
      in Hrun.
    cbv zeta in Hrun. rewrite Hname in Hrun. unfold emitted. rewrite Hrun.
    destruct (create_reply _ _ _ _ _); simpl;
      rewrite Ht; simpl; rewrite <- !app_assoc, drop_app_length; simpl;
      repeat split; auto 20.
  - intros [r Hr]. rewrite <- Hname in Hr. unfold emitted.
    destruct (converts_or_not r) as [(ts & t & Hp & Hts)|[e Hbad]].
    + destruct (Z.le_gt_cases (mtime) ts) as [Hle|Hlt].
      * rewrite (upload_file_up_to_date w2 (backup_path now) files BACKUP_FOLDER_ID _ r t ts
                   Hd Hr Hp Hts Hle) in Hrun.
        rewrite Hrun. simpl. rewrite Ht, <- !app_assoc, drop_app_length. reflexivity.
      * rewrite (upload_file_updates w2 (backup_path now) files BACKUP_FOLDER_ID _ r t ts
                   Hd Hr Hp Hts Hlt) in Hrun.
        cbv zeta in Hrun. rewrite Hrun.
        destruct (update_reply _ _ _ _); simpl;
          rewrite Ht, <- !app_assoc, drop_app_length; reflexivity.
    + rewrite (upload_file_unconvertible w2 (backup_path now) files BACKUP_FOLDER_ID _ r e
                 Hd Hr Hbad) in Hrun.
      rewrite Hrun. simpl. rewrite Ht, <- !app_assoc, drop_app_length. reflexivity.
Qed.

(** *** Failures of a transfer *)

(** X18.  [upload_file] reads the time of the local file before its [try]
    block: on a path that does not exist it raises the [OSError] of
    [os.path.getmtime] without logging anything and without any call to the
    service.  On a path that exists, every failure is logged by
    [upload_file] as its last line, a return logs no error, and at most one
    upload call is issued.  The disk and the configuration are never
    changed. *)
Theorem upload_file_failures (w : World) (p : string) (files : list DriveFile)
    (f : string) :
  let new := emitted (upload_file p files f) w in
  let w' := snd (upload_file p files f w) in
  (disk w !! p = None →
     result (upload_file p files f) w
     = Raised ("[Errno 2] No such file or directory: '" +:+ p +:+ "'")
     ∧ new = [])
  ∧ (∀ st, disk w !! p = Some st →
       (∀ e, result (upload_file p files f) w = Raised e →
             last new = Some (Log ERROR ("Failed to upload file " +:+ basename p
                                         +:+ ": " +:+ e)))
       ∧ (result (upload_file p files f) w = Ok tt → calls is_error new = 0%nat))
  ∧ (calls is_upload new ≤ 1)%nat
  ∧ disk w' = disk w ∧ config_file w' = config_file w.
Proof.
  intros new w'. subst new w'.
  destruct (disk w !! p) as [st|] eqn:Hd.
  - split; [discriminate|].
    assert (Hall :
      ((∀ e, result (upload_file p files f) w = Raised e →
             last (emitted (upload_file p files f) w)
             = Some (Log ERROR ("Failed to upload file " +:+ basename p +:+ ": " +:+ e)))
       ∧ (result (upload_file p files f) w = Ok tt →
          calls is_error (emitted (upload_file p files f) w) = 0%nat))
      ∧ (calls is_upload (emitted (upload_file p files f) w) ≤ 1)%nat
      ∧ disk (snd (upload_file p files f w)) = disk w
      ∧ config_file (snd (upload_file p files f w)) = config_file w).
    { unfold emitted, result.
      destruct (first_named (basename p) files) as [r|] eqn:Hn.
      - destruct (converts_or_not r) as [(ts & t & Hp & Hts)|[e Hbad]].
        + destruct (Z.le_gt_cases (st_mtime st) ts) as [Hle|Hlt].
          * rewrite (upload_file_up_to_date w p files f st r t ts Hd Hn Hp Hts Hle). simpl.
            rewrite drop_app_length. simpl. repeat split; try done; lia.
          * rewrite (upload_file_updates w p files f st r t ts Hd Hn Hp Hts Hlt). cbv zeta.
            destruct (update_reply _ _ _ _); simpl;
              rewrite <- !app_assoc, drop_app_length; simpl;
              (repeat split; try done; try lia); intros e' [= <-]; reflexivity.
        + rewrite (upload_file_unconvertible w p files f st r e Hd Hn Hbad). simpl.
          rewrite drop_app_length. simpl.
          (repeat split; try done; try lia); intros e' [= <-]; reflexivity.
      - rewrite (upload_file_creates w p files f st Hd Hn). cbv zeta.
        destruct (create_reply _ _ _ _ _); simpl;
          rewrite <- !app_assoc, drop_app_length; simpl;
          (repeat split; try done; try lia); intros e' [= <-]; reflexivity. }
    destruct Hall as (H1 & H2 & H3 & H4).
    split; [intros st' [= <-]; exact H1|]. done.
  - assert (Hrun : upload_file p files f w
                   = (Raised ("[Errno 2] No such file or directory: '" +:+ p +:+ "'"), w)).
    { unfold upload_file, os_path_getmtime, bind. now rewrite Hd. }
    unfold emitted, result. rewrite Hrun. simpl. rewrite drop_all.
    split; [done|]. split; [discriminate|]. split; [simpl; lia|done].
Qed.

(** X19.  A download that fails after the local file was opened is not tried
    again.  Take a record whose time the host converts to the number [ts],
    mapped to a path other than the configuration file.  When its download
    breaks, [download_file] raises, but the file it had opened for writing
    is on the disk with the time of that attempt; as soon as that time is
    not below [ts], the next call for the same record finds the local
    version up to date: it returns without any download call and leaves the
    truncated file as it is. *)
Theorem broken_download_is_not_retried (w : World) (f : option string) (m : Mapping)
    (n p : string) (r : DriveFile) (ts mtime : Z) (e : exn) :
  config_file w = Json f (Some m) → dict_get m n = Some p → p ≠ "" → p ≠ CONFIG_FILE →
  converts r ts → newer_or_absent w p ts →
  download_reply env (trace (loaded w)) (fileId r) p = Broken mtime e →
  let w' := snd (download_file n r w) in
  result (download_file n r) w = Raised e
  ∧ calls is_download (emitted (download_file n r) w) = 1%nat
  ∧ disk w' !! p = Some {| st_kind := RegularFile; st_mtime := mtime |}
  ∧ (ts ≤ mtime →
     result (download_file n r) w' = Ok tt
     ∧ calls is_download (emitted (download_file n r) w') = 0%nat
     ∧ disk (snd (download_file n r w')) = disk w').
Proof.
  intros Hc Hg Hp Hpc (t & Ht & Hts) Hnew Hreply w'. subst w'.
  pose proof (download_file_transfers w f m n r p t ts Hc Hg Hp Ht Hts Hnew) as Hrun.
  cbv zeta in Hrun. rewrite Hreply in Hrun.
  set (w' := snd (download_file n r w)).
  assert (Hc' : config_file w' = Json f (Some m)).
  { subst w'. rewrite Hrun. simpl. apply String.eqb_neq in Hpc. now rewrite Hpc. }
  assert (Hd' : disk w' !! p = Some {| st_kind := RegularFile; st_mtime := mtime |}).
  { subst w'. rewrite Hrun. apply lookup_insert_eq. }
  split; [unfold result; now rewrite Hrun|].
  split.
  { unfold emitted. rewrite Hrun. simpl. now rewrite <- !app_assoc, drop_app_length. }
  split; [done|]. intros Hle. clearbody w'.
  pose proof (download_file_up_to_date w' f m n r p t ts _ Hc' Hg Hp Ht Hts Hd' Hle) as Hrun'.
  unfold result, emitted. rewrite Hrun'. simpl.
  rewrite <- !app_assoc, drop_app_length. done.
Qed.

(** X20.  [download_file] reads the configuration before its [try] block: a
    configuration without [file_mappings] makes it raise the [KeyError]
    with no line of its own and no call.  With a mapping at hand, every
    failure is logged by [download_file] as its last line, a return logs no
    error, at most one download call is issued, and no path of the disk
    other than the one the mapping gives for the name is changed. *)
Theorem download_file_failures (w : World) (n : string) (r : DriveFile) :
  let new := emitted (download_file n r) w in
  let w' := snd (download_file n r w) in
  (∀ f, config_file w = Json f None →
     download_file n r w = (Raised "'file_mappings'", loaded w))
  ∧ (∀ f m, config_file w = Json f (Some m) →
       (∀ e, result (download_file n r) w = Raised e →
             last new = Some (Log ERROR ("Failed to download file " +:+ n +:+ ": " +:+ e)))
       ∧ (result (download_file n r) w = Ok tt → calls is_error new = 0%nat)
       ∧ (calls is_download new ≤ 1)%nat
       ∧ (∀ q, dict_get m n ≠ Some q → disk w' !! q = disk w !! q)).
Proof.
  intros new w'. subst new w'. split.
  { intros f Hc. unfold download_file.
    now rewrite (bind_ok _ _ _ _ _ (load_config_json w f None Hc)). }
  intros f m Hc. unfold result, emitted.
  destruct (falsy (dict_get m n)) eqn:Hf.
  { rewrite (download_file_unmapped w f m n r Hc Hf). simpl.
    rewrite <- !app_assoc, drop_app_length. simpl. repeat split; try done; lia. }
  destruct (dict_get m n) as [p|] eqn:Hg; [|discriminate].
  assert (Hp : p ≠ "") by (simpl in Hf; now apply String.eqb_neq).
  destruct (converts_or_not r) as [(ts & t & Ht & Hts)|[e Hbad]].
  2:{ rewrite (download_file_bad_time w f m n r p e Hc Hg Hp Hbad). simpl.
      rewrite <- !app_assoc, drop_app_length. simpl.
      (repeat split; try done; try lia). intros e' [= <-]. reflexivity. }
  assert (Hcases : (∃ st, disk w !! p = Some st ∧ ts ≤ st_mtime st)
                   ∨ newer_or_absent w p ts).
  { unfold newer_or_absent. destruct (disk w !! p) as [st|]; [|now right].
    destruct (Z.le_gt_cases ts (st_mtime st)); [left; eauto|right; lia]. }
  destruct Hcases as [(st & Hd & Hle)|Hnew].
  - rewrite (download_file_up_to_date w f m n r p t ts st Hc Hg Hp Ht Hts Hd Hle). simpl.
    rewrite <- !app_assoc, drop_app_length. simpl. repeat split; try done; lia.
  - rewrite (download_file_transfers w f m n r p t ts Hc Hg Hp Ht Hts Hnew). cbv zeta.
    destruct (download_reply _ _ _ _) as [mtime|e|mtime e]; simpl;
      rewrite <- !app_assoc, drop_app_length; simpl;
      (repeat split; try done; try lia);
      try (intros e' [= <-]; reflexivity);
      intros q Hq; apply lookup_insert_ne; congruence.
Qed.

(** *** The timer of the backup and the turns of the loop *)

(** X21.  The backup timer of a turn whose pass of [sync] returns.  While
    less than the interval has gone by since [last_backup_time], the turn
    reads the clock and nothing more: [create_backup] is not called and
    [last_backup_time] stays.  Once the interval has gone by,
    [create_backup] is called, and when it skips the backup because a
    listed one is recent, [last_backup_time] is still set to a new reading
    of the clock: the next attempt is a whole interval away although
    nothing was archived or uploaded. *)
Theorem backup_timer (last_backup_time : Z) (w w1 : World) :
  sync (record (Log INFO "Starting sync operation...") w) = (Ok tt, w1) →
  let now := clock env (trace w1) in
  (now - last_backup_time < timedelta_days BACKUP_INTERVAL_DAYS →
     syncing last_backup_time w = (Ok last_backup_time, record Now w1))
  ∧ (timedelta_days BACKUP_INTERVAL_DAYS ≤ now - last_backup_time →
     let w2 := record (Log INFO "Creating backup...") (record Now w1) in
     (∀ r w3, create_backup w2 = (r, w3) →
        syncing last_backup_time w
        = match r with
          | Ok _ => (Ok (clock env (trace w3)), record Now w3)
          | Raised e => (Raised e, w3)
          end)
     ∧ ∀ files,
         listing env (trace (record Now w2)) BACKUP_FOLDER_ID = Ok files →
         Forall parses files →
         Exists (within_interval (clock env (trace w2))) files →
         ∃ msg,
           let w3 := record (Log INFO msg) (listed BACKUP_FOLDER_ID (record Now w2)) in
           syncing last_backup_time w = (Ok (clock env (trace w3)), record Now w3)).
Proof.
  intros Hsync now.
  assert (Hrun : syncing last_backup_time w =
            if timedelta_days BACKUP_INTERVAL_DAYS <=? now - last_backup_time then
              match create_backup (record (Log INFO "Creating backup...") (record Now w1)) with
              | (Ok _, w3) => (Ok (clock env (trace w3)), record Now w3)
              | (Raised e, w3) => (Raised e, w3)
              end
            else (Ok last_backup_time, record Now w1)).
  { unfold syncing. unfold bind at 1. unfold logging at 1, emit at 1.
    rewrite (bind_ok _ _ _ _ _ Hsync). unfold bind at 1, datetime_now at 1. fold now.
    destruct (_ <=? _); [|reflexivity].
    unfold bind, logging, emit, datetime_now.
    now destruct (create_backup _) as [[[]|e] w3]. }
  split.
  - intros Hlt. rewrite Hrun.
    destruct (Z.leb_spec (timedelta_days BACKUP_INTERVAL_DAYS) (now - last_backup_time));
      [lia|reflexivity].
  - intros Hge w2.
    destruct (Z.leb_spec (timedelta_days BACKUP_INTERVAL_DAYS) (now - last_backup_time));
      [|lia].
    fold w2 in Hrun. split.
    + intros r w3 Hcb. rewrite Hrun, Hcb. now destruct r as [[]|e].
    + intros files Hl Hall Hex.
      destruct (create_backup_run w2 files Hl Hall) as [[_ [msg Hcb]]|[Hno _]]; [|done].
      exists msg. cbv zeta. now rewrite Hrun, Hcb.
Qed.

(** X22.  The script sleeps once at the end of every turn that returns, 300
    seconds each time, and at no other moment: if the first [n] turns all
    return it has slept exactly [n] times, and if one of them raises it has
    slept fewer than [n] times; it never sleeps after a failure, as the
    exception ends the loop. *)
Theorem sleeps_once_per_turn (n : nat) (w : World) :
  let new := emitted (main n) w in
  (∀ t, result (main n) w = Ok t → calls is_sleep new = n)
  ∧ (∀ e, result (main n) w = Raised e → (calls is_sleep new < n)%nat)
  ∧ Forall (λ e, is_sleep e = true → e = Sleep 300) new.
Proof.
  intros new. subst new. unfold emitted, result, main, bind, datetime_now.
  destruct (loop_trace n (clock env (trace w) - timedelta_days BACKUP_INTERVAL_DAYS)
              (record Now w)) as (l & Hl & HQ & Hc).
  rewrite Hl. simpl. rewrite <- app_assoc, drop_app_length. simpl.
  destruct (loop n _ _) as [[t|e] w1]; simpl in *.
  - split; [intros; done|]. split; [discriminate|]. constructor; [discriminate|done].
  - split; [discriminate|]. split; [intros; done|]. constructor; [discriminate|done].
Qed.

End Sync.


(** ** The script on concrete inputs *)

(** The scenario of the specification: one update call, no download. *)
Example spec_scenario_update :
  emitted (sync Sample.strptime Sample.timestamp
             (Sample.quiet (6 * Sample.day) (λ _, [Sample.a_day3]))) Sample.world_a
  = [OpenConfig; Log INFO "Configuration file loaded successfully.";
     ListFiles "folder"; Log INFO "Listed files in Google Drive folder ID folder.";
     Update "id-a" "/local/a.txt"; Log INFO "Updated file: a.txt in Google Drive.";
     OpenConfig; Log INFO "Configuration file loaded successfully.";
     Log INFO "No download needed for a.txt, local version is up-to-date.";
     Log INFO "Sync operation completed."].
Proof. vm_compute. reflexivity. Qed.

(** C1 as stated fails on a remote copy dated on the first day of year 1:
    the local copy is the later one, and yet no update call is issued,
    because the host cannot convert that time and [upload_file] raises. *)
Lemma unconverted_time_no_update_counterexample :
  ¬ updates_when_local_is_later Sample.strptime Sample.timestamp
      (Sample.quiet (6 * Sample.day) (λ _, [Sample.a_year1])) Sample.utc.
Proof.
  intros H.
  specialize (H Sample.world_a "/local/a.txt" [Sample.a_year1] "folder"
                (Sample.regular (5 * Sample.day)) Sample.a_year1
                (Sample.microseconds 1 1 1 0 0 0 0)).
  assert (Hone : calls is_update
                   (emitted (upload_file Sample.strptime Sample.timestamp
                               (Sample.quiet (6 * Sample.day) (λ _, [Sample.a_year1]))
                               "/local/a.txt" [Sample.a_year1] "folder") Sample.world_a)
                 = 1%nat).
  { apply H; vm_compute; reflexivity. }
  vm_compute in Hone. discriminate.
Qed.

(** C1, amended, on the scenario of the specification: the local copy is of
    day 5, the remote one of day 3, and the host is on UTC. *)
Lemma upload_file_policy_witness :
  disk Sample.world_a !! "/local/a.txt" = Some (Sample.regular (5 * Sample.day))
  ∧ st_kind (Sample.regular (5 * Sample.day)) = RegularFile
  ∧ first_named (basename "/local/a.txt") [Sample.a_day3] = Some Sample.a_day3
  ∧ Sample.strptime (modifiedTime Sample.a_day3) = Ok (3 * Sample.day)
  ∧ Sample.timestamp (3 * Sample.day) = Ok (Sample.utc (3 * Sample.day))
  ∧ Sample.utc (3 * Sample.day) < st_mtime (Sample.regular (5 * Sample.day))
  ∧ calls is_update
      (emitted (upload_file Sample.strptime Sample.timestamp
                  (Sample.quiet (6 * Sample.day) (λ _, [Sample.a_day3]))
                  "/local/a.txt" [Sample.a_day3] "folder") Sample.world_a) = 1%nat
  ∧ calls is_download
      (emitted (upload_file Sample.strptime Sample.timestamp
                  (Sample.quiet (6 * Sample.day) (λ _, [Sample.a_day3]))
                  "/local/a.txt" [Sample.a_day3] "folder") Sample.world_a) = 0%nat.
Proof.
  assert (Hd : disk Sample.world_a !! "/local/a.txt"
               = Some (Sample.regular (5 * Sample.day))) by (vm_compute; reflexivity).
  assert (Hn : first_named (basename "/local/a.txt") [Sample.a_day3] = Some Sample.a_day3)
    by (vm_compute; reflexivity).
  assert (Ht : Sample.strptime (modifiedTime Sample.a_day3) = Ok (3 * Sample.day))
    by (vm_compute; reflexivity).
  assert (Hts : Sample.timestamp (3 * Sample.day) = Ok (Sample.utc (3 * Sample.day)))
    by (vm_compute; reflexivity).
  assert (Hlt : Sample.utc (3 * Sample.day) < st_mtime (Sample.regular (5 * Sample.day)))
    by (vm_compute; reflexivity).
  destruct (upload_file_policy Sample.strptime Sample.timestamp
              (Sample.quiet (6 * Sample.day) (λ _, [Sample.a_day3])) Sample.utc
              Sample.world_a "/local/a.txt" "folder" [Sample.a_day3]
              (Sample.regular (5 * Sample.day)) Hd eq_refl)
    as (_ & Hup & _ & Hdown & _).
  destruct (Hup Sample.a_day3 (3 * Sample.day) Hn Ht Hts) as [Hlater _].
  destruct (Hlater Hlt) as (Hone & _ & _).
  repeat split; assumption.
Defined.

(** C2 as stated fails on a key mapped to the empty path: nothing is at
    that path, and yet no download call is issued. *)
Lemma download_file_empty_path_counterexample :
  ¬ downloads_under_every_key Sample.strptime Sample.timestamp
      (Sample.quiet (6 * Sample.day) (λ _, [Sample.a_day3])) Sample.utc.
Proof.
  intros H.
  destruct (H Sample.world_empty_path (Some "folder") [("a.txt", "")] Sample.a_day3 ""
              (3 * Sample.day) eq_refl eq_refl eq_refl) as [_ Hback].
  specialize (Hback Logic.I). vm_compute in Hback. discriminate.
Qed.

(** C2, amended, on a remote copy of day 7 against the local copy of day 5,
    and on a remote copy whose time the host cannot convert. *)
Lemma download_file_policy_witness :
  config_file Sample.world_a = Json (Some "folder") (Some Sample.mapping_a)
  ∧ dict_get Sample.mapping_a (name Sample.a_day7) = Some "/local/a.txt"
  ∧ "/local/a.txt" ≠ ""
  ∧ Sample.strptime (modifiedTime Sample.a_day7) = Ok (7 * Sample.day)
  ∧ Sample.timestamp (7 * Sample.day) = Ok (Sample.utc (7 * Sample.day))
  ∧ calls is_download
      (emitted (download_file Sample.strptime Sample.timestamp
                  (Sample.quiet (8 * Sample.day) (λ _, [Sample.a_day7]))
                  (name Sample.a_day7) Sample.a_day7) Sample.world_a) = 1%nat
  ∧ unconvertible Sample.strptime Sample.timestamp Sample.a_year1 "year 0 is out of range"
  ∧ calls is_download
      (emitted (download_file Sample.strptime Sample.timestamp
                  (Sample.quiet (8 * Sample.day) (λ _, [Sample.a_year1]))
                  (name Sample.a_year1) Sample.a_year1) Sample.world_a) = 0%nat.
Proof.
  assert (Hne : "/local/a.txt" ≠ "") by discriminate.
  assert (Ht : Sample.strptime (modifiedTime Sample.a_day7) = Ok (7 * Sample.day))
    by (vm_compute; reflexivity).
  assert (Hts : Sample.timestamp (7 * Sample.day) = Ok (Sample.utc (7 * Sample.day)))
    by (vm_compute; reflexivity).
  assert (Hbad : unconvertible Sample.strptime Sample.timestamp Sample.a_year1
                   "year 0 is out of range").
  { right. exists (Sample.microseconds 1 1 1 0 0 0 0). split; vm_compute; reflexivity. }
  destruct (download_file_policy Sample.strptime Sample.timestamp
              (Sample.quiet (8 * Sample.day) (λ _, [Sample.a_day7])) Sample.utc
              Sample.world_a (Some "folder") Sample.mapping_a Sample.a_day7 "/local/a.txt"
              eq_refl eq_refl Hne) as (Hok & _).
  destruct (Hok (7 * Sample.day) Ht Hts) as ([_ Hone] & _).
  destruct (download_file_policy Sample.strptime Sample.timestamp
              (Sample.quiet (8 * Sample.day) (λ _, [Sample.a_year1])) Sample.utc
              Sample.world_a (Some "folder") Sample.mapping_a Sample.a_year1 "/local/a.txt"
              eq_refl eq_refl Hne) as (_ & Herr).
  destruct (Herr _ Hbad) as [Hnone _].
  split; [reflexivity|]. split; [reflexivity|]. split; [exact Hne|]. split; [exact Ht|].
  split; [exact Hts|]. split; [|split; [exact Hbad|exact Hnone]].
  apply Hone. vm_compute. reflexivity.
Defined.

(** C3 as stated fails on a backup folder that lists, after a backup of
    three days ago, a record whose time does not parse: a recent backup is
    listed, and yet [create_backup] does not skip, it raises. *)
Lemma unparsable_listing_never_skips_counterexample :
  ¬ skipped_iff_recent Sample.strptime Sample.timestamp Sample.strftime Sample.datetime_str
      (Sample.quiet (6 * Sample.day) (λ _, [Sample.a_day3; Sample.no_time])) 0.
Proof.
  intros H.
  destruct (H Sample.world_a [Sample.a_day3; Sample.no_time] eq_refl) as [_ Hback].
  destruct Hback as (Hok & _).
  - constructor. exists (3 * Sample.day). split; vm_compute; reflexivity.
  - vm_compute in Hok. discriminate.
Qed.

(** C3, amended, on a host on UTC and a backup folder whose only record is
    three days old. *)
Lemma backup_skipped_iff_recent_witness :
  listing (Sample.quiet (6 * Sample.day) (λ _, [Sample.a_day3]))
    (trace (record Now Sample.world_a)) BACKUP_FOLDER_ID = Ok [Sample.a_day3]
  ∧ Forall (parses Sample.strptime) [Sample.a_day3]
  ∧ skips_backup Sample.strptime Sample.timestamp Sample.strftime Sample.datetime_str
      (Sample.quiet (6 * Sample.day) (λ _, [Sample.a_day3])) Sample.world_a.
Proof.
  assert (Hp : Forall (parses Sample.strptime) [Sample.a_day3]).
  { repeat constructor. exists (3 * Sample.day). vm_compute. reflexivity. }
  destruct (backup_skipped_iff_recent Sample.strptime Sample.timestamp Sample.strftime
              Sample.datetime_str (Sample.quiet (6 * Sample.day) (λ _, [Sample.a_day3])) 0
              Sample.world_a [Sample.a_day3] eq_refl) as (Hutc & _).
  destruct (Hutc Hp eq_refl) as ([_ Hskip] & _).
  split; [reflexivity|]. split; [exact Hp|]. apply Hskip.
  constructor. exists (3 * Sample.day). split; vm_compute; reflexivity.
Defined.

(** C4 on a host whose local time is one hour ahead of UTC.  The local copy
    and the remote one were both modified at the start of day 5 (UTC), and
    yet the pass updates the remote copy: [upload_file] reads the remote
    time as a local time, one hour earlier than it is. *)
Theorem equal_times_updated_east_of_utc :
  disk Sample.world_a !! "/local/a.txt" = Some (Sample.regular (5 * Sample.day))
  ∧ Sample.strptime (modifiedTime Sample.a_day5) = Ok (5 * Sample.day)
  ∧ Sample.utc (5 * Sample.day) = st_mtime (Sample.regular (5 * Sample.day))
  ∧ emitted (sync Sample.strptime Sample.timestamp_east
               (Sample.quiet (6 * Sample.day) (λ _, [Sample.a_day5]))) Sample.world_a
    = [OpenConfig; Log INFO "Configuration file loaded successfully.";
       ListFiles "folder"; Log INFO "Listed files in Google Drive folder ID folder.";
       Update "id-a" "/local/a.txt"; Log INFO "Updated file: a.txt in Google Drive.";
       OpenConfig; Log INFO "Configuration file loaded successfully.";
       Log INFO "No download needed for a.txt, local version is up-to-date.";
       Log INFO "Sync operation completed."]
  ∧ emitted (sync Sample.strptime Sample.timestamp
               (Sample.quiet (6 * Sample.day) (λ _, [Sample.a_day5]))) Sample.world_a
    = [OpenConfig; Log INFO "Configuration file loaded successfully.";
       ListFiles "folder"; Log INFO "Listed files in Google Drive folder ID folder.";
       Log INFO "No upload needed for a.txt, Drive version is up-to-date.";
       OpenConfig; Log INFO "Configuration file loaded successfully.";
       Log INFO "No download needed for a.txt, local version is up-to-date.";
       Log INFO "Sync operation completed."].
Proof. repeat split; vm_compute; reflexivity. Qed.

(** C5 as stated fails when the configuration file is missing: [sync]
    raises, and the turn of the loop ends without a sleep. *)
Lemma raising_sync_never_idles_counterexample :
  ¬ always_idles Sample.strptime Sample.timestamp Sample.strftime Sample.datetime_str
      (Sample.quiet (6 * Sample.day) (λ _, [])).
Proof.
  intros H. specialize (H 0 Sample.world_no_config). vm_compute in H. discriminate.
Qed.

(** C5, amended, on a turn that returns and on a turn that raises. *)
Lemma idle_follows_syncing_that_returns_witness :
  (result (syncing Sample.strptime Sample.timestamp Sample.strftime Sample.datetime_str
             (Sample.quiet (6 * Sample.day) (λ _, [Sample.a_day3])) (6 * Sample.day))
     Sample.world_a = Ok (6 * Sample.day)
   ∧ calls is_sleep
       (emitted (iteration Sample.strptime Sample.timestamp Sample.strftime
                   Sample.datetime_str
                   (Sample.quiet (6 * Sample.day) (λ _, [Sample.a_day3])) (6 * Sample.day))
          Sample.world_a) = 1%nat)
  ∧ (result (syncing Sample.strptime Sample.timestamp Sample.strftime Sample.datetime_str
               (Sample.quiet (6 * Sample.day) (λ _, [])) 0)
       Sample.world_no_config
     = Raised "[Errno 2] No such file or directory: './config.json'"
     ∧ calls is_sleep
         (emitted (iteration Sample.strptime Sample.timestamp Sample.strftime
                     Sample.datetime_str (Sample.quiet (6 * Sample.day) (λ _, [])) 0)
            Sample.world_no_config) = 0%nat).
Proof.
  assert (Hok : result (syncing Sample.strptime Sample.timestamp Sample.strftime
                          Sample.datetime_str
                          (Sample.quiet (6 * Sample.day) (λ _, [Sample.a_day3]))
                          (6 * Sample.day)) Sample.world_a = Ok (6 * Sample.day))
    by (vm_compute; reflexivity).
  assert (Hr : result (syncing Sample.strptime Sample.timestamp Sample.strftime
                         Sample.datetime_str (Sample.quiet (6 * Sample.day) (λ _, [])) 0)
                 Sample.world_no_config
               = Raised "[Errno 2] No such file or directory: './config.json'")
    by (vm_compute; reflexivity).
  split.
  - destruct (idle_follows_syncing_that_returns Sample.strptime Sample.timestamp
                Sample.strftime Sample.datetime_str
                (Sample.quiet (6 * Sample.day) (λ _, [Sample.a_day3])) (6 * Sample.day)
                Sample.world_a) as (Hidle & _).
    destruct (Hidle _ Hok) as (_ & _ & Hone). split; [exact Hok|exact Hone].
  - destruct (idle_follows_syncing_that_returns Sample.strptime Sample.timestamp
                Sample.strftime Sample.datetime_str
                (Sample.quiet (6 * Sample.day) (λ _, [])) 0 Sample.world_no_config)
      as (_ & Hdie & _).
    destruct (Hdie _ Hr) as (_ & Hnone & _). split; [exact Hr|exact Hnone].
Defined.

(** A download into the configuration file changes what the next
    [load_config] reads: here the downloaded bytes are no JSON, and the
    record listed after it meets the error. *)
Example download_rewrites_configuration :
  config_file (snd (sync Sample.strptime Sample.timestamp
                      (Sample.quiet (8 * Sample.day) (λ _, [Sample.config_day7; Sample.a_day3]))
                      Sample.world_config))
  = Sample.no_json
  ∧ result (sync Sample.strptime Sample.timestamp
              (Sample.quiet (8 * Sample.day) (λ _, [Sample.config_day7; Sample.a_day3])))
      Sample.world_config
    = Raised "Expecting value: line 1 column 1 (char 0)"
  ∧ In (Download "id-c" "./config.json")
      (emitted (sync Sample.strptime Sample.timestamp
                  (Sample.quiet (8 * Sample.day) (λ _, [Sample.config_day7; Sample.a_day3])))
         Sample.world_config).
Proof. split; [|split]; vm_compute; auto 20. Qed.

(** C6 as stated fails as soon as one record is listed: the pass reads the
    configuration file twice. *)
Lemma config_read_per_record_counterexample :
  ¬ loads_config_once Sample.strptime Sample.timestamp
      (Sample.quiet (6 * Sample.day) (λ _, [Sample.a_day3])).
Proof.
  intros H. destruct (H Sample.world_a) as [Hone _]. vm_compute in Hone. discriminate.
Qed.

(** C6, amended, on a pass over one listed record, none of whose downloads
    goes into the configuration file. *)
Lemma sync_reads_config_witness :
  config_file Sample.world_a = Json (Some "folder") (Some Sample.mapping_a)
  ∧ listing (Sample.quiet (6 * Sample.day) (λ _, [Sample.a_day3]))
      (trace (loaded Sample.world_a)) "folder" = Ok [Sample.a_day3]
  ∧ result (sync Sample.strptime Sample.timestamp
              (Sample.quiet (6 * Sample.day) (λ _, [Sample.a_day3]))) Sample.world_a = Ok tt
  ∧ calls is_open_config
      (emitted (sync Sample.strptime Sample.timestamp
                  (Sample.quiet (6 * Sample.day) (λ _, [Sample.a_day3]))) Sample.world_a)
    = 2%nat
  ∧ config_file (snd (sync Sample.strptime Sample.timestamp
                        (Sample.quiet (6 * Sample.day) (λ _, [Sample.a_day3]))
                        Sample.world_a))
    = config_file Sample.world_a.
Proof.
  assert (Hok : result (sync Sample.strptime Sample.timestamp
                          (Sample.quiet (6 * Sample.day) (λ _, [Sample.a_day3])))
                  Sample.world_a = Ok tt) by (vm_compute; reflexivity).
  destruct (sync_reads_config Sample.strptime Sample.timestamp
              (Sample.quiet (6 * Sample.day) (λ _, [Sample.a_day3])) Sample.world_a)
    as (Hsame & _ & Hcount).
  split; [reflexivity|]. split; [reflexivity|]. split; [exact Hok|].
  split; [exact (Hcount "folder" Sample.mapping_a [Sample.a_day3] eq_refl eq_refl Hok)|].
  apply Hsame. intros i Hin. vm_compute in Hin.
  repeat (destruct Hin as [Hin|Hin]; [discriminate Hin|]). exact Hin.
Defined.

(** C7 on a listed record that no key names, followed by one that is mapped. *)
Lemma download_file_skips_unmapped_witness :
  config_file Sample.world_a = Json (Some "folder") (Some Sample.mapping_a)
  ∧ ¬ In (name Sample.b_day3) (map fst Sample.mapping_a)
  ∧ result (download_file Sample.strptime Sample.timestamp
              (Sample.quiet (6 * Sample.day) (λ _, [Sample.b_day3; Sample.a_day7]))
              (name Sample.b_day3) Sample.b_day3) Sample.world_a = Ok tt
  ∧ calls is_warning
      (emitted (download_file Sample.strptime Sample.timestamp
                  (Sample.quiet (6 * Sample.day) (λ _, [Sample.b_day3; Sample.a_day7]))
                  (name Sample.b_day3) Sample.b_day3) Sample.world_a) = 1%nat
  ∧ calls is_transfer
      (emitted (download_file Sample.strptime Sample.timestamp
                  (Sample.quiet (6 * Sample.day) (λ _, [Sample.b_day3; Sample.a_day7]))
                  (name Sample.b_day3) Sample.b_day3) Sample.world_a) = 0%nat.
Proof.
  assert (Hk : ¬ In (name Sample.b_day3) (map fst Sample.mapping_a)).
  { intros [H|[]]. discriminate. }
  destruct (download_file_skips_unmapped Sample.strptime Sample.timestamp
              (Sample.quiet (6 * Sample.day) (λ _, [Sample.b_day3; Sample.a_day7]))
              Sample.world_a (Some "folder") Sample.mapping_a Sample.b_day3 [Sample.a_day7]
              eq_refl Hk) as (Hok & Hnone & Hwarn & _).
  split; [reflexivity|]. split; [exact Hk|]. split; [exact Hok|].
  split; [exact Hwarn|exact Hnone].
Defined.

(** C8 on an upload that is accepted and on one that is refused. *)
Lemma archive_removed_only_after_upload_witness :
  (build_archive (Sample.quiet (26 * Sample.day) (λ _, []))
     (backup_path Sample.strftime (26 * Sample.day)) Sample.world_a
   = (Ok tt, snd (build_archive (Sample.quiet (26 * Sample.day) (λ _, []))
                    (backup_path Sample.strftime (26 * Sample.day)) Sample.world_a))
   ∧ result (backup_archive Sample.strptime Sample.timestamp Sample.strftime
               (Sample.quiet (26 * Sample.day) (λ _, [])) (26 * Sample.day) [])
       Sample.world_a = Ok tt
   ∧ disk (snd (backup_archive Sample.strptime Sample.timestamp Sample.strftime
                  (Sample.quiet (26 * Sample.day) (λ _, [])) (26 * Sample.day) []
                  Sample.world_a))
       !! backup_path Sample.strftime (26 * Sample.day) = None)
  ∧ (build_archive (Sample.refusing (26 * Sample.day) (λ _, []))
       (backup_path Sample.strftime (26 * Sample.day)) Sample.world_a
     = (Ok tt, snd (build_archive (Sample.refusing (26 * Sample.day) (λ _, []))
                      (backup_path Sample.strftime (26 * Sample.day)) Sample.world_a))
     ∧ result (backup_archive Sample.strptime Sample.timestamp Sample.strftime
                 (Sample.refusing (26 * Sample.day) (λ _, [])) (26 * Sample.day) [])
         Sample.world_a = Raised "HttpError 403"
     ∧ is_Some (disk (snd (backup_archive Sample.strptime Sample.timestamp Sample.strftime
                             (Sample.refusing (26 * Sample.day) (λ _, []))
                             (26 * Sample.day) [] Sample.world_a))
                  !! backup_path Sample.strftime (26 * Sample.day))).
Proof.
  split.
  - assert (Hb : build_archive (Sample.quiet (26 * Sample.day) (λ _, []))
                   (backup_path Sample.strftime (26 * Sample.day)) Sample.world_a
                 = (Ok tt, snd (build_archive (Sample.quiet (26 * Sample.day) (λ _, []))
                                  (backup_path Sample.strftime (26 * Sample.day))
                                  Sample.world_a))) by (vm_compute; reflexivity).
    destruct (archive_removed_only_after_upload Sample.strptime Sample.timestamp
                Sample.strftime (Sample.quiet (26 * Sample.day) (λ _, []))
                (26 * Sample.day) [] Sample.world_a _ Hb) as (Hok & _).
    destruct Hok as (Hres & _ & _ & Hgone); [vm_compute; reflexivity|].
    split; [exact Hb|]. split; [exact Hres|exact Hgone].
  - assert (Hb : build_archive (Sample.refusing (26 * Sample.day) (λ _, []))
                   (backup_path Sample.strftime (26 * Sample.day)) Sample.world_a
                 = (Ok tt, snd (build_archive (Sample.refusing (26 * Sample.day) (λ _, []))
                                  (backup_path Sample.strftime (26 * Sample.day))
                                  Sample.world_a))) by (vm_compute; reflexivity).
    destruct (archive_removed_only_after_upload Sample.strptime Sample.timestamp
                Sample.strftime (Sample.refusing (26 * Sample.day) (λ _, []))
                (26 * Sample.day) [] Sample.world_a _ Hb) as (_ & Hfail).
    destruct (Hfail "HttpError 403") as (Hres & _ & Hleft); [vm_compute; reflexivity|].
    split; [exact Hb|]. split; [exact Hres|exact Hleft].
Defined.

(** C9 as stated fails when the basename is the key of another entry: the
    uploaded file comes back under that key. *)
Lemma basename_is_another_key_counterexample :
  ¬ skipped_once_uploaded Sample.strptime Sample.timestamp
      (Sample.quiet (6 * Sample.day) (λ _, [Sample.b_remote])).
Proof.
  intros H.
  destruct (H Sample.world_kb (Some "folder") Sample.mapping_kb "k" "/x/b" Sample.b_remote
              eq_refl eq_refl) as [Hnone _].
  - vm_compute. discriminate.
  - vm_compute. reflexivity.
  - vm_compute in Hnone. discriminate.
Qed.

(** C9, amended, on a file kept under the key [k] alone. *)
Lemma uploaded_by_basename_looked_up_by_key_witness :
  dict_get Sample.mapping_k "k" = Some "/x/b"
  ∧ "k" ≠ basename "/x/b"
  ∧ ¬ In (basename "/x/b") (map fst Sample.mapping_k)
  ∧ In (Create "b" "folder" "/x/b")
      (emitted (upload_file Sample.strptime Sample.timestamp
                  (Sample.quiet (6 * Sample.day) (λ _, [])) "/x/b" [] "folder")
         Sample.world_k)
  ∧ calls is_download
      (emitted (download_file Sample.strptime Sample.timestamp
                  (Sample.quiet (6 * Sample.day) (λ _, [Sample.b_remote]))
                  (name Sample.b_remote) Sample.b_remote) Sample.world_k) = 0%nat
  ∧ calls is_warning
      (emitted (download_file Sample.strptime Sample.timestamp
                  (Sample.quiet (6 * Sample.day) (λ _, [Sample.b_remote]))
                  (name Sample.b_remote) Sample.b_remote) Sample.world_k) = 1%nat.
Proof.
  assert (Hk : "k" ≠ basename "/x/b") by (vm_compute; discriminate).
  assert (Hb : ¬ In (basename "/x/b") (map fst Sample.mapping_k)).
  { intros [H|[]]. vm_compute in H. discriminate. }
  destruct (uploaded_by_basename_looked_up_by_key Sample.strptime Sample.timestamp
              (Sample.quiet (6 * Sample.day) (λ _, [])) (Some "folder") Sample.mapping_k
              "k" "/x/b" eq_refl Hk) as (_ & Hcreate & _ & _).
  destruct (uploaded_by_basename_looked_up_by_key Sample.strptime Sample.timestamp
              (Sample.quiet (6 * Sample.day) (λ _, [Sample.b_remote])) (Some "folder")
              Sample.mapping_k "k" "/x/b" eq_refl Hk) as (_ & _ & _ & Hskip).
  destruct (Hskip Hb Sample.world_k Sample.b_remote eq_refl eq_refl) as (_ & Hnone & Hwarn).
  split; [reflexivity|]. split; [exact Hk|]. split; [exact Hb|].
  split; [|split; [exact Hnone|exact Hwarn]].
  apply (Hcreate Sample.world_k [] "folder" (Sample.regular (5 * Sample.day))).
  - vm_compute. reflexivity.
  - intros r [].
Defined.

(** C10 as stated fails on a host without a configuration file: the first
    pass of [sync] raises, the process ends there, and the first cycle
    neither logs "Creating backup..." nor calls [create_backup]. *)
Lemma first_cycle_without_config_counterexample :
  ¬ first_cycle_always_backs_up Sample.strptime Sample.timestamp Sample.strftime
      Sample.datetime_str (Sample.quiet (26 * Sample.day) (λ _, [Sample.a_day3])).
Proof.
  intros H. specialize (H Sample.world_no_config). vm_compute in H.
  repeat (destruct H as [H|H]; [discriminate H|]). exact H.
Qed.

(** C10, amended, on a process started on day 26, with a backup of day 3 in
    the backup folder. *)
Lemma first_turn_calls_create_backup_witness :
  sync Sample.strptime Sample.timestamp
    (Sample.quiet (26 * Sample.day) (λ _, [Sample.a_day3]))
    (record (Log INFO "Starting sync operation...") (record Now Sample.world_a))
  = (Ok tt, snd (sync Sample.strptime Sample.timestamp
                   (Sample.quiet (26 * Sample.day) (λ _, [Sample.a_day3]))
                   (record (Log INFO "Starting sync operation...")
                      (record Now Sample.world_a))))
  ∧ clock (Sample.quiet (26 * Sample.day) (λ _, [Sample.a_day3])) (trace Sample.world_a)
    ≤ clock (Sample.quiet (26 * Sample.day) (λ _, [Sample.a_day3]))
        (trace (snd (sync Sample.strptime Sample.timestamp
                       (Sample.quiet (26 * Sample.day) (λ _, [Sample.a_day3]))
                       (record (Log INFO "Starting sync operation...")
                          (record Now Sample.world_a)))))
  ∧ In (Log INFO "Creating backup...")
      (emitted (main Sample.strptime Sample.timestamp Sample.strftime Sample.datetime_str
                  (Sample.quiet (26 * Sample.day) (λ _, [Sample.a_day3])) 1)
         Sample.world_a).
Proof.
  assert (Hs : sync Sample.strptime Sample.timestamp
                 (Sample.quiet (26 * Sample.day) (λ _, [Sample.a_day3]))
                 (record (Log INFO "Starting sync operation...") (record Now Sample.world_a))
               = (Ok tt, snd (sync Sample.strptime Sample.timestamp
                                (Sample.quiet (26 * Sample.day) (λ _, [Sample.a_day3]))
                                (record (Log INFO "Starting sync operation...")
                                   (record Now Sample.world_a)))))
    by (vm_compute; reflexivity).
  assert (Hc : clock (Sample.quiet (26 * Sample.day) (λ _, [Sample.a_day3]))
                 (trace Sample.world_a)
               ≤ clock (Sample.quiet (26 * Sample.day) (λ _, [Sample.a_day3]))
                   (trace (snd (sync Sample.strptime Sample.timestamp
                                  (Sample.quiet (26 * Sample.day) (λ _, [Sample.a_day3]))
                                  (record (Log INFO "Starting sync operation...")
                                     (record Now Sample.world_a))))))
    by (vm_compute; discriminate).
  destruct (first_turn_calls_create_backup Sample.strptime Sample.timestamp Sample.strftime
              Sample.datetime_str (Sample.quiet (26 * Sample.day) (λ _, [Sample.a_day3]))
              0 Sample.world_a _ Hs Hc) as (_ & Hlog & _).
  split; [exact Hs|]. split; [exact Hc|exact Hlog].
Defined.

(** X7 on an update that the service refuses: the pass ends there. *)
Lemma first_failure_ends_pass_witness :
  config_file Sample.world_a = Json (Some "folder") (Some Sample.mapping_a)
  ∧ listing (Sample.refusing (6 * Sample.day) (λ _, [Sample.a_day3]))
      (trace (loaded Sample.world_a)) "folder" = Ok [Sample.a_day3]
  ∧ result (sync Sample.strptime Sample.timestamp
              (Sample.refusing (6 * Sample.day) (λ _, [Sample.a_day3]))) Sample.world_a
    = Raised "HttpError 403"
  ∧ calls is_download
      (emitted (sync Sample.strptime Sample.timestamp
                  (Sample.refusing (6 * Sample.day) (λ _, [Sample.a_day3]))) Sample.world_a)
    = 0%nat.
Proof.
  destruct (first_failure_ends_pass Sample.strptime Sample.timestamp
              (Sample.refusing (6 * Sample.day) (λ _, [Sample.a_day3]))
              Sample.world_a "folder" Sample.mapping_a [Sample.a_day3] eq_refl eq_refl)
    as [Hup _].
  destruct (Hup "HttpError 403"
              (snd (upload_phase Sample.strptime Sample.timestamp
                      (Sample.refusing (6 * Sample.day) (λ _, [Sample.a_day3]))
                      {| cfg_folder_id := Some "folder";
                         cfg_file_mappings := Some Sample.mapping_a |}
                      [Sample.a_day3] Sample.mapping_a
                      (listed "folder" (loaded Sample.world_a)))))
    as (Hrun & Hnone & _); [vm_compute; reflexivity|].
  split; [reflexivity|]. split; [reflexivity|]. split; [|exact Hnone].
  unfold result. rewrite Hrun. reflexivity.
Defined.

(** X10 on the local copy of day 5 against the remote copy of day 3. *)
Lemma one_direction_at_most_witness :
  disk Sample.world_a !! "/local/a.txt" = Some (Sample.regular (5 * Sample.day))
  ∧ first_named (basename "/local/a.txt") [Sample.a_day3] = Some Sample.a_day3
  ∧ dict_get Sample.mapping_a (name Sample.a_day3) = Some "/local/a.txt"
  ∧ Sample.strptime (modifiedTime Sample.a_day3) = Ok (3 * Sample.day)
  ∧ calls is_upload
      (emitted (upload_file Sample.strptime Sample.timestamp
                  (Sample.quiet (6 * Sample.day) (λ _, [Sample.a_day3]))
                  "/local/a.txt" [Sample.a_day3] "folder") Sample.world_a) = 1%nat
  ∧ (calls is_upload
       (emitted (upload_file Sample.strptime Sample.timestamp
                   (Sample.quiet (6 * Sample.day) (λ _, [Sample.a_day3]))
                   "/local/a.txt" [Sample.a_day3] "folder") Sample.world_a)
     + calls is_download
         (emitted (download_file Sample.strptime Sample.timestamp
                     (Sample.quiet (6 * Sample.day) (λ _, [Sample.a_day3]))
                     (name Sample.a_day3) Sample.a_day3) Sample.world_a) ≤ 1)%nat.
Proof.
  assert (Hd : disk Sample.world_a !! "/local/a.txt"
               = Some (Sample.regular (5 * Sample.day))) by (vm_compute; reflexivity).
  assert (Hn : first_named (basename "/local/a.txt") [Sample.a_day3] = Some Sample.a_day3)
    by (vm_compute; reflexivity).
  assert (Ht : Sample.strptime (modifiedTime Sample.a_day3) = Ok (3 * Sample.day))
    by (vm_compute; reflexivity).
  assert (Hne : "/local/a.txt" ≠ "") by discriminate.
  destruct (one_direction_at_most Sample.strptime Sample.timestamp
              (Sample.quiet (6 * Sample.day) (λ _, [Sample.a_day3]))
              Sample.world_a Sample.world_a "folder" (Some "folder") Sample.mapping_a
              [Sample.a_day3] Sample.a_day3 "/local/a.txt" (Sample.regular (5 * Sample.day))
              Hd Hd eq_refl Hn eq_refl Hne) as (Hone & Hconv & _).
  destruct (Hconv (3 * Sample.day)) as ([_ Hup] & _).
  { exists (3 * Sample.day). split; [exact Ht|]. vm_compute. reflexivity. }
  split; [exact Hd|]. split; [exact Hn|]. split; [reflexivity|]. split; [exact Ht|].
  split; [|exact Hone]. apply Hup. vm_compute. reflexivity.
Defined.

(** X11 on an empty folder and a mapping of two paths, one of which is
    missing. *)
Lemma empty_folder_pass_witness :
  config_file Sample.world_ab = Json (Some "folder") (Some Sample.mapping_ab)
  ∧ listing (Sample.quiet (6 * Sample.day) (λ _, [])) (trace (loaded Sample.world_ab))
      "folder" = Ok []
  ∧ result (sync Sample.strptime Sample.timestamp (Sample.quiet (6 * Sample.day) (λ _, [])))
      Sample.world_ab = Ok tt
  ∧ calls is_create
      (emitted (sync Sample.strptime Sample.timestamp
                  (Sample.quiet (6 * Sample.day) (λ _, []))) Sample.world_ab)
    = length (List.filter (regular_on (disk Sample.world_ab))
                (dict_values Sample.mapping_ab))
  ∧ disk (snd (sync Sample.strptime Sample.timestamp
                 (Sample.quiet (6 * Sample.day) (λ _, [])) Sample.world_ab))
    = disk Sample.world_ab.
Proof.
  assert (Hok : result (sync Sample.strptime Sample.timestamp
                          (Sample.quiet (6 * Sample.day) (λ _, []))) Sample.world_ab = Ok tt)
    by (vm_compute; reflexivity).
  destruct (empty_folder_pass Sample.strptime Sample.timestamp
              (Sample.quiet (6 * Sample.day) (λ _, [])) Sample.world_ab "folder"
              Sample.mapping_ab eq_refl eq_refl Hok) as (_ & Hcreate & _ & _ & Hdisk).
  split; [reflexivity|]. split; [reflexivity|]. split; [exact Hok|].
  split; [exact Hcreate|exact Hdisk].
Defined.

(** X12 on a listed record that no key of the mapping names. *)
Lemma unnamed_records_only_warn_witness :
  config_file Sample.world_a = Json (Some "folder") (Some Sample.mapping_a)
  ∧ (∀ r, In r [Sample.b_day3] → ¬ In (name r) (map fst Sample.mapping_a))
  ∧ result (download_phase Sample.strptime Sample.timestamp
              (Sample.quiet (6 * Sample.day) (λ _, [Sample.b_day3])) [Sample.b_day3])
      Sample.world_a = Ok tt
  ∧ calls is_warning
      (emitted (download_phase Sample.strptime Sample.timestamp
                  (Sample.quiet (6 * Sample.day) (λ _, [Sample.b_day3])) [Sample.b_day3])
         Sample.world_a) = length [Sample.b_day3]
  ∧ calls is_transfer
      (emitted (download_phase Sample.strptime Sample.timestamp
                  (Sample.quiet (6 * Sample.day) (λ _, [Sample.b_day3])) [Sample.b_day3])
         Sample.world_a) = 0%nat.
Proof.
  assert (Hk : ∀ r, In r [Sample.b_day3] → ¬ In (name r) (map fst Sample.mapping_a)).
  { intros r [<-|[]] [H|[]]. discriminate. }
  destruct (unnamed_records_only_warn Sample.strptime Sample.timestamp
              (Sample.quiet (6 * Sample.day) (λ _, [Sample.b_day3])) Sample.world_a
              (Some "folder") Sample.mapping_a [Sample.b_day3] eq_refl Hk)
    as (Hok & _ & Hwarn & Hnone & _).
  split; [reflexivity|]. split; [exact Hk|]. split; [exact Hok|].
  split; [exact Hwarn|exact Hnone].
Defined.

(** X13 on backups of day 3, day 7 and day 5. *)
Lemma most_recent_is_first_latest_witness :
  Forall (parses Sample.strptime) [Sample.a_day3; Sample.a_day7; Sample.a_day5]
  ∧ ∃ before r after t,
      [Sample.a_day3; Sample.a_day7; Sample.a_day5] = before ++ r :: after
      ∧ most_recent Sample.strptime None [Sample.a_day3; Sample.a_day7; Sample.a_day5]
        = Ok (Some r)
      ∧ Sample.strptime (modifiedTime r) = Ok t
      ∧ (∀ r' t', In r' before → Sample.strptime (modifiedTime r') = Ok t' → t' < t)
      ∧ (∀ r' t', In r' after → Sample.strptime (modifiedTime r') = Ok t' → t' ≤ t).
Proof.
  assert (Hp : Forall (parses Sample.strptime)
                 [Sample.a_day3; Sample.a_day7; Sample.a_day5]).
  { repeat constructor; eexists; vm_compute; reflexivity. }
  split; [exact Hp|].
  apply (most_recent_is_first_latest Sample.strptime _ Hp). discriminate.
Defined.

(** X14 on a backup folder that lists a record without a proper time
    before a backup of the day before. *)
Lemma unparsable_backup_time_raises_witness :
  listing (Sample.quiet (8 * Sample.day) (λ _, [Sample.a_day3; Sample.no_time; Sample.a_day7]))
    (trace (record Now Sample.world_a)) BACKUP_FOLDER_ID
  = Ok ([Sample.a_day3] ++ Sample.no_time :: [Sample.a_day7])
  ∧ Forall (parses Sample.strptime) [Sample.a_day3]
  ∧ Sample.strptime (modifiedTime Sample.no_time) = Raised (Sample.bad_time "yesterday")
  ∧ create_backup Sample.strptime Sample.timestamp Sample.strftime Sample.datetime_str
      (Sample.quiet (8 * Sample.day) (λ _, [Sample.a_day3; Sample.no_time; Sample.a_day7]))
      Sample.world_a
    = (Raised (Sample.bad_time "yesterday"),
       listed BACKUP_FOLDER_ID (record Now Sample.world_a)).
Proof.
  assert (Hp : Forall (parses Sample.strptime) [Sample.a_day3]).
  { repeat constructor. exists (3 * Sample.day). vm_compute. reflexivity. }
  assert (Hbad : Sample.strptime (modifiedTime Sample.no_time)
                 = Raised (Sample.bad_time "yesterday")) by (vm_compute; reflexivity).
  destruct (unparsable_backup_time_raises Sample.strptime Sample.timestamp Sample.strftime
              Sample.datetime_str
              (Sample.quiet (8 * Sample.day)
                 (λ _, [Sample.a_day3; Sample.no_time; Sample.a_day7]))
              Sample.world_a [Sample.a_day3] [Sample.a_day7] Sample.no_time
              (Sample.bad_time "yesterday") eq_refl Hp Hbad) as (Hrun & _).
  split; [reflexivity|]. split; [exact Hp|]. split; [exact Hbad|exact Hrun].
Defined.

(** X15 on a mapping of two paths, one of which is missing. *)
Lemma archive_holds_existing_paths_witness :
  config_file Sample.world_ab = Json (Some "folder") (Some Sample.mapping_ab)
  ∧ zip_open_reply (Sample.quiet (26 * Sample.day) (λ _, []))
      (trace (loaded Sample.world_ab)) "/tmp/backup.zip"
    = Ok (Sample.tick (26 * Sample.day) (trace (loaded Sample.world_ab)))
  ∧ (In ("/local/a.txt", basename "/local/a.txt")
       (members_on
          (<["/tmp/backup.zip" :=
               {| st_kind := RegularFile;
                  st_mtime := Sample.tick (26 * Sample.day)
                                (trace (loaded Sample.world_ab)) |}]>
             (disk Sample.world_ab))
          (dict_values Sample.mapping_ab))
     ↔ In "/local/a.txt" (dict_values Sample.mapping_ab)
       ∧ is_Some (disk Sample.world_ab !! "/local/a.txt"))
  ∧ (In ("/local/b.txt", basename "/local/b.txt")
       (members_on
          (<["/tmp/backup.zip" :=
               {| st_kind := RegularFile;
                  st_mtime := Sample.tick (26 * Sample.day)
                                (trace (loaded Sample.world_ab)) |}]>
             (disk Sample.world_ab))
          (dict_values Sample.mapping_ab))
     ↔ In "/local/b.txt" (dict_values Sample.mapping_ab)
       ∧ is_Some (disk Sample.world_ab !! "/local/b.txt")).
Proof.
  destruct (archive_holds_existing_paths (Sample.quiet (26 * Sample.day) (λ _, []))
              "/tmp/backup.zip" Sample.world_ab (Some "folder") Sample.mapping_ab
              (Sample.tick (26 * Sample.day) (trace (loaded Sample.world_ab)))
              eq_refl eq_refl) as (_ & Hin & _).
  split; [reflexivity|]. split; [reflexivity|].
  split; apply Hin; discriminate.
Defined.

(** X17 on a backup made on day 26, with and without a listed record. *)
Lemma backup_uploaded_under_stamp_witness :
  slashless (Sample.strftime (26 * Sample.day)) = true
  ∧ build_archive (Sample.quiet (26 * Sample.day) (λ _, []))
      (backup_path Sample.strftime (26 * Sample.day)) Sample.world_a
    = (Ok tt, snd (build_archive (Sample.quiet (26 * Sample.day) (λ _, []))
                     (backup_path Sample.strftime (26 * Sample.day)) Sample.world_a))
  ∧ basename (backup_path Sample.strftime (26 * Sample.day))
    = "backup_" +:+ Sample.strftime (26 * Sample.day) +:+ ".zip"
  ∧ In (Create ("backup_" +:+ Sample.strftime (26 * Sample.day) +:+ ".zip")
          BACKUP_FOLDER_ID (backup_path Sample.strftime (26 * Sample.day)))
      (emitted (backup_archive Sample.strptime Sample.timestamp Sample.strftime
                  (Sample.quiet (26 * Sample.day) (λ _, [])) (26 * Sample.day)
                  [Sample.a_day3]) Sample.world_a).
Proof.
  assert (Hs : slashless (Sample.strftime (26 * Sample.day)) = true)
    by (vm_compute; reflexivity).
  assert (Hb : build_archive (Sample.quiet (26 * Sample.day) (λ _, []))
                 (backup_path Sample.strftime (26 * Sample.day)) Sample.world_a
               = (Ok tt, snd (build_archive (Sample.quiet (26 * Sample.day) (λ _, []))
                                (backup_path Sample.strftime (26 * Sample.day))
                                Sample.world_a))) by (vm_compute; reflexivity).
  destruct (backup_uploaded_under_stamp Sample.strptime Sample.timestamp Sample.strftime
              (Sample.quiet (26 * Sample.day) (λ _, [])) (26 * Sample.day) [Sample.a_day3]
              Sample.world_a _ Hs Hb) as (Hname & Hnew & _).
  destruct Hnew as (_ & _ & Hin); [vm_compute; reflexivity|].
  split; [exact Hs|]. split; [exact Hb|]. split; [exact Hname|exact Hin].
Defined.

(** X19 on a remote copy of day 7 whose download breaks on day 8. *)
Lemma broken_download_is_not_retried_witness :
  config_file Sample.world_a = Json (Some "folder") (Some Sample.mapping_a)
  ∧ dict_get Sample.mapping_a "a.txt" = Some "/local/a.txt"
  ∧ "/local/a.txt" ≠ CONFIG_FILE
  ∧ converts Sample.strptime Sample.timestamp Sample.a_day7 (7 * Sample.day)
  ∧ newer_or_absent Sample.world_a "/local/a.txt" (7 * Sample.day)
  ∧ download_reply (Sample.breaking (8 * Sample.day) (λ _, [Sample.a_day7]))
      (trace (loaded Sample.world_a)) (fileId Sample.a_day7) "/local/a.txt"
    = Broken (Sample.tick (8 * Sample.day) (trace (loaded Sample.world_a)))
        "Connection reset by peer"
  ∧ result (download_file Sample.strptime Sample.timestamp
              (Sample.breaking (8 * Sample.day) (λ _, [Sample.a_day7])) "a.txt"
              Sample.a_day7) Sample.world_a = Raised "Connection reset by peer"
  ∧ result (download_file Sample.strptime Sample.timestamp
              (Sample.breaking (8 * Sample.day) (λ _, [Sample.a_day7])) "a.txt"
              Sample.a_day7)
      (snd (download_file Sample.strptime Sample.timestamp
              (Sample.breaking (8 * Sample.day) (λ _, [Sample.a_day7])) "a.txt"
              Sample.a_day7 Sample.world_a)) = Ok tt
  ∧ calls is_download
      (emitted (download_file Sample.strptime Sample.timestamp
                  (Sample.breaking (8 * Sample.day) (λ _, [Sample.a_day7])) "a.txt"
                  Sample.a_day7)
         (snd (download_file Sample.strptime Sample.timestamp
                 (Sample.breaking (8 * Sample.day) (λ _, [Sample.a_day7])) "a.txt"
                 Sample.a_day7 Sample.world_a))) = 0%nat.
Proof.
  assert (Hne : "/local/a.txt" ≠ "") by discriminate.
  assert (Hnc : "/local/a.txt" ≠ CONFIG_FILE) by discriminate.
  assert (Ht : converts Sample.strptime Sample.timestamp Sample.a_day7 (7 * Sample.day)).
  { exists (7 * Sample.day). split; vm_compute; reflexivity. }
  assert (Hnew : newer_or_absent Sample.world_a "/local/a.txt" (7 * Sample.day))
    by (vm_compute; reflexivity).
  destruct (broken_download_is_not_retried Sample.strptime Sample.timestamp
              (Sample.breaking (8 * Sample.day) (λ _, [Sample.a_day7])) Sample.world_a
              (Some "folder") Sample.mapping_a "a.txt" "/local/a.txt" Sample.a_day7
              (7 * Sample.day) (Sample.tick (8 * Sample.day) (trace (loaded Sample.world_a)))
              "Connection reset by peer" eq_refl eq_refl Hne Hnc Ht Hnew eq_refl)
    as (Hraise & _ & _ & Hnext).
  destruct Hnext as (Hok & Hnone & _); [vm_compute; discriminate|].
  split; [reflexivity|]. split; [reflexivity|]. split; [exact Hnc|]. split; [exact Ht|].
  split; [exact Hnew|].
  split; [reflexivity|]. split; [exact Hraise|]. split; [exact Hok|exact Hnone].
Defined.

(** X21 on a turn of day 6, with a backup of day 3 in the backup folder:
    the timer is not due when the last attempt was on day 2, and it is
    reset by a skipped backup when the last attempt was on day -4. *)
Lemma backup_timer_witness :
  sync Sample.strptime Sample.timestamp
    (Sample.quiet (6 * Sample.day) (λ _, [Sample.a_day3]))
    (record (Log INFO "Starting sync operation...") Sample.world_a)
  = (Ok tt, snd (sync Sample.strptime Sample.timestamp
                   (Sample.quiet (6 * Sample.day) (λ _, [Sample.a_day3]))
                   (record (Log INFO "Starting sync operation...") Sample.world_a)))
  ∧ syncing Sample.strptime Sample.timestamp Sample.strftime Sample.datetime_str
      (Sample.quiet (6 * Sample.day) (λ _, [Sample.a_day3])) (2 * Sample.day)
      Sample.world_a
    = (Ok (2 * Sample.day),
       record Now
         (snd (sync Sample.strptime Sample.timestamp
                 (Sample.quiet (6 * Sample.day) (λ _, [Sample.a_day3]))
                 (record (Log INFO "Starting sync operation...") Sample.world_a))))
  ∧ ∃ msg w3,
      syncing Sample.strptime Sample.timestamp Sample.strftime Sample.datetime_str
        (Sample.quiet (6 * Sample.day) (λ _, [Sample.a_day3])) (- 4 * Sample.day)
        Sample.world_a
      = (Ok (clock (Sample.quiet (6 * Sample.day) (λ _, [Sample.a_day3])) (trace w3)),
         record Now w3)
      ∧ last (trace w3) = Some (Log INFO msg)
      ∧ disk w3 = disk Sample.world_a.
Proof.
  assert (Hs : sync Sample.strptime Sample.timestamp
                 (Sample.quiet (6 * Sample.day) (λ _, [Sample.a_day3]))
                 (record (Log INFO "Starting sync operation...") Sample.world_a)
               = (Ok tt, snd (sync Sample.strptime Sample.timestamp
                                (Sample.quiet (6 * Sample.day) (λ _, [Sample.a_day3]))
                                (record (Log INFO "Starting sync operation...")
                                   Sample.world_a)))) by (vm_compute; reflexivity).
  split; [exact Hs|]. split.
  - destruct (backup_timer Sample.strptime Sample.timestamp Sample.strftime
                Sample.datetime_str (Sample.quiet (6 * Sample.day) (λ _, [Sample.a_day3]))
                (2 * Sample.day) Sample.world_a _ Hs) as (Hwait & _).
    apply Hwait. vm_compute. reflexivity.
  - destruct (backup_timer Sample.strptime Sample.timestamp Sample.strftime
                Sample.datetime_str (Sample.quiet (6 * Sample.day) (λ _, [Sample.a_day3]))
                (- 4 * Sample.day) Sample.world_a _ Hs) as (_ & Hdue).
    destruct Hdue as (_ & Hskip); [vm_compute; discriminate|].
    destruct (Hskip [Sample.a_day3] eq_refl) as [msg Hrun].
    + repeat constructor. exists (3 * Sample.day). vm_compute. reflexivity.
    + constructor. exists (3 * Sample.day). split; vm_compute; reflexivity.
    + exists msg. eexists. split; [exact Hrun|]. split; [apply last_snoc|].
      vm_compute. reflexivity.
Defined.
